(** * ETF-Trading: a shallow embedding of the decision engine of [main.py]

    The engine keeps a FIFO ledger of open lots per instrument
    ([position_queues]), sizes orders with [risk_allowed], guards the summed
    basket exposure with a breach timer ([check_and_correct_basket_limit]) and
    runs four strategies against an exchange client.

    Conventions of the embedding:
    - Python [int] is [Z]; Python [float] is the kernel's binary64
      [PrimFloat.float], so comparisons such as [bid > ask + threshold]
      are computed exactly as CPython computes them;
    - the global dict [position_queues] is an association list in the
      insertion order of the dict literal (the order [.items()] iterates in);
      a deque of lots is a list whose head is the oldest lot;
    - the optibook [Exchange] client is an interface (a type class): the engine
      only calls [get_positions], [get_last_price_book] and [insert_order];
    - module globals and the exchange are threaded through a state monad whose
      outcome is either a returned value or a raised [KeyError]. *)

From Stdlib Require Import ZArith Floats Lia.
From stdpp Require Import gmap strings list.

#[local] Set Warnings "-inexact-float".
#[local] Open Scope Z_scope.

(** ** Floats as Python uses them *)

(** [a > b] on two Python floats. *)
Definition fgt (a b : float) : bool := PrimFloat.ltb b a.
(** [a < b] on two Python floats. *)
Definition flt (a b : float) : bool := PrimFloat.ltb a b.

(** ** Constants of [main.py] *)

Definition ETF_EU_ID : string := "SEMIS_ETF_EU".
Definition ETF_US_ID : string := "SEMIS_ETF_US".
Definition ASML_ID : string := "ASML".
Definition AMD_ID : string := "AMD".
Definition NVDA_ID : string := "NVDA".

Definition THRESHOLD : float := 0.05%float.
Definition BASKET_THRESHOLD : float := 10%float.
Definition MAX_POSITION : Z := 750.
Definition INSTRUMENT_IDS : list string :=
  ["SEMIS_ETF_US"; "SEMIS_ETF_EU"; "NVDA"; "AMD"; "ASML"]%string.
Definition GRID_THRESHOLD_DEFAULT : float := 0.2%float.
Definition GRID_THRESHOLD : float := GRID_THRESHOLD_DEFAULT.
Definition BASKET_LOWER_LIMIT : Z := -300.
Definition BASKET_UPPER_LIMIT : Z := 300.

(** The constants imported from optibook.  Only the fact that the two sides
    are different strings matters to the engine. *)
Definition SIDE_BID : string := "bid".
Definition SIDE_ASK : string := "ask".
Definition ORDER_TYPE_IOC : string := "ioc".

(** ** The position ledger *)

(** A lot is the tuple [(entry_price, volume)]. *)
Definition Lot : Type := float * Z.

(** The value [{'long': deque(), 'short': deque()}] kept per instrument. *)
Record Queues : Type := mkQueues { long : list Lot; short : list Lot }.

Definition PositionQueues : Type := list (string * Queues).

(** The dict literal bound to [position_queues] (the stray [''] token in
    front of its first key is disregarded). *)
Definition initial_position_queues : PositionQueues :=
  [ (ETF_US_ID, mkQueues [] []); (ETF_EU_ID, mkQueues [] []);
    (ASML_ID, mkQueues [] []); (AMD_ID, mkQueues [] []);
    (NVDA_ID, mkQueues [] []) ].

(** [position_queues[instrument]]; [None] stands for the [KeyError]. *)
Fixpoint pq_get (instrument : string) (pq : PositionQueues) : option Queues :=
  match pq with
  | [] => None
  | (k, qs) :: rest =>
      if decide (k = instrument) then Some qs else pq_get instrument rest
  end.

(** In-place mutation of the deques stored under [instrument]. *)
Fixpoint pq_set (instrument : string) (qs' : Queues) (pq : PositionQueues)
  : PositionQueues :=
  match pq with
  | [] => []
  | (k, qs) :: rest =>
      if decide (k = instrument) then (k, qs') :: rest
      else (k, qs) :: pq_set instrument qs' rest
  end.

Inductive Exception : Type := KeyError (key : string).

(** The [while volume > 0 and queue:] loop of [record_trade], on the queue of
    the opposite side: returns the queue and the volume left when the loop
    exits. *)
Fixpoint offset_lots (lots : list Lot) (volume : Z) : list Lot * Z :=
  if 0 <? volume then
    match lots with
    | [] => (lots, volume)
    | (entry_price, entry_vol) :: rest =>
        if entry_vol <=? volume then offset_lots rest (volume - entry_vol)
        else ((entry_price, entry_vol - volume) :: rest, 0)
    end
  else (lots, volume).

(** [record_trade(instrument, side, price, volume)] as a function of the
    ledger.  The subscript [position_queues[instrument]] is only evaluated
    once [volume > 0] holds, so a non-positive volume never raises. *)
Definition record_trade (instrument side : string) (price : float) (volume : Z)
    (pq : PositionQueues) : Exception + PositionQueues :=
  if decide (side = SIDE_BID) then
    if 0 <? volume then
      match pq_get instrument pq with
      | None => inl (KeyError instrument)
      | Some qs =>
          let '(short', volume') := offset_lots (short qs) volume in
          let long' :=
            if 0 <? volume' then long qs ++ [(price, volume')] else long qs in
          inr (pq_set instrument (mkQueues long' short') pq)
      end
    else inr pq
  else if decide (side = SIDE_ASK) then
    if 0 <? volume then
      match pq_get instrument pq with
      | None => inl (KeyError instrument)
      | Some qs =>
          let '(long', volume') := offset_lots (long qs) volume in
          let short' :=
            if 0 <? volume' then short qs ++ [(price, volume')] else short qs in
          inr (pq_set instrument (mkQueues long' short') pq)
      end
    else inr pq
  else inr pq.

(** One call of [record_trade], as data. *)
Record Trade : Type := mkTrade {
  t_instrument : string; t_side : string; t_price : float; t_volume : Z }.

(** A sequence of [record_trade] calls; it stops at the first exception. *)
Fixpoint record_trades (trades : list Trade) (pq : PositionQueues)
  : Exception + PositionQueues :=
  match trades with
  | [] => inr pq
  | t :: rest =>
      match record_trade (t_instrument t) (t_side t) (t_price t) (t_volume t) pq with
      | inl err => inl err
      | inr pq' => record_trades rest pq'
      end
  end.

(** Ledger observations used by the statements. *)
Definition total_volume (lots : list Lot) : Z :=
  foldr (fun lot acc => lot.2 + acc) 0 lots.

Definition net_lots (qs : Queues) : Z :=
  total_volume (long qs) - total_volume (short qs).

Definition ledger_net (instrument : string) (pq : PositionQueues) : Z :=
  match pq_get instrument pq with Some qs => net_lots qs | None => 0 end.

(** Buy counts [+volume], sell [-volume]. *)
Definition signed_volume (side : string) (volume : Z) : Z :=
  if decide (side = SIDE_BID) then volume
  else if decide (side = SIDE_ASK) then - volume else 0.

Definition signed_sum (instrument : string) (trades : list Trade) : Z :=
  foldr (fun t acc =>
           if decide (t_instrument t = instrument)
           then signed_volume (t_side t) (t_volume t) + acc else acc)
        0 trades.

Definition lots_positive (lots : list Lot) : Prop :=
  Forall (fun lot : Lot => 0 < lot.2) lots.

(** ** The exchange client *)

(** One level of a price book. *)
Record PriceVolume : Type := mkPriceVolume { price : float; volume : Z }.

(** A price book: bids by descending price, asks by ascending price. *)
Record PriceBook : Type := mkPriceBook {
  bids : list PriceVolume; asks : list PriceVolume }.

(** The arguments of one [insert_order] call. *)
Record Order : Type := mkOrder {
  order_instrument : string;
  order_price : float;
  order_volume : Z;
  order_side : string;
  order_type : string }.

(** What the engine uses of optibook's [Exchange]: two queries and
    [insert_order], whose response the engine never looks at. *)
Class Exchange (E : Type) : Type := {
  get_positions : E -> gmap string Z;
  get_last_price_book : E -> string -> option PriceBook;
  insert_order : E -> Order -> E }.

(** [pos.get(instrument, 0)]. *)
Definition pos_get (pos : gmap string Z) (instrument : string) : Z :=
  default 0 (pos !! instrument).

(** The sum computed at the top of [get_dynamic_grid_threshold] and of
    [check_and_correct_basket_limit]. *)
Definition basket_of (pos : gmap string Z) : Z :=
  pos_get pos ETF_US_ID + pos_get pos ETF_EU_ID +
  pos_get pos ASML_ID + pos_get pos AMD_ID + pos_get pos NVDA_ID.

(** [is_up] of [helper.py]: the book exists and neither side is empty. *)
Definition is_up (priceBook : option PriceBook) : bool :=
  match priceBook with
  | Some pb =>
      match asks pb, bids pb with
      | _ :: _, _ :: _ => true
      | _, _ => false
      end
  | None => false
  end.

(** The six [last_*] globals of the hedge. *)
Record UnderlyingPrices : Type := mkUnderlyingPrices {
  last_asml_bid : float; last_amd_bid : float; last_nvda_bid : float;
  last_asml_ask : float; last_amd_ask : float; last_nvda_ask : float }.

Definition initial_underlying_prices : UnderlyingPrices :=
  mkUnderlyingPrices 0 0 0 0 0 0.

(** [if pb and pb.<side>: last = pb.<side>[0].price], else keep [last]. *)
Definition refreshed (pb : option PriceBook) (side : PriceBook -> list PriceVolume)
    (last : float) : float :=
  match pb with
  | Some pb => match side pb with top :: _ => price top | [] => last end
  | None => last
  end.

(** An exchange whose books and positions stay as they are while the engine
    runs: orders are accepted and nothing moves. *)
Record QuietExchange : Type := mkQuiet {
  quiet_positions : gmap string Z;
  quiet_books : gmap string PriceBook }.

#[export] Instance quiet_exchange : Exchange QuietExchange := {
  get_positions q := quiet_positions q;
  get_last_price_book q instrument := quiet_books q !! instrument;
  insert_order q _ := q }.

(** ** The engine *)

Section Engine.
Context {E : Type} `{Exchange E}.

(** The exchange client, the log of the [insert_order] calls made so far
    (oldest first) and the module globals. *)
Record World : Type := mkWorld {
  exchange : E;
  sent : list Order;
  position_queues : PositionQueues;
  arbitrage_counter : Z;
  reverse_arbitrage_counter : Z;
  basket_violation_start_time : option float;
  underlying : UnderlyingPrices }.

Definition with_position_queues (pq : PositionQueues) (w : World) : World :=
  mkWorld (exchange w) (sent w) pq (arbitrage_counter w)
          (reverse_arbitrage_counter w) (basket_violation_start_time w)
          (underlying w).

Definition with_arbitrage_counter (n : Z) (w : World) : World :=
  mkWorld (exchange w) (sent w) (position_queues w) n
          (reverse_arbitrage_counter w) (basket_violation_start_time w)
          (underlying w).

Definition with_reverse_arbitrage_counter (n : Z) (w : World) : World :=
  mkWorld (exchange w) (sent w) (position_queues w) (arbitrage_counter w)
          n (basket_violation_start_time w) (underlying w).

Definition with_basket_violation_start_time (t : option float) (w : World)
  : World :=
  mkWorld (exchange w) (sent w) (position_queues w) (arbitrage_counter w)
          (reverse_arbitrage_counter w) t (underlying w).

Definition with_underlying (u : UnderlyingPrices) (w : World) : World :=
  mkWorld (exchange w) (sent w) (position_queues w) (arbitrage_counter w)
          (reverse_arbitrage_counter w) (basket_violation_start_time w) u.

(** [e.insert_order(...)]: the exchange moves on and the call is logged. *)
Definition with_order (o : Order) (w : World) : World :=
  mkWorld (insert_order (exchange w) o) (sent w ++ [o]) (position_queues w)
          (arbitrage_counter w) (reverse_arbitrage_counter w)
          (basket_violation_start_time w) (underlying w).

Inductive Outcome (A : Type) : Type :=
| Returned (a : A)
| Raised (err : Exception).
#[global] Arguments Returned {A} a.
#[global] Arguments Raised {A} err.

(** A computation over the world that returns or raises; the world it
    leaves behind is kept in both cases. *)
Definition M (A : Type) : Type := World -> Outcome A * World.

Definition ret {A : Type} (a : A) : M A := fun w => (Returned a, w).

Definition bind {A B : Type} (m : M A) (k : A -> M B) : M B :=
  fun w =>
    match m w with
    | (Returned a, w') => k a w'
    | (Raised err, w') => (Raised err, w')
    end.

Definition gets {A : Type} (f : World -> A) : M A := fun w => (Returned (f w), w).
Definition modify (f : World -> World) : M unit := fun w => (Returned tt, f w).
End Engine.

#[global] Arguments World E : clear implicits.
#[global] Arguments M E A : clear implicits.

Declare Scope engine_scope.
Delimit Scope engine_scope with engine.
Notation "'let*' x ':=' m 'in' k" := (bind m (fun x => k))
  (at level 10, x name, m at level 100, k at level 200) : engine_scope.
Notation "m ';;' k" := (bind m (fun _ => k))
  (at level 100, k at level 200, right associativity) : engine_scope.

Section Strategies.
Context {E : Type} `{Exchange E}.
#[local] Open Scope engine_scope.

(** [for x in xs: body(x)]. *)
Fixpoint for_each {A : Type} (xs : list A) (body : A -> M E unit) : M E unit :=
  match xs with
  | [] => ret tt
  | x :: rest => body x ;; for_each rest body
  end.

(** The call [e.insert_order(instrument, price=.., volume=.., side=..,
    order_type=ORDER_TYPE_IOC)]; the response is dropped, as in the source. *)
Definition send (instrument : string) (price : float) (volume : Z)
    (side : string) : M E unit :=
  modify (with_order (mkOrder instrument price volume side ORDER_TYPE_IOC)).

(** [record_trade] on the global ledger. *)
Definition record_trade_global (instrument side : string) (price : float)
    (volume : Z) : M E unit :=
  fun w =>
    match record_trade instrument side price volume (position_queues w) with
    | inl err => (Raised err, w)
    | inr pq => (Returned tt, with_position_queues pq w)
    end.

(** [0.8 * 300] is the float [240.0], and Python compares an [int] with a
    float exactly, so [abs(basket) > 0.8 * 300] is [240 < |basket|]. *)
Definition get_dynamic_grid_threshold (e : E) : float :=
  let pos := get_positions e in
  let basket := basket_of pos in
  if 240 <? Z.abs basket then (GRID_THRESHOLD / 2)%float else GRID_THRESHOLD.

(** The corrective sells of the over-long branch, for one instrument. *)
Definition forced_sell (pos : gmap string Z) (trade_volume : Z)
    (instrument : string) : M E unit :=
  let current := pos_get pos instrument in
  if 0 <? current then
    let volume_to_sell := Z.min current trade_volume in
    let* pb := gets (fun w => get_last_price_book (exchange w) instrument) in
    match pb with
    | Some pb =>
        match bids pb with
        | top :: _ => send instrument (price top) volume_to_sell SIDE_ASK
        | [] => ret tt
        end
    | None => ret tt
    end
  else ret tt.

(** The corrective buys of the over-short branch, for one instrument. *)
Definition forced_buy (pos : gmap string Z) (trade_volume : Z)
    (instrument : string) : M E unit :=
  let current := pos_get pos instrument in
  if current <? 0 then
    let* pb := gets (fun w => get_last_price_book (exchange w) instrument) in
    match pb with
    | Some pb =>
        match asks pb with
        | top :: _ =>
            let volume_to_buy := Z.min (Z.abs current) trade_volume in
            send instrument (price top) volume_to_buy SIDE_BID
        | [] => ret tt
        end
    | None => ret tt
    end
  else ret tt.

(** [check_and_correct_basket_limit(e)].  At most one of the two
    [time.time()] calls is reached in an invocation; [now] is its value. *)
Definition check_and_correct_basket_limit (now : float) : M E unit :=
  let* pos := gets (fun w => get_positions (exchange w)) in
  let basket := basket_of pos in
  if (-250 <=? basket) && (basket <=? 250) then
    modify (with_basket_violation_start_time None)
  else
    let* started := gets basket_violation_start_time in
    match started with
    | None => modify (with_basket_violation_start_time (Some now))
    | Some t0 =>
        if fgt (now - t0)%float 2.5%float then
          (if 300 <? basket then
             let excess := basket - 250 in
             let trade_volume := excess / 5 + 1 in
             for_each INSTRUMENT_IDS (forced_sell pos trade_volume)
           else if basket <? -300 then
             let excess := -250 - basket in
             let trade_volume := excess / 5 + 1 in
             for_each INSTRUMENT_IDS (forced_buy pos trade_volume)
           else ret tt) ;;
          modify (with_basket_violation_start_time None)
        else ret tt
    end.

(** The [while queues['long']:] loop of [auto_calibrate_positions]:
    returns what is left of the deque. *)
Fixpoint exit_long_lots (instrument : string) (current_bid dyn_threshold : float)
    (lots : list Lot) : M E (list Lot) :=
  match lots with
  | [] => ret []
  | (entry_price, volume) :: rest =>
      if fgt current_bid (entry_price + dyn_threshold)%float then
        send instrument current_bid volume SIDE_ASK ;;
        exit_long_lots instrument current_bid dyn_threshold rest
      else ret lots
  end.

(** The [while queues['short']:] loop. *)
Fixpoint exit_short_lots (instrument : string) (current_ask dyn_threshold : float)
    (lots : list Lot) : M E (list Lot) :=
  match lots with
  | [] => ret []
  | (entry_price, volume) :: rest =>
      if flt current_ask (entry_price - dyn_threshold)%float then
        send instrument current_ask volume SIDE_BID ;;
        exit_short_lots instrument current_ask dyn_threshold rest
      else ret lots
  end.

(** The body of the [for instrument, queues in position_queues.items()]
    loop; [queues] is the dict value itself, mutated in place, so the body
    returns its new content. *)
Definition calibrate_instrument (instrument : string) (queues : Queues)
  : M E Queues :=
  let* pb := gets (fun w => get_last_price_book (exchange w) instrument) in
  match pb with
  | None => ret queues
  | Some pb =>
      let* dyn_threshold := gets (fun w => get_dynamic_grid_threshold (exchange w)) in
      let* long' :=
        match bids pb with
        | top :: _ => exit_long_lots instrument (price top) dyn_threshold (long queues)
        | [] => ret (long queues)
        end in
      let* short' :=
        match asks pb with
        | top :: _ => exit_short_lots instrument (price top) dyn_threshold (short queues)
        | [] => ret (short queues)
        end in
      ret (mkQueues long' short')
  end.

Fixpoint calibrate_items (items : PositionQueues) : M E PositionQueues :=
  match items with
  | [] => ret []
  | (instrument, queues) :: rest =>
      let* queues' := calibrate_instrument instrument queues in
      let* rest' := calibrate_items rest in
      ret ((instrument, queues') :: rest')
  end.

(** [auto_calibrate_positions(e)]. *)
Definition auto_calibrate_positions : M E unit :=
  let* items := gets position_queues in
  let* items' := calibrate_items items in
  modify (with_position_queues items').

(** [risk_allowed(e, instrument, side)]. *)
Definition risk_allowed (e : E) (instrument side : string) : Z :=
  let pos := pos_get (get_positions e) instrument in
  let allowed :=
    if decide (side = SIDE_BID) then MAX_POSITION - pos
    else if decide (side = SIDE_ASK) then MAX_POSITION + pos
    else 0 in
  Z.max allowed 0.

(** [arbitrage_strategy(e, threshold)]. *)
Definition arbitrage_strategy (threshold : float) : M E unit :=
  let* e := gets exchange in
  let etf_us := get_last_price_book e ETF_US_ID in
  let etf_eu := get_last_price_book e ETF_EU_ID in
  if negb (is_up etf_us && is_up etf_eu) then ret tt
  else
    match etf_us, etf_eu with
    | Some us, Some eu =>
        match bids us, asks eu with
        | us_bid :: _, eu_ask :: _ =>
            let bid_price_us := price us_bid in
            let ask_price_eu := price eu_ask in
            if fgt bid_price_us (ask_price_eu + threshold)%float then
              let order_volume := Z.min (volume us_bid) (volume eu_ask) in
              let allowed_sell_us := risk_allowed e ETF_US_ID SIDE_ASK in
              let allowed_buy_eu := risk_allowed e ETF_EU_ID SIDE_BID in
              let volume :=
                Z.min (Z.min order_volume allowed_sell_us) allowed_buy_eu in
              if 0 <? volume then
                send ETF_US_ID bid_price_us volume SIDE_ASK ;;
                send ETF_EU_ID ask_price_eu volume SIDE_BID ;;
                modify (fun w => with_arbitrage_counter (arbitrage_counter w + 1) w) ;;
                record_trade_global ETF_US_ID SIDE_ASK bid_price_us volume ;;
                record_trade_global ETF_EU_ID SIDE_BID ask_price_eu volume
              else ret tt
            else ret tt
        | _, _ => ret tt
        end
    | _, _ => ret tt
    end.

(** [reverse_arbitrage_strategy(e, threshold)]. *)
Definition reverse_arbitrage_strategy (threshold : float) : M E unit :=
  let* e := gets exchange in
  let etf_us := get_last_price_book e ETF_US_ID in
  let etf_eu := get_last_price_book e ETF_EU_ID in
  if negb (is_up etf_us && is_up etf_eu) then ret tt
  else
    match etf_us, etf_eu with
    | Some us, Some eu =>
        match bids eu, asks us with
        | eu_bid :: _, us_ask :: _ =>
            let bid_price_eu := price eu_bid in
            let ask_price_us := price us_ask in
            if fgt bid_price_eu (ask_price_us + threshold)%float then
              let order_volume := Z.min (volume eu_bid) (volume us_ask) in
              let allowed_sell_eu := risk_allowed e ETF_EU_ID SIDE_ASK in
              let allowed_buy_us := risk_allowed e ETF_US_ID SIDE_BID in
              let volume :=
                Z.min (Z.min order_volume allowed_sell_eu) allowed_buy_us in
              if 0 <? volume then
                send ETF_EU_ID bid_price_eu volume SIDE_ASK ;;
                send ETF_US_ID ask_price_us volume SIDE_BID ;;
                modify (fun w => with_reverse_arbitrage_counter
                                   (reverse_arbitrage_counter w + 1) w) ;;
                record_trade_global ETF_EU_ID SIDE_ASK bid_price_eu volume ;;
                record_trade_global ETF_US_ID SIDE_BID ask_price_us volume
              else ret tt
            else ret tt
        | _, _ => ret tt
        end
    | _, _ => ret tt
    end.

(** [update_underlying_prices(e)], on the six globals. *)
Definition updated_prices (e : E) (u : UnderlyingPrices) : UnderlyingPrices :=
  let asml_pb := get_last_price_book e ASML_ID in
  let amd_pb := get_last_price_book e AMD_ID in
  let nvda_pb := get_last_price_book e NVDA_ID in
  mkUnderlyingPrices
    (refreshed asml_pb bids (last_asml_bid u))
    (refreshed amd_pb bids (last_amd_bid u))
    (refreshed nvda_pb bids (last_nvda_bid u))
    (refreshed asml_pb asks (last_asml_ask u))
    (refreshed amd_pb asks (last_amd_ask u))
    (refreshed nvda_pb asks (last_nvda_ask u)).

Definition update_underlying_prices : M E unit :=
  modify (fun w => with_underlying (updated_prices (exchange w) (underlying w)) w).

(** The four books of the hedge with both sides non-empty, as their
    touches; [None] when either [return] of the two guards is taken. *)
Definition hedge_touches (e : E)
  : option (PriceVolume * PriceVolume * (PriceVolume * PriceVolume) *
            (PriceVolume * PriceVolume) * (PriceVolume * PriceVolume)) :=
  match get_last_price_book e ETF_US_ID, get_last_price_book e ASML_ID,
        get_last_price_book e AMD_ID, get_last_price_book e NVDA_ID with
  | Some etf_us, Some asml, Some amd, Some nvda =>
      match bids etf_us, asks etf_us, bids asml, asks asml,
            bids amd, asks amd, bids nvda, asks nvda with
      | eb :: _, ea :: _, sb :: _, sa :: _, db :: _, da :: _, nb :: _, na :: _ =>
          Some (eb, ea, (sb, sa), (db, da), (nb, na))
      | _, _, _, _, _, _, _, _ => None
      end
  | _, _, _, _ => None
  end.

(** [hedge_basket_strategy(e)]. *)
Definition hedge_basket_strategy : M E unit :=
  update_underlying_prices ;;
  let* e := gets exchange in
  match hedge_touches e with
  | None => ret tt
  | Some (etf_bid0, etf_ask0, (asml_bid0, asml_ask0), (amd_bid0, amd_ask0),
          (nvda_bid0, nvda_ask0)) =>
      let* u := gets underlying in
      let avg_underlying_bid :=
        ((last_asml_bid u + last_amd_bid u + last_nvda_bid u) / 3)%float in
      let avg_underlying_ask :=
        ((last_asml_ask u + last_amd_ask u + last_nvda_ask u) / 3)%float in
      let etf_bid := price etf_bid0 in
      let etf_ask := price etf_ask0 in
      if flt etf_ask (avg_underlying_bid - BASKET_THRESHOLD)%float then
        let volume :=
          Z.min (Z.min (Z.min (Z.min (volume etf_ask0 / 3) (volume asml_bid0))
                              (volume amd_bid0)) (volume nvda_bid0)) 10 in
        let allowed_buy_etf := risk_allowed e ETF_US_ID SIDE_BID in
        let allowed_sell_asml := risk_allowed e ASML_ID SIDE_ASK in
        let allowed_sell_amd := risk_allowed e AMD_ID SIDE_ASK in
        let allowed_sell_nvda := risk_allowed e NVDA_ID SIDE_ASK in
        let allowed_volume :=
          Z.min (Z.min (Z.min (Z.min volume allowed_buy_etf) allowed_sell_asml)
                       allowed_sell_amd) allowed_sell_nvda in
        if 0 <? allowed_volume then
          send ETF_US_ID (price etf_ask0) (allowed_volume * 3) SIDE_BID ;;
          send ASML_ID (price asml_bid0) allowed_volume SIDE_ASK ;;
          send AMD_ID (price amd_bid0) allowed_volume SIDE_ASK ;;
          send NVDA_ID (price nvda_bid0) allowed_volume SIDE_ASK ;;
          record_trade_global ETF_US_ID SIDE_BID (price etf_ask0) (allowed_volume * 3) ;;
          record_trade_global ASML_ID SIDE_ASK (price asml_bid0) allowed_volume ;;
          record_trade_global AMD_ID SIDE_ASK (price amd_bid0) allowed_volume ;;
          record_trade_global NVDA_ID SIDE_ASK (price nvda_bid0) allowed_volume
        else ret tt
      else if fgt etf_bid (avg_underlying_ask + BASKET_THRESHOLD)%float then
        let volume :=
          Z.min (Z.min (Z.min (Z.min (volume etf_bid0 / 3) (volume asml_ask0))
                              (volume amd_ask0)) (volume nvda_ask0)) 10 in
        let allowed_sell_etf := risk_allowed e ETF_US_ID SIDE_ASK in
        let allowed_buy_asml := risk_allowed e ASML_ID SIDE_BID in
        let allowed_buy_amd := risk_allowed e AMD_ID SIDE_BID in
        let allowed_buy_nvda := risk_allowed e NVDA_ID SIDE_BID in
        let allowed_volume :=
          Z.min (Z.min (Z.min (Z.min volume allowed_sell_etf) allowed_buy_asml)
                       allowed_buy_amd) allowed_buy_nvda in
        if 0 <? allowed_volume then
          send ETF_US_ID (price etf_bid0) (allowed_volume * 3) SIDE_ASK ;;
          send ASML_ID (price asml_ask0) allowed_volume SIDE_BID ;;
          send AMD_ID (price amd_ask0) allowed_volume SIDE_BID ;;
          send NVDA_ID (price nvda_ask0) allowed_volume SIDE_BID ;;
          record_trade_global ETF_US_ID SIDE_ASK (price etf_bid0) (allowed_volume * 3) ;;
          record_trade_global ASML_ID SIDE_BID (price asml_ask0) allowed_volume ;;
          record_trade_global AMD_ID SIDE_BID (price amd_ask0) allowed_volume ;;
          record_trade_global NVDA_ID SIDE_BID (price nvda_ask0) allowed_volume
        else ret tt
      else ret tt
  end.

(** [trade_cycle(e)]; [now] is the clock value read by the basket check. *)
Definition trade_cycle (now : float) : M E unit :=
  hedge_basket_strategy ;;
  arbitrage_strategy THRESHOLD ;;
  reverse_arbitrage_strategy THRESHOLD ;;
  auto_calibrate_positions ;;
  check_and_correct_basket_limit now.
End Strategies.

(** ** Statement vocabulary and sample data *)

(** [fifo_offset lots volume lots' leftover]: offsetting [volume] against the
    queue [lots] closed a prefix [closed] of it, oldest lots first, whose total
    does not exceed [volume]; either the whole queue was closed and [leftover]
    is the unmatched volume, or the first lot that the remaining volume does
    not cover stays at the head, reduced by that remainder, with every newer
    lot behind it untouched. *)
Definition fifo_offset (lots : list Lot) (volume : Z) (lots' : list Lot)
    (leftover : Z) : Prop :=
  exists closed rest,
    lots = closed ++ rest /\ total_volume closed <= volume /\
    ((rest = [] /\ lots' = [] /\ leftover = volume - total_volume closed) \/
     (exists entry_price entry_vol newer,
         rest = (entry_price, entry_vol) :: newer /\
         volume - total_volume closed < entry_vol /\
         lots' = (entry_price, entry_vol - (volume - total_volume closed)) :: newer /\
         leftover = 0)).

(** The queue a leftover volume is appended to. *)
Definition opened (price : float) (leftover : Z) (lots : list Lot) : list Lot :=
  if 0 <? leftover then lots ++ [(price, leftover)] else lots.

Definition sample_trades : list Trade :=
  [ mkTrade ETF_US_ID SIDE_BID 100 5;
    mkTrade ETF_EU_ID SIDE_ASK 101 4;
    mkTrade ETF_US_ID SIDE_ASK 102 8;
    mkTrade ETF_US_ID SIDE_BID 99 1 ].

(** A ledger with two short lots on the US listing. *)
Definition sample_ledger : PositionQueues :=
  [ (ETF_US_ID, mkQueues [] [(100%float, 5); (101%float, 7)]);
    (ETF_EU_ID, mkQueues [(99%float, 3)] []) ].

Definition sample_queues : Queues :=
  mkQueues [] [(100%float, 5); (101%float, 7)].

(** ** Runs of the basket check *)

Section GuardRuns.
Context {E : Type} `{Exchange E}.

(** The basket exposure the check computes is outside [[-250, 250]]. *)
Definition breached (w : World E) : bool :=
  let basket := basket_of (get_positions (exchange w)) in
  negb ((-250 <=? basket) && (basket <=? 250)).

(** The orders logged between [w] and the later world [w']. *)
Definition issued (w w' : World E) : list Order :=
  drop (length (sent w)) (sent w').

(** Successive invocations of [check_and_correct_basket_limit].  Each one
    comes with the clock value it reads and the world it meets; of that
    world only [basket_violation_start_time] is overwritten, by the value the
    previous check left (no other function of the program assigns it).  The
    result lists the orders each check issued. *)
Fixpoint guard_run (timer : option float) (checks : list (float * World E))
  : list (list Order) :=
  match checks with
  | [] => []
  | (now, w) :: rest =>
      let w0 := with_basket_violation_start_time timer w in
      let w' := (check_and_correct_basket_limit now w0).2 in
      issued w0 w' :: guard_run (basket_violation_start_time w') rest
  end.
End GuardRuns.

(** ** Sample worlds on the quiet exchange *)

Definition a_book (bid_price : float) (bid_volume : Z) (ask_price : float)
    (ask_volume : Z) : PriceBook :=
  mkPriceBook [mkPriceVolume bid_price bid_volume]
              [mkPriceVolume ask_price ask_volume].

Definition quiet_world (positions : gmap string Z) (books : gmap string PriceBook)
    (pq : PositionQueues) (timer : option float) : World QuietExchange :=
  mkWorld (mkQuiet positions books) [] pq 0 0 timer initial_underlying_prices.

Definition flat_books : gmap string PriceBook :=
  list_to_map
    [ (ETF_US_ID, a_book 100 50 100.5 50); (ETF_EU_ID, a_book 100 50 100.5 50);
      (NVDA_ID, a_book 100 50 100.5 50); (AMD_ID, a_book 100 50 100.5 50);
      (ASML_ID, a_book 100 50 100.5 50) ].

(** Every instrument long 62: the basket exposure is 310. *)
Definition long_310 : gmap string Z :=
  list_to_map [ (ETF_US_ID, 62); (ETF_EU_ID, 62); (NVDA_ID, 62);
                (AMD_ID, 62); (ASML_ID, 62) ].

(** The world of a check made 3 seconds after the breach was first seen. *)
Definition over_long_world : World QuietExchange :=
  quiet_world long_310 flat_books initial_position_queues (Some 0%float).

(** [math.ceil(a / b)] on integers, for [b > 0]. *)
Definition ceil_div (a b : Z) : Z := - ((- a) / b).

(** Two checks three seconds apart, both meeting an exposure of 310. *)
Definition persistent_breach : list (float * World QuietExchange) :=
  [ (0%float, over_long_world); (3%float, over_long_world) ].

(** Exchange states for the risk limiter: no position, and 10 short on the
    US listing. *)
Definition flat_exchange : QuietExchange := mkQuiet ∅ flat_books.
Definition short_10_exchange : QuietExchange :=
  mkQuiet {[ ETF_US_ID := -10 ]} flat_books.

(** The arbitrage scenario: US bid 100.10 for 50, EU ask 100.00 for 50,
    250 long on US and 250 short on EU, so that 1000 may be sold on US and
    1000 bought on EU. *)
Definition dislocated_books : gmap string PriceBook :=
  list_to_map
    [ (ETF_US_ID, a_book 100.10 50 100.20 50);
      (ETF_EU_ID, a_book 99.90 50 100.00 50) ].

Definition arbitrage_world : World QuietExchange :=
  quiet_world (list_to_map [ (ETF_US_ID, 250); (ETF_EU_ID, -250) ])
              dislocated_books initial_position_queues None.

(** ** Vocabulary for the effects of a computation *)

Section Effects.
Context {E : Type} `{Exchange E}.

(** A computation that always returns and does not assign the breach
    timer. *)
Definition keeps_timer {A : Type} (m : M E A) : Prop :=
  forall w, exists a w',
    m w = (Returned a, w') /\
    basket_violation_start_time w' = basket_violation_start_time w.

(** A computation that leaves an observation of the world as it was,
    whether it returns or raises. *)
Definition preserves {A B : Type} (f : World E -> B) (m : M E A) : Prop :=
  forall w, f (m w).2 = f w.

(** What forward arbitrage does after its two [insert_order] calls. *)
Definition arbitrage_bookkeeping (bid_price_us ask_price_eu : float)
    (trade_volume : Z) : M E unit :=
  (modify (fun w => with_arbitrage_counter (arbitrage_counter w + 1) w) ;;
   record_trade_global ETF_US_ID SIDE_ASK bid_price_us trade_volume ;;
   record_trade_global ETF_EU_ID SIDE_BID ask_price_eu trade_volume)%engine.
End Effects.

(** ** Vocabulary for auto-calibration *)

(** The oldest long lot, if any, does not qualify for an exit at
    [current_bid]. *)
Definition long_settled (current_bid dyn_threshold : float) (lots : list Lot) : Prop :=
  match lots with
  | [] => True
  | (entry_price, _) :: _ => fgt current_bid (entry_price + dyn_threshold)%float = false
  end.

(** The oldest short lot, if any, does not qualify for an exit at
    [current_ask]. *)
Definition short_settled (current_ask dyn_threshold : float) (lots : list Lot) : Prop :=
  match lots with
  | [] => True
  | (entry_price, _) :: _ => flt current_ask (entry_price - dyn_threshold)%float = false
  end.

(** Nothing is left to exit from [queues] at the touches of [pb]. *)
Definition settled (pb : option PriceBook) (dyn_threshold : float) (queues : Queues)
  : Prop :=
  match pb with
  | None => True
  | Some pb =>
      match bids pb with
      | top :: _ => long_settled (price top) dyn_threshold (long queues)
      | [] => True
      end /\
      match asks pb with
      | top :: _ => short_settled (price top) dyn_threshold (short queues)
      | [] => True
      end
  end.

Section OrderLog.
Context {E : Type} `{Exchange E}.

(** The world after the [insert_order] calls [os], oldest first. *)
Definition with_orders (os : list Order) (w : World E) : World E :=
  foldl (fun w o => with_order o w) w os.
End OrderLog.

(** A ledger with exits pending on both listings, and books that lack the
    US listing. *)
Definition pending_ledger : PositionQueues :=
  [ (ETF_US_ID, mkQueues [(90%float, 5)] []);
    (ETF_EU_ID, mkQueues [(90%float, 5); (100%float, 2)] [(120%float, 4)]) ].



Definition pending_world : World QuietExchange :=
  quiet_world ∅ flat_books pending_ledger None.

(** The hedge scenario: the US listing is offered at 80 while the
    constituents are bid at 100, and the engine is already 745 long on the US
    listing. *)
Definition underpriced_books : gmap string PriceBook :=
  list_to_map
    [ (ETF_US_ID, a_book 79.5 60 80 60); (NVDA_ID, a_book 100 50 100.5 50);
      (AMD_ID, a_book 100 50 100.5 50); (ASML_ID, a_book 100 50 100.5 50) ].

Definition nearly_capped_world : World QuietExchange :=
  quiet_world {[ ETF_US_ID := 745 ]} underpriced_books initial_position_queues None.

(** ** [helper.py]: flattening positions *)

(** The remaining order type of optibook used by [helper.py]. *)
Definition ORDER_TYPE_LIMIT : string := "limit".

Section HelperModule.
Context {E : Type} `{Exchange E}.
#[local] Open Scope engine_scope.

(** An uncaught exception: the computation stops, the world stays. *)
Definition raise {A : Type} (err : Exception) : M E A := fun w => (Raised err, w).

(** [e.insert_order(..., order_type=ORDER_TYPE_LIMIT)]. *)
Definition send_limit (instrument : string) (price : float) (volume : Z)
    (side : string) : M E unit :=
  modify (with_order (mkOrder instrument price volume side ORDER_TYPE_LIMIT)).

(** The two [insert_order] branches shared by [clear_excess_stock] and
    [clear_all_stock]: buy back a short position at the best ask, sell a long
    one at the best bid. *)
Definition flatten_position (id : string) (pb : option PriceBook) (position : Z)
  : M E unit :=
  match pb with
  | Some pb =>
      if position <? 0 then
        match asks pb with
        | top :: _ => send_limit id (price top) (Z.abs position) SIDE_BID
        | [] => ret tt
        end
      else
        match bids pb with
        | top :: _ => send_limit id (price top) position SIDE_ASK
        | [] => ret tt
        end
  | None => ret tt
  end.

(** The loop body of [clear_all_stock]; [positions[id]] raises [KeyError]
    when the exchange reports no entry for [id]. *)
Definition clear_all_stock_body (positions : gmap string Z) (id : string) : M E unit :=
  let* pb := gets (fun w => get_last_price_book (exchange w) id) in
  if negb (is_up pb) then ret tt
  else
    match positions !! id with
    | None => raise (KeyError id)
    | Some position =>
        if position =? 0 then ret tt else flatten_position id pb position
    end.

(** [clear_all_stock(e)]. *)
Definition clear_all_stock : M E unit :=
  let* positions := gets (fun w => get_positions (exchange w)) in
  for_each INSTRUMENT_IDS (clear_all_stock_body positions).

(** The loop body of [clear_excess_stock]. *)
Definition clear_excess_stock_body (positions : gmap string Z) (id : string)
  : M E unit :=
  let* pb := gets (fun w => get_last_price_book (exchange w) id) in
  if negb (is_up pb) then ret tt
  else
    match positions !! id with
    | None => raise (KeyError id)
    | Some position =>
        if (position =? 0) || (Z.abs position <? 500) then ret tt
        else flatten_position id pb position
    end.

(** [clear_excess_stock(e)]. *)
Definition clear_excess_stock : M E unit :=
  let* positions := gets (fun w => get_positions (exchange w)) in
  for_each INSTRUMENT_IDS (clear_excess_stock_body positions).
End HelperModule.

(** ** Vocabulary for the statements on orders and on the ledger's shape *)

(** The signed volume of a list of orders: what an immediate fill of all of
    them adds to the summed exposure. *)
Definition signed_total (os : list Order) : Z :=
  foldr (fun o acc => signed_volume (order_side o) (order_volume o) + acc) 0 os.

(** The signed volume of the orders of a list that are on [instrument]. *)
Definition orders_net (instrument : string) (os : list Order) : Z :=
  foldr (fun o acc =>
           if decide (order_instrument o = instrument)
           then signed_volume (order_side o) (order_volume o) + acc else acc)
        0 os.

(** The keys of the ledger, in the dict's order. *)
Definition ledger_keys (pq : PositionQueues) : list string := map fst pq.

(** The ledger holds every instrument the strategies trade. *)
Definition well_keyed (pq : PositionQueues) : Prop :=
  forall instrument, instrument ∈ INSTRUMENT_IDS -> is_Some (pq_get instrument pq).

(** At most one of the two queues of an instrument is non-empty. *)
Definition one_sided (qs : Queues) : Prop := long qs = [] \/ short qs = [].

(** The shape [record_trade] keeps: one-sided queues of positive lots. *)
Definition tidy (qs : Queues) : Prop :=
  one_sided qs /\ lots_positive (long qs) /\ lots_positive (short qs).

Definition ledger_tidy (pq : PositionQueues) : Prop :=
  Forall (fun item : string * Queues => tidy item.2) pq.

(** One immediate-or-cancel order per lot, of the lot's full volume, at one
    price: the orders auto-calibration sends for the lots it closes. *)
Definition exit_orders (instrument : string) (touch : float) (side : string)
    (lots : list Lot) : list Order :=
  map (fun lot : Lot => mkOrder instrument touch lot.2 side ORDER_TYPE_IOC) lots.

Section Bookkeeping.
Context {E : Type} `{Exchange E}.

(** What reverse arbitrage does after its two [insert_order] calls. *)
Definition reverse_arbitrage_bookkeeping (bid_price_eu ask_price_us : float)
    (trade_volume : Z) : M E unit :=
  (modify (fun w => with_reverse_arbitrage_counter (reverse_arbitrage_counter w + 1) w) ;;
   record_trade_global ETF_EU_ID SIDE_ASK bid_price_eu trade_volume ;;
   record_trade_global ETF_US_ID SIDE_BID ask_price_us trade_volume)%engine.

(** The four [record_trade] calls that end a hedge. *)
Definition hedge_bookkeeping (side_etf side_leg : string)
    (p_etf p_asml p_amd p_nvda : float) (unit_volume : Z) : M E unit :=
  (record_trade_global ETF_US_ID side_etf p_etf (unit_volume * 3) ;;
   record_trade_global ASML_ID side_leg p_asml unit_volume ;;
   record_trade_global AMD_ID side_leg p_amd unit_volume ;;
   record_trade_global NVDA_ID side_leg p_nvda unit_volume)%engine.

(** The four orders of a hedge, in the order they are sent. *)
Definition hedge_orders (side_etf side_leg : string)
    (p_etf p_asml p_amd p_nvda : float) (unit_volume : Z) : list Order :=
  [ mkOrder ETF_US_ID p_etf (unit_volume * 3) side_etf ORDER_TYPE_IOC;
    mkOrder ASML_ID p_asml unit_volume side_leg ORDER_TYPE_IOC;
    mkOrder AMD_ID p_amd unit_volume side_leg ORDER_TYPE_IOC;
    mkOrder NVDA_ID p_nvda unit_volume side_leg ORDER_TYPE_IOC ].
End Bookkeeping.

(** The reverse scenario: EU bid 100.10 for 40, US ask 100.00 for 30. *)
Definition reverse_dislocated_books : gmap string PriceBook :=
  list_to_map
    [ (ETF_US_ID, a_book 99.90 50 100.00 30);
      (ETF_EU_ID, a_book 100.10 40 100.20 50) ].

Definition reverse_arbitrage_world : World QuietExchange :=
  quiet_world ∅ reverse_dislocated_books initial_position_queues None.

Section Soundness.
Context {E : Type} `{Exchange E}.

(** The ledger has the keys [keys] and is tidy. *)
Definition sound_ledger (keys : list string) (w : World E) : Prop :=
  ledger_keys (position_queues w) = keys /\ ledger_tidy (position_queues w).

(** From a world that satisfies [P] the computation returns, in a world that
    satisfies [P]. *)
Definition safe {A : Type} (P : World E -> Prop) (m : M E A) : Prop :=
  forall w, P w -> exists a w', m w = (Returned a, w') /\ P w'.
End Soundness.

(** A world whose exchange reports no book at all. *)
Definition bookless_world : World QuietExchange :=
  quiet_world long_310 ∅ pending_ledger None.

(** Last-known prices left over from some earlier tick. *)
Definition stale_prices : UnderlyingPrices := mkUnderlyingPrices 1 2 3 4 5 6.

Section HelperVocabulary.
Context {E : Type} `{Exchange E}.
#[local] Open Scope engine_scope.

(** The common shape of the two loop bodies of [helper.py]: they differ in
    the positions they skip. *)
Definition clear_body_with (skip : Z -> bool) (positions : gmap string Z)
    (id : string) : M E unit :=
  let* pb := gets (fun w => get_last_price_book (exchange w) id) in
  if negb (is_up pb) then ret tt
  else
    match positions !! id with
    | None => raise (KeyError id)
    | Some position =>
        if skip position then ret tt else flatten_position id pb position
    end.
End HelperVocabulary.

(** Positions of every size on the five instruments, with all books up. *)
Definition mixed_positions : gmap string Z :=
  list_to_map [ (ETF_US_ID, 620); (ETF_EU_ID, -510); (NVDA_ID, 30);
                (AMD_ID, 0); (ASML_ID, -499) ].

Definition stocked_world : World QuietExchange :=
  quiet_world mixed_positions flat_books initial_position_queues None.

(** The exchange has no position entry for ASML although its book is up. *)
Definition unlisted_world : World QuietExchange :=
  quiet_world (list_to_map [ (ETF_US_ID, 620); (ETF_EU_ID, -510); (NVDA_ID, 30);
                             (AMD_ID, 0) ])
              flat_books initial_position_queues None.

(** ** Vocabulary for the accounting of a whole cycle *)

Section CycleVocabulary.
Context {E : Type} `{Exchange E}.

(** Between [w] and [w'] the orders [os] were logged, and the ledger's net
    volume of every instrument moved by their signed volume on it. *)
Definition tracks (w w' : World E) (os : list Order) : Prop :=
  sent w' = sent w ++ os /\
  forall instrument,
    ledger_net instrument (position_queues w') =
    ledger_net instrument (position_queues w) + orders_net instrument os.

(** The first four calls of [trade_cycle]: everything before the basket
    check. *)
Definition strategy_pass : M E unit :=
  (hedge_basket_strategy ;;
   arbitrage_strategy THRESHOLD ;;
   reverse_arbitrage_strategy THRESHOLD ;;
   auto_calibrate_positions)%engine.
End CycleVocabulary.

(** * Properties *)

(** ** The ledger *)

Lemma total_volume_app (l1 l2 : list Lot) :
  total_volume (l1 ++ l2) = total_volume l1 + total_volume l2.
Proof.
  induction l1 as [|lot l1 IH]; simpl; [lia|].
  rewrite IH. lia.
Qed.

Lemma pq_get_set_eq instrument qs qs' pq :
  pq_get instrument pq = Some qs ->
  pq_get instrument (pq_set instrument qs' pq) = Some qs'.
Proof.
  induction pq as [|[k q] rest IH]; simpl; [discriminate|].
  destruct (decide (k = instrument)) as [->|Hne]; simpl.
  - intros _. destruct (decide (instrument = instrument)); congruence.
  - intros Hrest. destruct (decide (k = instrument)); [congruence|]. auto.
Qed.

Lemma pq_get_set_ne instrument other qs' pq :
  instrument <> other ->
  pq_get other (pq_set instrument qs' pq) = pq_get other pq.
Proof.
  intros Hne. induction pq as [|[k q] rest IH]; simpl; [reflexivity|].
  destruct (decide (k = instrument)) as [->|Hk]; simpl.
  - destruct (decide (instrument = other)); congruence.
  - destruct (decide (k = other)); auto.
Qed.

Lemma pq_set_same instrument qs pq :
  pq_get instrument pq = Some qs -> pq_set instrument qs pq = pq.
Proof.
  induction pq as [|[k q] rest IH]; simpl; [reflexivity|].
  destruct (decide (k = instrument)) as [->|Hk].
  - intros [= ->]. reflexivity.
  - intros Hrest. rewrite IH; auto.
Qed.

(** The loop conserves volume: what leaves the queue is what leaves the
    trade. *)
Lemma offset_lots_conserves (lots : list Lot) :
  forall volume lots' volume',
    offset_lots lots volume = (lots', volume') ->
    total_volume lots' - volume' = total_volume lots - volume.
Proof.
  induction lots as [|[entry_price entry_vol] rest IH]; intros volume lots' volume'.
  - simpl. destruct (0 <? volume); intros [= <- <-]; reflexivity.
  - simpl. destruct (0 <? volume); [|intros [= <- <-]; reflexivity].
    destruct (entry_vol <=? volume).
    + intros Hrec. apply IH in Hrec. simpl. lia.
    + intros [= <- <-]. simpl. lia.
Qed.

Lemma offset_lots_leftover (lots : list Lot) :
  forall volume lots' volume',
    0 <= volume ->
    offset_lots lots volume = (lots', volume') -> 0 <= volume'.
Proof.
  induction lots as [|[entry_price entry_vol] rest IH]; intros volume lots' volume' Hv.
  - simpl. destruct (0 <? volume); intros [= <- <-]; lia.
  - simpl. destruct (0 <? volume); [|intros [= <- <-]; lia].
    destruct (entry_vol <=? volume) eqn:Hle.
    + apply IH. apply Z.leb_le in Hle. lia.
    + intros [= <- <-]. lia.
Qed.

Lemma ledger_net_set_eq instrument qs qs' pq :
  pq_get instrument pq = Some qs ->
  ledger_net instrument (pq_set instrument qs' pq) = net_lots qs'.
Proof.
  intros Hget. unfold ledger_net. rewrite (pq_get_set_eq _ _ _ _ Hget). reflexivity.
Qed.

Lemma ledger_net_set_ne instrument other qs' pq :
  instrument <> other ->
  ledger_net other (pq_set instrument qs' pq) = ledger_net other pq.
Proof.
  intros Hne. unfold ledger_net. rewrite pq_get_set_ne by assumption. reflexivity.
Qed.

Lemma pq_set_keeps_keys instrument other qs' pq :
  is_Some (pq_get other pq) -> is_Some (pq_get other (pq_set instrument qs' pq)).
Proof.
  intros Hsome. destruct (decide (instrument = other)) as [->|Hne].
  - destruct Hsome as [qs Hqs]. rewrite (pq_get_set_eq _ _ _ _ Hqs). eauto.
  - rewrite pq_get_set_ne by assumption. exact Hsome.
Qed.

(** One recorded trade of positive volume on a known instrument moves the
    ledger's net volume of that instrument by the signed volume and leaves
    the others alone. *)
Lemma record_trade_net instrument side price volume pq :
  0 < volume -> is_Some (pq_get instrument pq) ->
  exists pq',
    record_trade instrument side price volume pq = inr pq' /\
    (forall other, is_Some (pq_get other pq) -> is_Some (pq_get other pq')) /\
    (forall other,
        ledger_net other pq' =
        ledger_net other pq +
        (if decide (instrument = other) then signed_volume side volume else 0)).
Proof.
  intros Hpos [qs Hqs]. unfold record_trade, signed_volume.
  assert (Hlt : (0 <? volume) = true) by (apply Z.ltb_lt; lia).
  assert (Hnoop : forall other : string,
             ledger_net other pq =
             ledger_net other pq + (if decide (instrument = other) then 0 else 0)).
  { intros other. destruct (decide (instrument = other)); lia. }
  destruct (decide (side = SIDE_BID)) as [Hbid|Hnbid];
    [|destruct (decide (side = SIDE_ASK)) as [Hask|Hnask]].
  - rewrite Hlt, Hqs.
    destruct (offset_lots (short qs) volume) as [short' volume'] eqn:Hoff.
    pose proof (offset_lots_conserves _ _ _ _ Hoff) as Hcons.
    pose proof (offset_lots_leftover _ _ _ _ (Z.lt_le_incl _ _ Hpos) Hoff) as Hleft.
    eexists. split; [reflexivity|]. split; [intros; by apply pq_set_keeps_keys|].
    intros other. destruct (decide (instrument = other)) as [<-|Hne].
    + rewrite (ledger_net_set_eq _ _ _ _ Hqs). unfold ledger_net. rewrite Hqs.
      unfold net_lots; simpl. destruct (0 <? volume') eqn:Hv'.
      * rewrite total_volume_app. simpl. lia.
      * apply Z.ltb_ge in Hv'. lia.
    + rewrite ledger_net_set_ne by assumption. lia.
  - rewrite Hlt, Hqs.
    destruct (offset_lots (long qs) volume) as [long' volume'] eqn:Hoff.
    pose proof (offset_lots_conserves _ _ _ _ Hoff) as Hcons.
    pose proof (offset_lots_leftover _ _ _ _ (Z.lt_le_incl _ _ Hpos) Hoff) as Hleft.
    eexists. split; [reflexivity|]. split; [intros; by apply pq_set_keeps_keys|].
    intros other. destruct (decide (instrument = other)) as [<-|Hne].
    + rewrite (ledger_net_set_eq _ _ _ _ Hqs). unfold ledger_net. rewrite Hqs.
      unfold net_lots; simpl. destruct (0 <? volume') eqn:Hv'.
      * rewrite total_volume_app. simpl. lia.
      * apply Z.ltb_ge in Hv'. lia.
    + rewrite ledger_net_set_ne by assumption. lia.
  - exists pq. split; [reflexivity|]. split; [auto|]. exact Hnoop.
Qed.

(** C3. For every sequence of [record_trade] calls with positive volumes on
    instruments of the ledger, the ledger's long volume minus its short volume
    on an instrument ends at its initial value plus the running sum of the
    signed volumes traded on that instrument (buy [+volume], sell
    [-volume]); in particular it equals that sum when the ledger starts
    empty. *)
Theorem ledger_net_tracks_trades (instrument : string) (trades : list Trade)
    (pq : PositionQueues) :
  Forall (fun t => 0 < t_volume t /\ is_Some (pq_get (t_instrument t) pq)) trades ->
  exists pq',
    record_trades trades pq = inr pq' /\
    ledger_net instrument pq' = ledger_net instrument pq + signed_sum instrument trades.
Proof.
  revert pq. induction trades as [|t rest IH]; intros pq Hall.
  - exists pq. simpl. split; [reflexivity|lia].
  - apply Forall_cons in Hall as [[Hpos Hkey] Hrest].
    destruct (record_trade_net (t_instrument t) (t_side t) (t_price t)
                (t_volume t) pq Hpos Hkey) as (pq1 & Hrec & Hkeys & Hnet).
    destruct (IH pq1) as (pq' & Hrun & Hfinal).
    { eapply Forall_impl; [exact Hrest|]. intros t' [Hp Hk]. split; auto. }
    exists pq'. simpl. rewrite Hrec. split; [exact Hrun|].
    rewrite Hfinal, Hnet. destruct (decide (t_instrument t = instrument)); lia.
Qed.

Lemma ledger_net_tracks_trades_witness :
  exists pq',
    record_trades sample_trades initial_position_queues = inr pq' /\
    ledger_net ETF_US_ID pq' =
    ledger_net ETF_US_ID initial_position_queues + signed_sum ETF_US_ID sample_trades.
Proof.
  apply (ledger_net_tracks_trades ETF_US_ID sample_trades initial_position_queues).
  repeat (constructor; [split; [simpl; lia | eexists; reflexivity] |]).
  constructor.
Defined.

Lemma offset_lots_fifo (lots : list Lot) :
  forall volume lots' volume',
    lots_positive lots -> 0 <= volume ->
    offset_lots lots volume = (lots', volume') ->
    fifo_offset lots volume lots' volume' /\ lots_positive lots'.
Proof.
  induction lots as [|[entry_price entry_vol] rest IH];
    intros volume lots' volume' Hpos Hvol Hoff.
  - assert (lots' = [] /\ volume' = volume) as [-> ->].
    { simpl in Hoff. destruct (0 <? volume); by inversion Hoff. }
    split; [|constructor].
    exists [], []. simpl. repeat split; [lia|]. left. repeat split; lia.
  - apply Forall_cons in Hpos as [Hhead Hrest]. simpl in Hhead.
    simpl in Hoff. destruct (0 <? volume) eqn:Hlt.
    + destruct (entry_vol <=? volume) eqn:Hle.
      * apply Z.leb_le in Hle.
        destruct (IH (volume - entry_vol) lots' volume' Hrest ltac:(lia) Hoff)
          as [(closed & rest' & Hsplit & Hsum & Hcase) Hpos'].
        split; [|exact Hpos'].
        exists ((entry_price, entry_vol) :: closed), rest'. simpl.
        split; [by rewrite Hsplit|]. split; [lia|].
        destruct Hcase as [(-> & -> & ->)|(p & v & newer & -> & Hlt' & -> & ->)].
        -- left. repeat split; lia.
        -- right. exists p, v, newer. repeat split; [lia|].
           do 2 f_equal. lia.
      * apply Z.leb_gt in Hle. inversion Hoff; subst lots' volume'.
        split.
        -- exists [], ((entry_price, entry_vol) :: rest). simpl.
           repeat split; [lia|]. right. exists entry_price, entry_vol, rest.
           repeat split; [lia|]. do 2 f_equal. lia.
        -- constructor; [simpl; lia|exact Hrest].
    + apply Z.ltb_ge in Hlt. inversion Hoff; subst lots' volume'.
      assert (volume = 0) as -> by lia.
      split; [|by constructor].
      exists [], ((entry_price, entry_vol) :: rest). simpl.
      repeat split; [lia|]. right. exists entry_price, entry_vol, rest.
      repeat split; [lia|]. do 2 f_equal. lia.
Qed.

Lemma opened_positive price leftover lots :
  lots_positive lots -> lots_positive (opened price leftover lots).
Proof.
  intros Hpos. unfold opened. destruct (0 <? leftover) eqn:Hlt; [|exact Hpos].
  apply Forall_app. split; [exact Hpos|].
  constructor; [|constructor]. simpl. by apply Z.ltb_lt.
Qed.

Lemma pq_set_same_key_order instrument qs' (pq : PositionQueues) :
  map fst (pq_set instrument qs' pq) = map fst pq.
Proof.
  induction pq as [|[k q] rest IH]; simpl; [reflexivity|].
  destruct (decide (k = instrument)); simpl; [reflexivity|]. by rewrite IH.
Qed.

(** C4. On a ledger whose lots all have positive volume, a buy of positive
    volume returns a ledger in which, read back under the traded instrument,
    the short queue has been offset in FIFO order: a prefix of the oldest
    short lots, of total volume at most the buy volume, is removed; the next
    lot, if any, is larger than what remains of the buy volume and stays at
    the head reduced by that remainder, and no newer lot is touched; a
    leftover is only possible once every short lot is removed and is appended
    to the long queue as a new lot at the trade price.  The queues read back
    under every other instrument are those of the ledger before the trade,
    the keys and their order are unchanged, and every lot of the resulting
    queues has positive volume.  A sell does the same against the long
    queue. *)
Theorem record_trade_fifo (instrument : string) (price : float) (volume : Z)
    (pq : PositionQueues) (qs : Queues) :
  pq_get instrument pq = Some qs ->
  lots_positive (long qs) -> lots_positive (short qs) -> 0 < volume ->
  (exists short' leftover pq',
      fifo_offset (short qs) volume short' leftover /\
      record_trade instrument SIDE_BID price volume pq = inr pq' /\
      pq_get instrument pq' =
        Some (mkQueues (opened price leftover (long qs)) short') /\
      (forall other, other <> instrument -> pq_get other pq' = pq_get other pq) /\
      ledger_keys pq' = ledger_keys pq /\
      lots_positive (opened price leftover (long qs)) /\ lots_positive short') /\
  (exists long' leftover pq',
      fifo_offset (long qs) volume long' leftover /\
      record_trade instrument SIDE_ASK price volume pq = inr pq' /\
      pq_get instrument pq' =
        Some (mkQueues long' (opened price leftover (short qs))) /\
      (forall other, other <> instrument -> pq_get other pq' = pq_get other pq) /\
      ledger_keys pq' = ledger_keys pq /\
      lots_positive long' /\ lots_positive (opened price leftover (short qs))).
Proof.
  intros Hqs Hlong Hshort Hvol.
  assert (Hlt : (0 <? volume) = true) by (apply Z.ltb_lt; lia).
  split.
  - destruct (offset_lots (short qs) volume) as [short' leftover] eqn:Hoff.
    destruct (offset_lots_fifo _ _ _ _ Hshort (Z.lt_le_incl _ _ Hvol) Hoff)
      as [Hfifo Hpos'].
    exists short', leftover,
      (pq_set instrument (mkQueues (opened price leftover (long qs)) short') pq).
    split; [exact Hfifo|]. split.
    { unfold record_trade. destruct (decide (SIDE_BID = SIDE_BID)); [|congruence].
      rewrite Hlt, Hqs, Hoff. reflexivity. }
    split; [by apply (pq_get_set_eq instrument qs)|].
    split; [intros other Hne; apply pq_get_set_ne; congruence|].
    split; [apply pq_set_same_key_order|].
    split; [by apply opened_positive|exact Hpos'].
  - destruct (offset_lots (long qs) volume) as [long' leftover] eqn:Hoff.
    destruct (offset_lots_fifo _ _ _ _ Hlong (Z.lt_le_incl _ _ Hvol) Hoff)
      as [Hfifo Hpos'].
    exists long', leftover,
      (pq_set instrument (mkQueues long' (opened price leftover (short qs))) pq).
    split; [exact Hfifo|]. split.
    { unfold record_trade. destruct (decide (SIDE_ASK = SIDE_BID)); [discriminate|].
      destruct (decide (SIDE_ASK = SIDE_ASK)); [|congruence].
      rewrite Hlt, Hqs, Hoff. reflexivity. }
    split; [by apply (pq_get_set_eq instrument qs)|].
    split; [intros other Hne; apply pq_get_set_ne; congruence|].
    split; [apply pq_set_same_key_order|].
    split; [exact Hpos'|by apply opened_positive].
Qed.

(** C10. [record_trade] called with a volume that is not positive, or with a
    side that is neither [SIDE_BID] nor [SIDE_ASK], returns without raising
    and leaves the whole ledger as it was, whatever the instrument. *)
Theorem record_trade_ignores_void_calls (instrument side : string)
    (price : float) (volume : Z) (pq : PositionQueues) :
  volume <= 0 \/ (side <> SIDE_BID /\ side <> SIDE_ASK) ->
  record_trade instrument side price volume pq = inr pq.
Proof.
  intros Hvoid. unfold record_trade.
  destruct (decide (side = SIDE_BID)) as [Hb|Hb];
    [|destruct (decide (side = SIDE_ASK)) as [Ha|Ha]]; [| |reflexivity].
  - destruct Hvoid as [Hv|[Hnb _]]; [|contradiction].
    apply Z.ltb_ge in Hv. by rewrite Hv.
  - destruct Hvoid as [Hv|[_ Hna]]; [|contradiction].
    apply Z.ltb_ge in Hv. by rewrite Hv.
Qed.

Lemma record_trade_fifo_witness :
  (exists short' leftover pq',
      fifo_offset (short sample_queues) 8 short' leftover /\
      record_trade ETF_US_ID SIDE_BID 99 8 sample_ledger = inr pq' /\
      pq_get ETF_US_ID pq' =
        Some (mkQueues (opened 99 leftover (long sample_queues)) short') /\
      (forall other, other <> ETF_US_ID ->
                     pq_get other pq' = pq_get other sample_ledger) /\
      ledger_keys pq' = ledger_keys sample_ledger /\
      lots_positive (opened 99 leftover (long sample_queues)) /\ lots_positive short') /\
  (exists long' leftover pq',
      fifo_offset (long sample_queues) 8 long' leftover /\
      record_trade ETF_US_ID SIDE_ASK 99 8 sample_ledger = inr pq' /\
      pq_get ETF_US_ID pq' =
        Some (mkQueues long' (opened 99 leftover (short sample_queues))) /\
      (forall other, other <> ETF_US_ID ->
                     pq_get other pq' = pq_get other sample_ledger) /\
      ledger_keys pq' = ledger_keys sample_ledger /\
      lots_positive long' /\ lots_positive (opened 99 leftover (short sample_queues))).
Proof.
  apply (record_trade_fifo ETF_US_ID 99 8 sample_ledger sample_queues).
  - reflexivity.
  - constructor.
  - repeat constructor.
  - lia.
Defined.

Lemma record_trade_ignores_void_calls_witness :
  record_trade ETF_US_ID SIDE_BID 99 0 sample_ledger = inr sample_ledger.
Proof.
  apply (record_trade_ignores_void_calls ETF_US_ID SIDE_BID 99 0 sample_ledger).
  left. lia.
Defined.

Example record_trade_partial_offset :
  record_trade ETF_US_ID SIDE_BID 99 8 sample_ledger =
  inr [ (ETF_US_ID, mkQueues [] [(101%float, 4)]);
        (ETF_EU_ID, mkQueues [(99%float, 3)] []) ].
Proof. reflexivity. Qed.


(** ** The basket guard *)

Section GuardProperties.
Context {E : Type} `{Exchange E}.


Lemma keeps_timer_ret {A : Type} (a : A) : keeps_timer (ret a : M E A).
Proof. intros w. by exists a, w. Qed.

Lemma keeps_timer_bind {A B : Type} (m : M E A) (k : A -> M E B) :
  keeps_timer m -> (forall a, keeps_timer (k a)) -> keeps_timer (bind m k).
Proof.
  intros Hm Hk w. destruct (Hm w) as (a & w1 & Hrun & Ht1).
  destruct (Hk a w1) as (b & w2 & Hrun2 & Ht2).
  exists b, w2. unfold bind. rewrite Hrun, Hrun2. split; congruence.
Qed.

Lemma keeps_timer_gets {A : Type} (f : World E -> A) : keeps_timer (gets f).
Proof. intros w. by exists (f w), w. Qed.

Lemma keeps_timer_send instrument price volume side :
  keeps_timer (send instrument price volume side).
Proof. intros w. eexists tt, _. split; reflexivity. Qed.

Lemma keeps_timer_for_each {A : Type} (xs : list A) (body : A -> M E unit) :
  (forall x, keeps_timer (body x)) -> keeps_timer (for_each xs body).
Proof.
  intros Hbody. induction xs as [|x rest IH]; simpl.
  - apply keeps_timer_ret.
  - apply keeps_timer_bind; auto.
Qed.

Lemma keeps_timer_forced_sell pos trade_volume instrument :
  keeps_timer (forced_sell pos trade_volume instrument).
Proof.
  unfold forced_sell. destruct (0 <? pos_get pos instrument).
  - apply keeps_timer_bind; [apply keeps_timer_gets|].
    intros [pb|]; [|apply keeps_timer_ret].
    destruct (bids pb); [apply keeps_timer_ret|apply keeps_timer_send].
  - apply keeps_timer_ret.
Qed.

Lemma keeps_timer_forced_buy pos trade_volume instrument :
  keeps_timer (forced_buy pos trade_volume instrument).
Proof.
  unfold forced_buy. destruct (pos_get pos instrument <? 0).
  - apply keeps_timer_bind; [apply keeps_timer_gets|].
    intros [pb|]; [|apply keeps_timer_ret].
    destruct (asks pb); [apply keeps_timer_ret|apply keeps_timer_send].
  - apply keeps_timer_ret.
Qed.

(** What one check does to the timer, and when it can have sent orders. *)
Lemma check_and_correct_cases (now : float) (w : World E) :
  if breached w then
    match basket_violation_start_time w with
    | None =>
        basket_violation_start_time (check_and_correct_basket_limit now w).2 = Some now /\
        sent (check_and_correct_basket_limit now w).2 = sent w
    | Some t0 =>
        if fgt (now - t0)%float 2.5%float then
          basket_violation_start_time (check_and_correct_basket_limit now w).2 = None
        else
          basket_violation_start_time (check_and_correct_basket_limit now w).2 = Some t0 /\
          sent (check_and_correct_basket_limit now w).2 = sent w
    end
  else
    basket_violation_start_time (check_and_correct_basket_limit now w).2 = None /\
    sent (check_and_correct_basket_limit now w).2 = sent w.
Proof.
  unfold breached, check_and_correct_basket_limit, bind, gets, modify.
  cbv beta iota zeta.
  set (pos := get_positions (exchange w)).
  destruct ((-250 <=? basket_of pos) && (basket_of pos <=? 250)); [by split|].
  cbv beta iota delta [negb].
  destruct (basket_violation_start_time w) as [t0|] eqn:Htimer; [|by split].
  destruct (fgt (now - t0) 2.5); [|by split].
  assert (Hloop : keeps_timer
            (if 300 <? basket_of pos
             then for_each INSTRUMENT_IDS (forced_sell pos ((basket_of pos - 250) / 5 + 1))
             else if basket_of pos <? -300
                  then for_each INSTRUMENT_IDS (forced_buy pos ((-250 - basket_of pos) / 5 + 1))
                  else ret tt)).
  { destruct (300 <? basket_of pos);
      [apply keeps_timer_for_each, keeps_timer_forced_sell|].
    destruct (basket_of pos <? -300);
      [apply keeps_timer_for_each, keeps_timer_forced_buy|apply keeps_timer_ret]. }
  destruct (Hloop w) as ([] & w' & -> & _). reflexivity.
Qed.

Lemma issued_nothing (w w' : World E) : sent w' = sent w -> issued w w' = [].
Proof. intros Heq. unfold issued. rewrite Heq. apply drop_all. Qed.

(** The invariant behind C5: an order issued by the [k]-th check of a run
    traces back either to an earlier check of the run that started the
    timer, or to the timer value the run started with. *)
Lemma guard_run_traces_back (checks : list (float * World E)) :
  forall (timer : option float) (k : nat) (os : list Order),
    guard_run timer checks !! k = Some os -> os <> [] ->
    (exists j first last,
        (j < k)%nat /\ checks !! j = Some first /\ checks !! k = Some last /\
        fgt (last.1 - first.1)%float 2.5%float = true /\
        (forall m c, (j <= m <= k)%nat -> checks !! m = Some c -> breached c.2 = true)) \/
    (exists t0 last,
        timer = Some t0 /\ checks !! k = Some last /\
        fgt (last.1 - t0)%float 2.5%float = true /\
        (forall m c, (m <= k)%nat -> checks !! m = Some c -> breached c.2 = true)).
Proof.
  induction checks as [|[now w] rest IH]; intros timer k os Hk Hos;
    [simpl in Hk; by rewrite lookup_nil in Hk|].
  simpl in Hk.
  set (w0 := with_basket_violation_start_time timer w) in *.
  pose proof (check_and_correct_cases now w0) as Hcase.
  change (breached w0) with (breached w) in Hcase.
  change (basket_violation_start_time w0) with timer in Hcase.
  destruct k as [|k]; simpl in Hk.
  - injection Hk as <-. right.
    destruct (breached w) eqn:Hbr;
      [|destruct Hcase as [_ Hsent]; by rewrite (issued_nothing _ _ Hsent) in Hos].
    destruct timer as [t0|];
      [|destruct Hcase as [_ Hsent]; by rewrite (issued_nothing _ _ Hsent) in Hos].
    destruct (fgt (now - t0) 2.5) eqn:Hgt;
      [|destruct Hcase as [_ Hsent]; by rewrite (issued_nothing _ _ Hsent) in Hos].
    exists t0, (now, w). repeat split; [exact Hgt|].
    intros m c Hm Hc. assert (m = 0%nat) as -> by lia.
    injection Hc as <-. exact Hbr.
  - destruct (IH _ _ _ Hk Hos)
      as [(j & first & last & Hj & Hfirst & Hlast & Hgt & Hall)
         |(t1 & last & Htimer & Hlast & Hgt & Hall)].
    + left. exists (S j), first, last. repeat split; [lia|done|done|done|].
      intros m c Hm Hc. destruct m as [|m]; [lia|]. apply (Hall m); [lia|done].
    + destruct (breached w) eqn:Hbr;
        [|destruct Hcase as [Hnone _]; congruence].
      destruct timer as [t0|].
      * destruct (fgt (now - t0) 2.5) eqn:Helapsed; [congruence|].
        destruct Hcase as [Hkept _].
        assert (t1 = t0) as -> by congruence.
        right. exists t0, last. repeat split; [done|done|].
        intros m c Hm Hc. destruct m as [|m]; [by injection Hc as <-|].
        apply (Hall m); [lia|done].
      * destruct Hcase as [Hset _].
        assert (t1 = now) as -> by congruence.
        left. exists 0%nat, (now, w), last. repeat split; [lia|done|done|].
        intros m c Hm Hc. destruct m as [|m]; [by injection Hc as <-|].
        apply (Hall m); [lia|done].
Qed.

(** A check that cannot fire: it issues nothing and leaves the timer
    cleared, started or running. *)
Lemma guard_run_silent_step timer now (w : World E) rest :
  breached w = false \/ timer = None \/
  (exists t0, timer = Some t0 /\ fgt (now - t0)%float 2.5%float = false) ->
  guard_run timer ((now, w) :: rest) =
  [] :: guard_run (if breached w then Some (default now timer) else None) rest.
Proof.
  intros Hwhy. simpl.
  set (w0 := with_basket_violation_start_time timer w).
  pose proof (check_and_correct_cases now w0) as Hcase.
  change (breached w0) with (breached w) in Hcase.
  change (basket_violation_start_time w0) with timer in Hcase.
  destruct (breached w) eqn:Hbr.
  - destruct Hwhy as [Hno|[->|(t0 & -> & Hslow)]]; [discriminate| |].
    + destruct Hcase as [-> Hsent]. by rewrite (issued_nothing _ _ Hsent).
    + rewrite Hslow in Hcase. destruct Hcase as [-> Hsent].
      by rewrite (issued_nothing _ _ Hsent).
  - destruct Hcase as [-> Hsent]. by rewrite (issued_nothing _ _ Hsent).
Qed.

(** C5. In a run of basket checks that starts with the timer unset, a check
    that issues an order is preceded by a check that found the exposure
    outside [[-250, 250]] and whose clock value it exceeds by more than 2.5,
    and every check from that one on found the exposure outside the band.  A
    check that finds the exposure inside the band clears the timer and issues
    nothing.  A breach seen at 0s and 2.4s, a recovery at 2.5s and a breach
    seen at 3s and 5.4s issue no order at all. *)
Theorem basket_guard_waits_for_persistent_breach :
  (forall (checks : list (float * World E)) (k : nat) (os : list Order),
      guard_run None checks !! k = Some os -> os <> [] ->
      exists j first last,
        (j < k)%nat /\ checks !! j = Some first /\ checks !! k = Some last /\
        fgt (last.1 - first.1)%float 2.5%float = true /\
        (forall m c, (j <= m <= k)%nat -> checks !! m = Some c ->
                     breached c.2 = true)) /\
  (forall (now : float) (w : World E),
      breached w = false ->
      basket_violation_start_time (check_and_correct_basket_limit now w).2 = None /\
      sent (check_and_correct_basket_limit now w).2 = sent w) /\
  (forall wa wb wc wd we : World E,
      breached wa = true -> breached wb = true -> breached wc = false ->
      breached wd = true -> breached we = true ->
      guard_run None [ (0%float, wa); (2.4%float, wb); (2.5%float, wc);
                       (3%float, wd); (5.4%float, we) ] =
      [ []; []; []; []; [] ]).
Proof.
  split; [|split].
  - intros checks k os Hk Hos.
    destruct (guard_run_traces_back checks None k os Hk Hos)
      as [Hfound|(t0 & _ & Hnone & _)]; [exact Hfound|discriminate].
  - intros now w Hin. pose proof (check_and_correct_cases now w) as Hcase.
    by rewrite Hin in Hcase.
  - intros wa wb wc wd we Ha Hb Hc Hd He.
    rewrite guard_run_silent_step, Ha by auto. simpl default.
    rewrite guard_run_silent_step, Hb by (right; right; by eexists).
    simpl default.
    rewrite guard_run_silent_step, Hc by auto.
    rewrite guard_run_silent_step, Hd by auto. simpl default.
    rewrite guard_run_silent_step, He by (right; right; by eexists).
    reflexivity.
Qed.
End GuardProperties.

Lemma basket_guard_waits_for_persistent_breach_witness :
  exists j first last,
    (j < 1)%nat /\ persistent_breach !! j = Some first /\
    persistent_breach !! 1%nat = Some last /\
    fgt (last.1 - first.1)%float 2.5%float = true /\
    (forall m c, (j <= m <= 1)%nat -> persistent_breach !! m = Some c ->
                 breached c.2 = true).
Proof.
  eapply (proj1 (@basket_guard_waits_for_persistent_breach QuietExchange _)
            persistent_breach 1%nat).
  - reflexivity.
  - discriminate.
Defined.

(** ** The risk limiter *)

(** C6, as the source has it: with no position a buy of 750 is allowed, with a
    position of -10 (larger in absolute value) a buy of 760 is allowed, so the
    allowed volume is not non-increasing in the absolute net position. *)
Lemma risk_allowed_not_monotone_in_abs :
  Z.abs (pos_get (get_positions flat_exchange) ETF_US_ID) <=
    Z.abs (pos_get (get_positions short_10_exchange) ETF_US_ID) /\
  risk_allowed flat_exchange ETF_US_ID SIDE_BID = 750 /\
  risk_allowed short_10_exchange ETF_US_ID SIDE_BID = 760.
Proof. vm_compute. repeat split; discriminate. Qed.

Section RiskProperties.
Context {E : Type} `{Exchange E}.

(** C6, amended. [risk_allowed] is never negative.  For a buy it is
    non-increasing in the signed net position and for a sell it is
    non-decreasing in it; hence it is non-increasing in the absolute net
    position among positions on the side the order extends (long for a buy,
    short for a sell). *)
Theorem risk_allowed_monotone (e1 e2 : E) (instrument side : string) :
  0 <= risk_allowed e1 instrument side /\
  (pos_get (get_positions e1) instrument <= pos_get (get_positions e2) instrument ->
   risk_allowed e2 instrument SIDE_BID <= risk_allowed e1 instrument SIDE_BID /\
   risk_allowed e1 instrument SIDE_ASK <= risk_allowed e2 instrument SIDE_ASK) /\
  (Z.abs (pos_get (get_positions e1) instrument) <=
     Z.abs (pos_get (get_positions e2) instrument) ->
   (0 <= pos_get (get_positions e1) instrument ->
    0 <= pos_get (get_positions e2) instrument ->
    risk_allowed e2 instrument SIDE_BID <= risk_allowed e1 instrument SIDE_BID) /\
   (pos_get (get_positions e1) instrument <= 0 ->
    pos_get (get_positions e2) instrument <= 0 ->
    risk_allowed e2 instrument SIDE_ASK <= risk_allowed e1 instrument SIDE_ASK)).
Proof.
  unfold risk_allowed, MAX_POSITION.
  destruct (decide (SIDE_BID = SIDE_BID)); [|congruence].
  destruct (decide (SIDE_ASK = SIDE_BID)); [discriminate|].
  destruct (decide (SIDE_ASK = SIDE_ASK)); [|congruence].
  repeat split; intros; lia.
Qed.
End RiskProperties.

Lemma risk_allowed_monotone_witness :
  0 <= risk_allowed short_10_exchange ETF_US_ID SIDE_ASK /\
  risk_allowed flat_exchange ETF_US_ID SIDE_BID <=
    risk_allowed short_10_exchange ETF_US_ID SIDE_BID /\
  risk_allowed short_10_exchange ETF_US_ID SIDE_ASK <=
    risk_allowed flat_exchange ETF_US_ID SIDE_ASK.
Proof.
  pose proof (risk_allowed_monotone short_10_exchange flat_exchange
                ETF_US_ID SIDE_ASK) as (Hnonneg & Hsigned & _).
  split; [exact Hnonneg|]. apply Hsigned. vm_compute. discriminate.
Defined.

(** ** Cross-listing arbitrage *)

Section ArbitrageProperties.
Context {E : Type} `{Exchange E}.


Lemma preserves_ret {A B : Type} (f : World E -> B) (a : A) :
  preserves f (ret a : M E A).
Proof. by intros w. Qed.

Lemma preserves_bind {A B C : Type} (f : World E -> C) (m : M E A) (k : A -> M E B) :
  preserves f m -> (forall a, preserves f (k a)) -> preserves f (bind m k).
Proof.
  intros Hm Hk w. unfold bind. specialize (Hm w).
  destruct (m w) as [[a|err] w1]; simpl in *; [|exact Hm].
  rewrite Hk. exact Hm.
Qed.

Lemma preserves_modify {B : Type} (f : World E -> B) (g : World E -> World E) :
  (forall w, f (g w) = f w) -> preserves f (modify g).
Proof. intros Hg w. apply Hg. Qed.

Lemma record_trade_global_keeps_sent instrument side price volume :
  preserves (E:=E) sent (record_trade_global instrument side price volume).
Proof.
  intros w. unfold record_trade_global.
  by destruct (record_trade instrument side price volume (position_queues w)).
Qed.

Lemma record_trade_global_ok instrument side price volume (w : World E) pq :
  record_trade instrument side price volume (position_queues w) = inr pq ->
  record_trade_global instrument side price volume w =
  (Returned tt, with_position_queues pq w).
Proof. intros Hrec. unfold record_trade_global. by rewrite Hrec. Qed.


(** Forward arbitrage either does nothing at all, or finds both books up
    with a strict dislocation and a positive sized volume and sends its two
    orders. *)
Lemma arbitrage_strategy_cases (threshold : float) (w : World E) :
  arbitrage_strategy threshold w = (Returned tt, w) \/
  exists us eu us_bid us_bids eu_ask eu_asks,
    get_last_price_book (exchange w) ETF_US_ID = Some us /\
    get_last_price_book (exchange w) ETF_EU_ID = Some eu /\
    is_up (Some us) = true /\ is_up (Some eu) = true /\
    bids us = us_bid :: us_bids /\ asks eu = eu_ask :: eu_asks /\
    fgt (price us_bid) (price eu_ask + threshold)%float = true /\
    0 < Z.min (Z.min (Z.min (volume us_bid) (volume eu_ask))
                     (risk_allowed (exchange w) ETF_US_ID SIDE_ASK))
              (risk_allowed (exchange w) ETF_EU_ID SIDE_BID) /\
    arbitrage_strategy threshold w =
    arbitrage_bookkeeping (price us_bid) (price eu_ask)
      (Z.min (Z.min (Z.min (volume us_bid) (volume eu_ask))
                    (risk_allowed (exchange w) ETF_US_ID SIDE_ASK))
             (risk_allowed (exchange w) ETF_EU_ID SIDE_BID))
      (with_order
         (mkOrder ETF_EU_ID (price eu_ask)
            (Z.min (Z.min (Z.min (volume us_bid) (volume eu_ask))
                          (risk_allowed (exchange w) ETF_US_ID SIDE_ASK))
                   (risk_allowed (exchange w) ETF_EU_ID SIDE_BID))
            SIDE_BID ORDER_TYPE_IOC)
         (with_order
            (mkOrder ETF_US_ID (price us_bid)
               (Z.min (Z.min (Z.min (volume us_bid) (volume eu_ask))
                             (risk_allowed (exchange w) ETF_US_ID SIDE_ASK))
                      (risk_allowed (exchange w) ETF_EU_ID SIDE_BID))
               SIDE_ASK ORDER_TYPE_IOC) w)).
Proof.
  unfold arbitrage_strategy, arbitrage_bookkeeping, send, bind, gets, modify.
  cbv beta iota zeta.
  destruct (get_last_price_book (exchange w) ETF_US_ID) as [us|] eqn:Hus;
    [|left; by destruct (is_up (get_last_price_book (exchange w) ETF_EU_ID))].
  destruct (get_last_price_book (exchange w) ETF_EU_ID) as [eu|] eqn:Heu;
    [|left; by destruct (is_up (Some us))].
  destruct (is_up (Some us)) eqn:Hupus; [|by left].
  destruct (is_up (Some eu)) eqn:Hupeu; [|by left].
  cbv beta iota delta [andb negb].
  destruct (bids us) as [|us_bid us_bids] eqn:Hbids; [by left|].
  destruct (asks eu) as [|eu_ask eu_asks] eqn:Hasks; [by left|].
  destruct (fgt (price us_bid) (price eu_ask + threshold)) eqn:Hgt; [|by left].
  destruct (0 <? Z.min (Z.min (Z.min (volume us_bid) (volume eu_ask))
                              (risk_allowed (exchange w) ETF_US_ID SIDE_ASK))
                       (risk_allowed (exchange w) ETF_EU_ID SIDE_BID)) eqn:Hpos;
    [|by left].
  right. exists us, eu, us_bid, us_bids, eu_ask, eu_asks.
  apply Z.ltb_lt in Hpos. by repeat split.
Qed.

Lemma arbitrage_bookkeeping_keeps_sent bid_price_us ask_price_eu trade_volume :
  preserves (E:=E) sent (arbitrage_bookkeeping bid_price_us ask_price_eu trade_volume).
Proof.
  apply preserves_bind; [by apply preserves_modify|].
  intros _. apply preserves_bind; [apply record_trade_global_keeps_sent|].
  intros _. apply record_trade_global_keeps_sent.
Qed.

(** C7. Forward arbitrage logs orders only when both books are up and the
    US best bid is strictly above the EU best ask plus the threshold; it then
    logs exactly a sell of the US listing at that bid and a buy of the EU
    listing at that ask, both of one positive volume that exceeds neither
    touch volume nor either leg's [risk_allowed] volume.  With a US bid of
    100.10 for 50, an EU ask of 100.00 for 50, threshold 0.05, both books
    up, 1000 allowed on both legs and the initial (empty) ledger, it sells 50
    US at 100.10, buys 50 EU at 100.00, and leaves the short lot
    (100.10, 50) on US and the long lot (100.00, 50) on EU. *)
Theorem arbitrage_fires_on_strict_dislocation :
  (forall (threshold : float) (w : World E),
      sent (arbitrage_strategy threshold w).2 <> sent w ->
      exists us eu us_bid us_bids eu_ask eu_asks trade_volume,
        get_last_price_book (exchange w) ETF_US_ID = Some us /\
        get_last_price_book (exchange w) ETF_EU_ID = Some eu /\
        is_up (Some us) = true /\ is_up (Some eu) = true /\
        bids us = us_bid :: us_bids /\ asks eu = eu_ask :: eu_asks /\
        fgt (price us_bid) (price eu_ask + threshold)%float = true /\
        0 < trade_volume /\
        trade_volume <= volume us_bid /\ trade_volume <= volume eu_ask /\
        trade_volume <= risk_allowed (exchange w) ETF_US_ID SIDE_ASK /\
        trade_volume <= risk_allowed (exchange w) ETF_EU_ID SIDE_BID /\
        sent (arbitrage_strategy threshold w).2 =
          sent w ++
          [ mkOrder ETF_US_ID (price us_bid) trade_volume SIDE_ASK ORDER_TYPE_IOC;
            mkOrder ETF_EU_ID (price eu_ask) trade_volume SIDE_BID ORDER_TYPE_IOC ]) /\
  (forall (w : World E) us eu us_bids eu_asks,
      get_last_price_book (exchange w) ETF_US_ID = Some us ->
      get_last_price_book (exchange w) ETF_EU_ID = Some eu ->
      is_up (Some us) = true -> is_up (Some eu) = true ->
      bids us = mkPriceVolume 100.10 50 :: us_bids ->
      asks eu = mkPriceVolume 100.00 50 :: eu_asks ->
      risk_allowed (exchange w) ETF_US_ID SIDE_ASK = 1000 ->
      risk_allowed (exchange w) ETF_EU_ID SIDE_BID = 1000 ->
      position_queues w = initial_position_queues ->
      exists w',
        arbitrage_strategy 0.05 w = (Returned tt, w') /\
        sent w' =
          sent w ++
          [ mkOrder ETF_US_ID 100.10 50 SIDE_ASK ORDER_TYPE_IOC;
            mkOrder ETF_EU_ID 100.00 50 SIDE_BID ORDER_TYPE_IOC ] /\
        pq_get ETF_US_ID (position_queues w') = Some (mkQueues [] [(100.10%float, 50)]) /\
        pq_get ETF_EU_ID (position_queues w') = Some (mkQueues [(100.00%float, 50)] [])).
Proof.
  split.
  - intros threshold w Hsent.
    destruct (arbitrage_strategy_cases threshold w)
      as [Hidle|(us & eu & us_bid & us_bids & eu_ask & eu_asks & Hus & Heu &
                 Hupus & Hupeu & Hbids & Hasks & Hgt & Hpos & Hrun)];
      [by rewrite Hidle in Hsent|].
    exists us, eu, us_bid, us_bids, eu_ask, eu_asks.
    eexists. repeat split; try eassumption; try lia.
    rewrite Hrun, arbitrage_bookkeeping_keeps_sent. simpl.
    by rewrite <- app_assoc.
  - intros w us eu us_bids eu_asks Hus Heu Hupus Hupeu Hbids Hasks Hsell Hbuy Hpq.
    unfold arbitrage_strategy, bind at 1, gets at 1. cbv beta iota zeta.
    rewrite Hus, Heu, Hupus, Hupeu. cbv beta iota delta [andb negb].
    rewrite Hbids, Hasks, Hsell, Hbuy.
    change (fgt (price (mkPriceVolume 100.10 50))
                (price (mkPriceVolume 100.00 50) + 0.05)) with true.
    cbv beta iota.
    change (0 <? Z.min (Z.min (Z.min (volume (mkPriceVolume 100.10 50))
                                     (volume (mkPriceVolume 100.00 50))) 1000) 1000)
      with true.
    cbv beta iota. unfold send, bind, modify. cbv beta iota.
    eexists. split.
    + erewrite record_trade_global_ok; [|simpl; rewrite Hpq; reflexivity].
      erewrite record_trade_global_ok; [reflexivity|simpl; reflexivity].
    + simpl. repeat split. by rewrite <- app_assoc.
Qed.
End ArbitrageProperties.

Lemma arbitrage_fires_on_strict_dislocation_witness :
  exists w',
    arbitrage_strategy 0.05 arbitrage_world = (Returned tt, w') /\
    sent w' =
      sent arbitrage_world ++
      [ mkOrder ETF_US_ID 100.10 50 SIDE_ASK ORDER_TYPE_IOC;
        mkOrder ETF_EU_ID 100.00 50 SIDE_BID ORDER_TYPE_IOC ] /\
    pq_get ETF_US_ID (position_queues w') = Some (mkQueues [] [(100.10%float, 50)]) /\
    pq_get ETF_EU_ID (position_queues w') = Some (mkQueues [(100.00%float, 50)] []).
Proof.
  eapply (proj2 (@arbitrage_fires_on_strict_dislocation QuietExchange _)
            arbitrage_world); reflexivity.
Defined.

(** ** Auto-calibration *)

Section CalibrationProperties.
Context {E : Type} `{Exchange E}.

Lemma with_orders_app (os1 os2 : list Order) (w : World E) :
  with_orders (os1 ++ os2) w = with_orders os2 (with_orders os1 w).
Proof. unfold with_orders. apply foldl_app. Qed.

Lemma sent_with_orders (os : list Order) (w : World E) :
  sent (with_orders os w) = sent w ++ os.
Proof.
  revert w. induction os as [|o os IH]; intros w; simpl.
  - by rewrite app_nil_r.
  - change (sent (with_orders os (with_order o w)) = sent w ++ o :: os).
    rewrite IH. simpl. by rewrite <- app_assoc.
Qed.

Lemma position_queues_with_orders (os : list Order) (w : World E) :
  position_queues (with_orders os w) = position_queues w.
Proof.
  revert w. induction os as [|o os IH]; intros w; simpl; [done|].
  change (position_queues (with_orders os (with_order o w)) = position_queues w).
  by rewrite IH.
Qed.


(** The long walk returns, logs only sells of its instrument, and stops at
    a settled queue that is a suffix of the one it started from. *)
Lemma exit_long_lots_settles instrument current_bid dyn_threshold (lots : list Lot) :
  forall w : World E,
  exists lots' os,
    exit_long_lots instrument current_bid dyn_threshold lots w =
      (Returned lots', with_orders os w) /\
    long_settled current_bid dyn_threshold lots' /\
    Forall (fun o => order_instrument o = instrument /\ order_side o = SIDE_ASK) os.
Proof.
  induction lots as [|[entry_price lot_volume] rest IH]; intros w.
  - exists [], []. by repeat split.
  - simpl. destruct (fgt current_bid (entry_price + dyn_threshold)) eqn:Hgt.
    + destruct (IH (with_order
                      (mkOrder instrument current_bid lot_volume SIDE_ASK ORDER_TYPE_IOC) w))
        as (lots' & os & Hrun & Hsettled & Hos).
      exists lots', (mkOrder instrument current_bid lot_volume SIDE_ASK ORDER_TYPE_IOC :: os).
      split; [|split; [exact Hsettled|by constructor]].
      unfold bind, send, modify. by rewrite Hrun.
    + exists ((entry_price, lot_volume) :: rest), []. by repeat split.
Qed.

Lemma exit_short_lots_settles instrument current_ask dyn_threshold (lots : list Lot) :
  forall w : World E,
  exists lots' os,
    exit_short_lots instrument current_ask dyn_threshold lots w =
      (Returned lots', with_orders os w) /\
    short_settled current_ask dyn_threshold lots' /\
    Forall (fun o => order_instrument o = instrument /\ order_side o = SIDE_BID) os.
Proof.
  induction lots as [|[entry_price lot_volume] rest IH]; intros w.
  - exists [], []. by repeat split.
  - simpl. destruct (flt current_ask (entry_price - dyn_threshold)) eqn:Hlt.
    + destruct (IH (with_order
                      (mkOrder instrument current_ask lot_volume SIDE_BID ORDER_TYPE_IOC) w))
        as (lots' & os & Hrun & Hsettled & Hos).
      exists lots', (mkOrder instrument current_ask lot_volume SIDE_BID ORDER_TYPE_IOC :: os).
      split; [|split; [exact Hsettled|by constructor]].
      unfold bind, send, modify. by rewrite Hrun.
    + exists ((entry_price, lot_volume) :: rest), []. by repeat split.
Qed.

(** On a settled queue the walks stop at once. *)
Lemma exit_long_lots_idle instrument current_bid dyn_threshold lots (w : World E) :
  long_settled current_bid dyn_threshold lots ->
  exit_long_lots instrument current_bid dyn_threshold lots w = (Returned lots, w).
Proof.
  destruct lots as [|[entry_price lot_volume] rest]; simpl; [done|].
  by intros ->.
Qed.

Lemma exit_short_lots_idle instrument current_ask dyn_threshold lots (w : World E) :
  short_settled current_ask dyn_threshold lots ->
  exit_short_lots instrument current_ask dyn_threshold lots w = (Returned lots, w).
Proof.
  destruct lots as [|[entry_price lot_volume] rest]; simpl; [done|].
  by intros ->.
Qed.

(** One pass of the loop body over an instrument: it returns, logs orders of
    that instrument only, and leaves its queues settled for the book and the
    threshold it read.  Without a book it does nothing; with an empty bid
    side it keeps the long queue and logs no sell; with an empty ask side it
    keeps the short queue and logs no buy. *)
Lemma calibrate_instrument_settles instrument (queues : Queues) (w : World E) :
  exists queues' os,
    calibrate_instrument instrument queues w = (Returned queues', with_orders os w) /\
    settled (get_last_price_book (exchange w) instrument)
            (get_dynamic_grid_threshold (exchange w)) queues' /\
    Forall (fun o => order_instrument o = instrument) os /\
    (get_last_price_book (exchange w) instrument = None -> queues' = queues /\ os = []) /\
    (forall pb, get_last_price_book (exchange w) instrument = Some pb ->
                (bids pb = [] ->
                 long queues' = long queues /\
                 Forall (fun o => order_side o = SIDE_BID) os) /\
                (asks pb = [] ->
                 short queues' = short queues /\
                 Forall (fun o => order_side o = SIDE_ASK) os)).
Proof.
  unfold calibrate_instrument, bind at 1, gets at 1. cbv beta iota.
  destruct (get_last_price_book (exchange w) instrument) as [pb|] eqn:Hpb.
  - unfold bind at 1, gets at 1. cbv beta iota. unfold settled.
    set (dyn := get_dynamic_grid_threshold (exchange w)).
    assert (Hlong : exists long' os1,
               (match bids pb with
                | top :: _ => exit_long_lots instrument (price top) dyn (long queues)
                | [] => ret (long queues)
                end) w = (Returned long', with_orders os1 w) /\
               match bids pb with
               | top :: _ => long_settled (price top) dyn long'
               | [] => True
               end /\
               Forall (fun o => order_instrument o = instrument /\ order_side o = SIDE_ASK) os1 /\
               (bids pb = [] -> long' = long queues /\ os1 = [])).
    { destruct (bids pb) as [|top tops].
      - exists (long queues), []. by repeat split.
      - destruct (exit_long_lots_settles instrument (price top) dyn (long queues) w)
          as (long' & os1 & Hrun & Hset & Hos).
        exists long', os1. by repeat split. }
    destruct Hlong as (long' & os1 & Hrun1 & Hset1 & Hos1 & Hnone1).
    assert (Hshort : exists short' os2,
               (match asks pb with
                | top :: _ => exit_short_lots instrument (price top) dyn (short queues)
                | [] => ret (short queues)
                end) (with_orders os1 w) = (Returned short', with_orders os2 (with_orders os1 w)) /\
               match asks pb with
               | top :: _ => short_settled (price top) dyn short'
               | [] => True
               end /\
               Forall (fun o => order_instrument o = instrument /\ order_side o = SIDE_BID) os2 /\
               (asks pb = [] -> short' = short queues /\ os2 = [])).
    { destruct (asks pb) as [|top tops].
      - exists (short queues), []. by repeat split.
      - destruct (exit_short_lots_settles instrument (price top) dyn (short queues)
                    (with_orders os1 w)) as (short' & os2 & Hrun & Hset & Hos).
        exists short', os2. by repeat split. }
    destruct Hshort as (short' & os2 & Hrun2 & Hset2 & Hos2 & Hnone2).
    exists (mkQueues long' short'), (os1 ++ os2).
    split; [|split; [|split; [|split]]].
    + unfold bind. rewrite Hrun1, Hrun2. by rewrite with_orders_app.
    + by split.
    + apply Forall_app. split; (eapply Forall_impl; [eassumption|]); by intros o [? _].
    + discriminate.
    + intros pb' [= <-]. split.
      * intros Hb. destruct (Hnone1 Hb) as [-> ->]. split; [done|].
        simpl. eapply Forall_impl; [exact Hos2|]. by intros o [_ ?].
      * intros Ha. destruct (Hnone2 Ha) as [-> ->]. split; [done|].
        rewrite app_nil_r. eapply Forall_impl; [exact Hos1|]. by intros o [_ ?].
  - exists queues, []. repeat split; try done.
Qed.

(** A pass over settled queues changes nothing and logs nothing. *)
Lemma calibrate_instrument_idle instrument (queues : Queues) (w : World E) :
  settled (get_last_price_book (exchange w) instrument)
          (get_dynamic_grid_threshold (exchange w)) queues ->
  calibrate_instrument instrument queues w = (Returned queues, w).
Proof.
  unfold calibrate_instrument, bind at 1, gets at 1, settled. cbv beta iota.
  destruct (get_last_price_book (exchange w) instrument) as [pb|]; [|done].
  intros [Hlong Hshort]. unfold bind, gets. cbv beta iota.
  destruct (bids pb) as [|top tops].
  - simpl. destruct (asks pb) as [|top' tops'].
    + simpl. by destruct queues.
    + rewrite (exit_short_lots_idle _ _ _ _ _ Hshort). by destruct queues.
  - rewrite (exit_long_lots_idle _ _ _ _ _ Hlong).
    destruct (asks pb) as [|top' tops'].
    + simpl. by destruct queues.
    + rewrite (exit_short_lots_idle _ _ _ _ _ Hshort). by destruct queues.
Qed.

Lemma get_dynamic_grid_threshold_of_positions (e1 e2 : E) :
  get_positions e1 = get_positions e2 ->
  get_dynamic_grid_threshold e1 = get_dynamic_grid_threshold e2.
Proof. intros Heq. unfold get_dynamic_grid_threshold. by rewrite Heq. Qed.

Lemma calibrate_items_idle (items : PositionQueues) (w : World E) :
  Forall (fun item => settled (get_last_price_book (exchange w) item.1)
                              (get_dynamic_grid_threshold (exchange w)) item.2) items ->
  calibrate_items items w = (Returned items, w).
Proof.
  induction items as [|[instrument queues] rest IH]; intros Hall; [done|].
  apply Forall_cons in Hall as [Hhead Hrest]. simpl in *.
  unfold bind. rewrite (calibrate_instrument_idle _ _ _ Hhead).
  by rewrite (IH Hrest).
Qed.

Section NoMarketMovement.
(** Orders move neither the positions nor the books the exchange reports. *)
Hypothesis positions_stay :
  forall (e : E) (o : Order), get_positions (insert_order e o) = get_positions e.
Hypothesis books_stay :
  forall (e : E) (o : Order) (instrument : string),
    get_last_price_book (insert_order e o) instrument = get_last_price_book e instrument.

Lemma view_with_orders (os : list Order) (w : World E) :
  get_positions (exchange (with_orders os w)) = get_positions (exchange w) /\
  forall instrument,
    get_last_price_book (exchange (with_orders os w)) instrument =
    get_last_price_book (exchange w) instrument.
Proof.
  revert w. induction os as [|o os IH]; intros w; [done|].
  change (with_orders (o :: os) w) with (with_orders os (with_order o w)).
  destruct (IH (with_order o w)) as [Hpos Hbooks]. split.
  - rewrite Hpos. simpl. apply positions_stay.
  - intros instrument. rewrite Hbooks. simpl. apply books_stay.
Qed.

Lemma calibrate_items_settles (items : PositionQueues) :
  forall w : World E,
  exists items' os,
    calibrate_items items w = (Returned items', with_orders os w) /\
    Forall (fun item => settled (get_last_price_book (exchange w) item.1)
                                (get_dynamic_grid_threshold (exchange w)) item.2) items'.
Proof.
  induction items as [|[instrument queues] rest IH]; intros w.
  - exists [], []. by split.
  - destruct (calibrate_instrument_settles instrument queues w)
      as (queues' & os1 & Hrun1 & Hset & _).
    destruct (IH (with_orders os1 w)) as (rest' & os2 & Hrun2 & Hall).
    destruct (view_with_orders os1 w) as [Hpos Hbooks].
    exists ((instrument, queues') :: rest'), (os1 ++ os2). split.
    + simpl. unfold bind. rewrite Hrun1, Hrun2. by rewrite with_orders_app.
    + constructor; [exact Hset|].
      eapply Forall_impl; [exact Hall|]. intros item. simpl.
      by rewrite Hbooks, (get_dynamic_grid_threshold_of_positions _ _ Hpos).
Qed.

Lemma auto_calibrate_settles_whole_ledger (w : World E) :
  exists w1,
    auto_calibrate_positions w = (Returned tt, w1) /\
    forall w2 : World E,
      position_queues w2 = position_queues w1 ->
      get_positions (exchange w2) = get_positions (exchange w) ->
      (forall instrument,
          get_last_price_book (exchange w2) instrument =
          get_last_price_book (exchange w) instrument) ->
      auto_calibrate_positions w2 = (Returned tt, w2).
Proof.
  destruct (calibrate_items_settles (position_queues w) w) as (items' & os & Hrun & Hall).
  exists (with_position_queues items' (with_orders os w)). split.
  - unfold auto_calibrate_positions, bind, gets, modify. by rewrite Hrun.
  - intros w2 Hpq Hpos Hbooks. simpl in Hpq.
    unfold auto_calibrate_positions, bind, gets, modify. rewrite Hpq.
    rewrite calibrate_items_idle.
    + rewrite <- Hpq. by destruct w2.
    + eapply Forall_impl; [exact Hall|]. intros item. simpl.
      by rewrite Hbooks, (get_dynamic_grid_threshold_of_positions _ _ Hpos).
Qed.
End NoMarketMovement.

(** C9. A pass of auto-calibration over one instrument returns, and a second
    pass over the queues it left, made with the same book and the same dynamic
    threshold, returns the same queues in an unchanged world: no order, no lot
    removed.  On an exchange whose reported books and positions are not moved
    by orders, a whole run of [auto_calibrate_positions] returns, and a second
    run from any world holding the ledger it left and reporting the same books
    and positions returns that very world: zero orders, zero lots removed. *)
Theorem auto_calibration_idempotent :
  (forall (instrument : string) (queues : Queues) (w : World E),
      exists queues' w1,
        calibrate_instrument instrument queues w = (Returned queues', w1) /\
        forall w2 : World E,
          get_last_price_book (exchange w2) instrument =
            get_last_price_book (exchange w) instrument ->
          get_dynamic_grid_threshold (exchange w2) =
            get_dynamic_grid_threshold (exchange w) ->
          calibrate_instrument instrument queues' w2 = (Returned queues', w2)) /\
  ((forall (e : E) (o : Order), get_positions (insert_order e o) = get_positions e) ->
   (forall (e : E) (o : Order) (instrument : string),
       get_last_price_book (insert_order e o) instrument =
       get_last_price_book e instrument) ->
   forall w : World E,
     exists w1,
       auto_calibrate_positions w = (Returned tt, w1) /\
       forall w2 : World E,
         position_queues w2 = position_queues w1 ->
         get_positions (exchange w2) = get_positions (exchange w) ->
         (forall instrument,
             get_last_price_book (exchange w2) instrument =
             get_last_price_book (exchange w) instrument) ->
         auto_calibrate_positions w2 = (Returned tt, w2)).
Proof.
  split.
  - intros instrument queues w.
    destruct (calibrate_instrument_settles instrument queues w)
      as (queues' & os & Hrun & Hset & _).
    exists queues', (with_orders os w). split; [exact Hrun|].
    intros w2 Hbook Hdyn. apply calibrate_instrument_idle.
    by rewrite Hbook, Hdyn.
  - intros Hpos Hbooks w. by apply auto_calibrate_settles_whole_ledger.
Qed.
End CalibrationProperties.

Lemma auto_calibration_idempotent_witness :
  exists w1,
    auto_calibrate_positions pending_world = (Returned tt, w1) /\
    forall w2 : World QuietExchange,
      position_queues w2 = position_queues w1 ->
      get_positions (exchange w2) = get_positions (exchange pending_world) ->
      (forall instrument,
          get_last_price_book (exchange w2) instrument =
          get_last_price_book (exchange pending_world) instrument) ->
      auto_calibrate_positions w2 = (Returned tt, w2).
Proof.
  apply (proj2 (@auto_calibration_idempotent QuietExchange _)).
  - intros e o. reflexivity.
  - intros e o instrument. reflexivity.
Defined.

Example auto_calibration_first_pass :
  sent (auto_calibrate_positions pending_world).2 =
    [ mkOrder ETF_US_ID 100 5 SIDE_ASK ORDER_TYPE_IOC;
      mkOrder ETF_EU_ID 100 5 SIDE_ASK ORDER_TYPE_IOC;
      mkOrder ETF_EU_ID 100.5 4 SIDE_BID ORDER_TYPE_IOC ] /\
  position_queues (auto_calibrate_positions pending_world).2 =
    [ (ETF_US_ID, mkQueues [] []);
      (ETF_EU_ID, mkQueues [(100%float, 2)] []) ].
Proof. vm_compute. by split. Qed.

(** ** Missing market data *)


Section MissingDataProperties.
Context {E : Type} `{Exchange E}.

Lemma hedge_touches_needs_all_books (e : E) :
  is_up (get_last_price_book e ETF_US_ID) && is_up (get_last_price_book e ASML_ID) &&
  is_up (get_last_price_book e AMD_ID) && is_up (get_last_price_book e NVDA_ID) = false ->
  hedge_touches e = None.
Proof.
  unfold hedge_touches, is_up.
  destruct (get_last_price_book e ETF_US_ID) as [etf_us|]; [|done].
  destruct (get_last_price_book e ASML_ID) as [asml|];
    [|by destruct (asks etf_us), (bids etf_us)].
  destruct (get_last_price_book e AMD_ID) as [amd|];
    [|by destruct (asks etf_us), (bids etf_us), (asks asml), (bids asml)].
  destruct (get_last_price_book e NVDA_ID) as [nvda|];
    [|by destruct (asks etf_us), (bids etf_us), (asks asml), (bids asml),
                  (asks amd), (bids amd)].
  destruct (bids etf_us); [done|].
  destruct (asks etf_us); [done|].
  destruct (bids asml); [done|].
  destruct (asks asml); [done|].
  destruct (bids amd); [done|].
  destruct (asks amd); [done|].
  destruct (bids nvda); [done|].
  destruct (asks nvda); [done|].
  done.
Qed.

End MissingDataProperties.


(** ** Where the code departs from its own intent *)

(** [excess // 5 + 1] against the ceiling of [excess / 5]: they agree unless
    5 divides [excess], where the code's volume is one more. *)
Lemma floor_plus_one_vs_ceiling (excess : Z) :
  (excess mod 5 <> 0 -> excess / 5 + 1 = ceil_div excess 5) /\
  (excess mod 5 = 0 -> excess / 5 + 1 = ceil_div excess 5 + 1).
Proof.
  unfold ceil_div.
  pose proof (Z.div_mod excess 5 ltac:(lia)) as Hdm.
  pose proof (Z.mod_pos_bound excess 5 ltac:(lia)) as Hbound.
  pose proof (Z.div_mod (- excess) 5 ltac:(lia)) as Hdm'.
  pose proof (Z.mod_pos_bound (- excess) 5 ltac:(lia)) as Hbound'.
  split; intros Hmod; lia.
Qed.

(** C2, at the scenario of the specification.  With every instrument 62 long
    the basket exposure is 310; the check made 3 seconds after the breach was
    first seen sends five sells of volume 13 = 60 // 5 + 1, whereas the ceiling
    of 60 / 5 is 12. *)
Theorem basket_correction_volume_at_310 :
  basket_of (get_positions (exchange over_long_world)) = 310 /\
  sent (check_and_correct_basket_limit 3 over_long_world).2 =
    [ mkOrder ETF_US_ID 100 13 SIDE_ASK ORDER_TYPE_IOC;
      mkOrder ETF_EU_ID 100 13 SIDE_ASK ORDER_TYPE_IOC;
      mkOrder NVDA_ID 100 13 SIDE_ASK ORDER_TYPE_IOC;
      mkOrder AMD_ID 100 13 SIDE_ASK ORDER_TYPE_IOC;
      mkOrder ASML_ID 100 13 SIDE_ASK ORDER_TYPE_IOC ] /\
  ceil_div (310 - 250) 5 = 12.
Proof. vm_compute. by repeat split. Qed.

(** C1, at a position of 745 on the US listing.  [risk_allowed] grants a buy
    of 5; the hedge takes 5 as its unit volume and buys 3 x 5 = 15 of the US
    listing, which an immediate fill would carry to 760, beyond
    [MAX_POSITION]. *)
Theorem hedge_basket_leg_exceeds_cap :
  pos_get (get_positions (exchange nearly_capped_world)) ETF_US_ID = 745 /\
  risk_allowed (exchange nearly_capped_world) ETF_US_ID SIDE_BID = 5 /\
  sent (hedge_basket_strategy nearly_capped_world).2 =
    [ mkOrder ETF_US_ID 80 15 SIDE_BID ORDER_TYPE_IOC;
      mkOrder ASML_ID 100 5 SIDE_ASK ORDER_TYPE_IOC;
      mkOrder AMD_ID 100 5 SIDE_ASK ORDER_TYPE_IOC;
      mkOrder NVDA_ID 100 5 SIDE_ASK ORDER_TYPE_IOC ] /\
  MAX_POSITION < 745 + 15.
Proof. vm_compute. by repeat split. Qed.

(** ** The strategies and the breach timer *)

Section TimerOwnership.
Context {E : Type} `{Exchange E}.

Lemma preserves_gets {A B : Type} (f : World E -> B) (g : World E -> A) :
  preserves f (gets g).
Proof. by intros w. Qed.

Lemma preserves_record_trade_global {B : Type} (f : World E -> B)
    instrument side price volume :
  (forall pq w, f (with_position_queues pq w) = f w) ->
  preserves f (record_trade_global instrument side price volume).
Proof.
  intros Hf w. unfold record_trade_global.
  destruct (record_trade instrument side price volume (position_queues w)); simpl; auto.
Qed.

Lemma preserves_for_each {A B : Type} (f : World E -> B) (xs : list A)
    (body : A -> M E unit) :
  (forall x, preserves f (body x)) -> preserves f (for_each xs body).
Proof.
  intros Hbody. induction xs as [|x rest IH]; simpl.
  - apply preserves_ret.
  - apply preserves_bind; auto.
Qed.

(** One step of a proof that a computation preserves an observation that
    neither [insert_order] nor a ledger update changes. *)
Ltac preserves_step :=
  first
    [ apply preserves_ret
    | apply preserves_gets
    | apply preserves_modify; intros; reflexivity
    | apply preserves_record_trade_global; intros; reflexivity
    | apply preserves_bind; [|intros ?]
    | match goal with
      | |- preserves _ (match ?x with _ => _ end) => destruct x
      end ].

Lemma exit_long_lots_keeps_timer instrument current_bid dyn_threshold lots :
  preserves (E:=E) basket_violation_start_time
    (exit_long_lots instrument current_bid dyn_threshold lots).
Proof.
  induction lots as [|[entry_price lot_volume] rest IH]; simpl.
  - apply preserves_ret.
  - destruct (fgt current_bid (entry_price + dyn_threshold)); [|apply preserves_ret].
    apply preserves_bind; [by apply preserves_modify|]. intros _. exact IH.
Qed.

Lemma exit_short_lots_keeps_timer instrument current_ask dyn_threshold lots :
  preserves (E:=E) basket_violation_start_time
    (exit_short_lots instrument current_ask dyn_threshold lots).
Proof.
  induction lots as [|[entry_price lot_volume] rest IH]; simpl.
  - apply preserves_ret.
  - destruct (flt current_ask (entry_price - dyn_threshold)); [|apply preserves_ret].
    apply preserves_bind; [by apply preserves_modify|]. intros _. exact IH.
Qed.

Lemma calibrate_items_keeps_timer (items : PositionQueues) :
  preserves (E:=E) basket_violation_start_time (calibrate_items items).
Proof.
  induction items as [|[instrument queues] rest IH]; simpl.
  - apply preserves_ret.
  - apply preserves_bind; [|intros queues'; apply preserves_bind;
                            [exact IH|intros; apply preserves_ret]].
    unfold calibrate_instrument.
    repeat first [ apply exit_long_lots_keeps_timer
                 | apply exit_short_lots_keeps_timer
                 | preserves_step ].
Qed.

(** Only the basket check assigns [basket_violation_start_time]: the four
    strategies leave it as it is, whether they return or raise. *)
Lemma strategies_keep_timer :
  preserves (E:=E) basket_violation_start_time hedge_basket_strategy /\
  (forall threshold,
      preserves (E:=E) basket_violation_start_time (arbitrage_strategy threshold)) /\
  (forall threshold,
      preserves (E:=E) basket_violation_start_time (reverse_arbitrage_strategy threshold)) /\
  preserves (E:=E) basket_violation_start_time auto_calibrate_positions.
Proof.
  split; [|split; [|split]].
  - unfold hedge_basket_strategy, update_underlying_prices, send.
    repeat preserves_step.
  - intros threshold. unfold arbitrage_strategy, send. repeat preserves_step.
  - intros threshold. unfold reverse_arbitrage_strategy, send. repeat preserves_step.
  - unfold auto_calibrate_positions.
    apply preserves_bind; [apply preserves_gets|]. intros items.
    apply preserves_bind; [apply calibrate_items_keeps_timer|]. intros items'.
    by apply preserves_modify.
Qed.
End TimerOwnership.

(** ** Risk sizing of the orders *)

Section SizingProperties.
Context {E : Type} `{Exchange E}.

Lemma bind_send {B : Type} instrument price volume side (k : M E B) (w : World E) :
  bind (send instrument price volume side) (fun _ => k) w =
  k (with_order (mkOrder instrument price volume side ORDER_TYPE_IOC) w).
Proof. reflexivity. Qed.

Lemma issued_app (w w' : World E) (os : list Order) :
  sent w' = sent w ++ os -> issued w w' = os.
Proof. intros Hsent. unfold issued. rewrite Hsent. apply drop_app_length. Qed.

(** A sell within the allowance keeps a position that was within the cap
    within the cap; so does a buy. *)
Lemma sell_within_cap (e : E) (instrument : string) (volume : Z) :
  0 < volume -> volume <= risk_allowed e instrument SIDE_ASK ->
  Z.abs (pos_get (get_positions e) instrument) <= MAX_POSITION ->
  Z.abs (pos_get (get_positions e) instrument + signed_volume SIDE_ASK volume)
    <= MAX_POSITION.
Proof.
  unfold risk_allowed, signed_volume, MAX_POSITION.
  destruct (decide (SIDE_ASK = SIDE_BID)); [discriminate|].
  destruct (decide (SIDE_ASK = SIDE_ASK)); [|congruence]. lia.
Qed.

Lemma buy_within_cap (e : E) (instrument : string) (volume : Z) :
  0 < volume -> volume <= risk_allowed e instrument SIDE_BID ->
  Z.abs (pos_get (get_positions e) instrument) <= MAX_POSITION ->
  Z.abs (pos_get (get_positions e) instrument + signed_volume SIDE_BID volume)
    <= MAX_POSITION.
Proof.
  unfold risk_allowed, signed_volume, MAX_POSITION.
  destruct (decide (SIDE_BID = SIDE_BID)); [|congruence]. lia.
Qed.

(** The orders of reverse arbitrage: none, or a sell of the EU listing and a
    buy of the US listing of one positive volume within both allowances. *)
Lemma reverse_arbitrage_orders (threshold : float) (w : World E) :
  issued w (reverse_arbitrage_strategy threshold w).2 = [] \/
  exists bid_price_eu ask_price_us trade_volume,
    0 < trade_volume /\
    trade_volume <= risk_allowed (exchange w) ETF_EU_ID SIDE_ASK /\
    trade_volume <= risk_allowed (exchange w) ETF_US_ID SIDE_BID /\
    issued w (reverse_arbitrage_strategy threshold w).2 =
      [ mkOrder ETF_EU_ID bid_price_eu trade_volume SIDE_ASK ORDER_TYPE_IOC;
        mkOrder ETF_US_ID ask_price_us trade_volume SIDE_BID ORDER_TYPE_IOC ].
Proof.
  assert (Hidle : issued w w = []) by (by apply issued_nothing).
  destruct (reverse_arbitrage_strategy threshold w) as [out w'] eqn:Hrun.
  revert Hrun. unfold reverse_arbitrage_strategy, bind at 1, gets at 1.
  cbv beta iota zeta.
  destruct (negb (is_up (get_last_price_book (exchange w) ETF_US_ID) &&
                  is_up (get_last_price_book (exchange w) ETF_EU_ID)));
    [intros [= <- <-]; by left|].
  destruct (get_last_price_book (exchange w) ETF_US_ID) as [us|];
    [|intros [= <- <-]; by left].
  destruct (get_last_price_book (exchange w) ETF_EU_ID) as [eu|];
    [|intros [= <- <-]; by left].
  destruct (bids eu) as [|eu_bid eu_bids]; [intros [= <- <-]; by left|].
  destruct (asks us) as [|us_ask us_asks]; [intros [= <- <-]; by left|].
  destruct (fgt (price eu_bid) (price us_ask + threshold));
    [|intros [= <- <-]; by left].
  set (trade_volume :=
         Z.min (Z.min (Z.min (volume eu_bid) (volume us_ask))
                      (risk_allowed (exchange w) ETF_EU_ID SIDE_ASK))
               (risk_allowed (exchange w) ETF_US_ID SIDE_BID)).
  destruct (0 <? trade_volume) eqn:Hpos; [|intros [= <- <-]; by left].
  apply Z.ltb_lt in Hpos. intros Hrun. right.
  exists (price eu_bid), (price us_ask), trade_volume.
  split; [exact Hpos|]. split; [unfold trade_volume; lia|].
  split; [unfold trade_volume; lia|].
  apply issued_app. apply (f_equal (fun r => sent r.2)) in Hrun.
  simpl in Hrun. simpl. rewrite <- Hrun. rewrite !bind_send.
  rewrite (preserves_bind sent).
  - simpl. by rewrite <- app_assoc.
  - by apply preserves_modify.
  - intros _. apply preserves_bind; [apply record_trade_global_keeps_sent|].
    intros _. apply record_trade_global_keeps_sent.
Qed.

(** Every order of forward and of reverse arbitrage is sized within the
    allowance of its own leg: if the position of its instrument is within
    [MAX_POSITION] in absolute value, it still is after an immediate fill of
    the order. *)
Theorem arbitrage_legs_within_cap (threshold : float) (w : World E) (o : Order) :
  o ∈ issued w (arbitrage_strategy threshold w).2 \/
  o ∈ issued w (reverse_arbitrage_strategy threshold w).2 ->
  Z.abs (pos_get (get_positions (exchange w)) (order_instrument o)) <= MAX_POSITION ->
  Z.abs (pos_get (get_positions (exchange w)) (order_instrument o) +
         signed_volume (order_side o) (order_volume o)) <= MAX_POSITION.
Proof.
  intros [Hin|Hin] Hcap.
  - destruct (arbitrage_strategy_cases threshold w)
      as [Hidle|(us & eu & us_bid & us_bids & eu_ask & eu_asks & _ & _ & _ & _ &
                 _ & _ & _ & Hpos & Hrun)].
    + rewrite Hidle in Hin. simpl in Hin.
      rewrite issued_nothing in Hin by done. by apply elem_of_nil in Hin.
    + rewrite Hrun in Hin. erewrite issued_app in Hin;
        [|rewrite arbitrage_bookkeeping_keeps_sent; simpl;
          rewrite <- app_assoc; reflexivity].
      apply elem_of_cons in Hin as [->|Hin];
        [|apply elem_of_cons in Hin as [->|Hin]; [|by apply elem_of_nil in Hin]];
        cbn [order_instrument order_side order_volume] in *.
      * apply sell_within_cap; [lia|lia|exact Hcap].
      * apply buy_within_cap; [lia|lia|exact Hcap].
  - destruct (reverse_arbitrage_orders threshold w)
      as [Hidle|(p1 & p2 & trade_volume & Hpos & Hsell & Hbuy & Hrun)].
    + rewrite Hidle in Hin. by apply elem_of_nil in Hin.
    + rewrite Hrun in Hin.
      apply elem_of_cons in Hin as [->|Hin];
        [|apply elem_of_cons in Hin as [->|Hin]; [|by apply elem_of_nil in Hin]];
        cbn [order_instrument order_side order_volume] in *.
      * by apply sell_within_cap.
      * by apply buy_within_cap.
Qed.

(** The orders of the hedge: none, or the basket order of three times a
    positive unit volume followed by the three constituent orders of the unit
    volume on the opposite side; the unit volume is at most 10 and within the
    allowance of each of the four legs. *)
Lemma hedge_basket_orders (w : World E) :
  issued w (hedge_basket_strategy w).2 = [] \/
  exists unit_volume side_etf side_leg p_etf p_asml p_amd p_nvda,
    0 < unit_volume /\ unit_volume <= 10 /\
    unit_volume <= risk_allowed (exchange w) ETF_US_ID side_etf /\
    unit_volume <= risk_allowed (exchange w) ASML_ID side_leg /\
    unit_volume <= risk_allowed (exchange w) AMD_ID side_leg /\
    unit_volume <= risk_allowed (exchange w) NVDA_ID side_leg /\
    ((side_etf = SIDE_BID /\ side_leg = SIDE_ASK) \/
     (side_etf = SIDE_ASK /\ side_leg = SIDE_BID)) /\
    issued w (hedge_basket_strategy w).2 =
      [ mkOrder ETF_US_ID p_etf (unit_volume * 3) side_etf ORDER_TYPE_IOC;
        mkOrder ASML_ID p_asml unit_volume side_leg ORDER_TYPE_IOC;
        mkOrder AMD_ID p_amd unit_volume side_leg ORDER_TYPE_IOC;
        mkOrder NVDA_ID p_nvda unit_volume side_leg ORDER_TYPE_IOC ].
Proof.
  assert (Hidle : forall u, issued w (with_underlying u w) = [])
    by (intros u; by apply issued_nothing).
  assert (Hrecords : forall i1 s1 p1 v1 i2 s2 p2 v2 i3 s3 p3 v3 i4 s4 p4 v4,
             preserves (E:=E) sent
               (record_trade_global i1 s1 p1 v1 ;; record_trade_global i2 s2 p2 v2 ;;
                record_trade_global i3 s3 p3 v3 ;; record_trade_global i4 s4 p4 v4)%engine).
  { intros. repeat (apply preserves_bind; [apply record_trade_global_keeps_sent|intros _]).
    apply record_trade_global_keeps_sent. }
  destruct (hedge_basket_strategy w) as [out w'] eqn:Hrun.
  revert Hrun. unfold hedge_basket_strategy, update_underlying_prices.
  unfold bind at 1, modify at 1. cbv beta iota.
  unfold bind at 1, gets at 1. cbv beta iota.
  cbn [exchange with_underlying].
  destruct (hedge_touches (exchange w))
    as [[[[[etf_bid0 etf_ask0] [asml_bid0 asml_ask0]] [amd_bid0 amd_ask0]]
         [nvda_bid0 nvda_ask0]]|];
    [|unfold ret; intros [= <- <-]; left; apply Hidle].
  unfold bind at 1, gets at 1. cbv beta iota zeta.
  cbn [underlying with_underlying].
  set (u := updated_prices (exchange w) (underlying w)).
  destruct (flt (price etf_ask0)
                ((last_asml_bid u + last_amd_bid u + last_nvda_bid u) / 3 -
                 BASKET_THRESHOLD)).
  - set (unit_volume :=
           Z.min (Z.min (Z.min (Z.min
             (Z.min (Z.min (Z.min (Z.min (volume etf_ask0 / 3) (volume asml_bid0))
                                  (volume amd_bid0)) (volume nvda_bid0)) 10)
             (risk_allowed (exchange w) ETF_US_ID SIDE_BID))
             (risk_allowed (exchange w) ASML_ID SIDE_ASK))
             (risk_allowed (exchange w) AMD_ID SIDE_ASK))
             (risk_allowed (exchange w) NVDA_ID SIDE_ASK)).
    destruct (0 <? unit_volume) eqn:Hpos; [|unfold ret; intros [= <- <-]; left; apply Hidle].
    apply Z.ltb_lt in Hpos. intros Hrun. right.
    exists unit_volume, SIDE_BID, SIDE_ASK, (price etf_ask0), (price asml_bid0),
           (price amd_bid0), (price nvda_bid0).
    repeat (split; [unfold unit_volume; lia|]). split; [by left|].
    apply issued_app. apply (f_equal (fun r => sent r.2)) in Hrun.
    simpl in Hrun. simpl. rewrite <- Hrun. rewrite !bind_send, Hrecords.
    simpl. by rewrite <- !app_assoc.
  - destruct (fgt (price etf_bid0)
                  ((last_asml_ask u + last_amd_ask u + last_nvda_ask u) / 3 +
                   BASKET_THRESHOLD)); [|unfold ret; intros [= <- <-]; left; apply Hidle].
    set (unit_volume :=
           Z.min (Z.min (Z.min (Z.min
             (Z.min (Z.min (Z.min (Z.min (volume etf_bid0 / 3) (volume asml_ask0))
                                  (volume amd_ask0)) (volume nvda_ask0)) 10)
             (risk_allowed (exchange w) ETF_US_ID SIDE_ASK))
             (risk_allowed (exchange w) ASML_ID SIDE_BID))
             (risk_allowed (exchange w) AMD_ID SIDE_BID))
             (risk_allowed (exchange w) NVDA_ID SIDE_BID)).
    destruct (0 <? unit_volume) eqn:Hpos; [|unfold ret; intros [= <- <-]; left; apply Hidle].
    apply Z.ltb_lt in Hpos. intros Hrun. right.
    exists unit_volume, SIDE_ASK, SIDE_BID, (price etf_bid0), (price asml_ask0),
           (price amd_ask0), (price nvda_ask0).
    repeat (split; [unfold unit_volume; lia|]). split; [by right|].
    apply issued_app. apply (f_equal (fun r => sent r.2)) in Hrun.
    simpl in Hrun. simpl. rewrite <- Hrun. rewrite !bind_send, Hrecords.
    simpl. by rewrite <- !app_assoc.
Qed.

(** Every constituent order of the hedge is sized within its own allowance
    and keeps a position within [MAX_POSITION] within it after an immediate
    fill.  The basket order is three times a unit volume that is itself within
    the basket's allowance and at most 10: after an immediate fill the basket
    position is within [MAX_POSITION + 20]. *)
Theorem hedge_legs_sizing (w : World E) (o : Order) :
  o ∈ issued w (hedge_basket_strategy w).2 ->
  Z.abs (pos_get (get_positions (exchange w)) (order_instrument o)) <= MAX_POSITION ->
  (order_instrument o <> ETF_US_ID ->
   Z.abs (pos_get (get_positions (exchange w)) (order_instrument o) +
          signed_volume (order_side o) (order_volume o)) <= MAX_POSITION) /\
  Z.abs (pos_get (get_positions (exchange w)) (order_instrument o) +
         signed_volume (order_side o) (order_volume o)) <= MAX_POSITION + 20.
Proof.
  intros Hin Hcap.
  destruct (hedge_basket_orders w)
    as [Hidle|(unit_volume & side_etf & side_leg & p_etf & p_asml & p_amd & p_nvda &
               Hpos & Hten & Hetf & Hasml & Hamd & Hnvda & Hsides & Hrun)].
  { rewrite Hidle in Hin. by apply elem_of_nil in Hin. }
  rewrite Hrun in Hin.
  assert (Hleg : forall instrument,
             unit_volume <= risk_allowed (exchange w) instrument side_leg ->
             Z.abs (pos_get (get_positions (exchange w)) instrument) <= MAX_POSITION ->
             Z.abs (pos_get (get_positions (exchange w)) instrument +
                    signed_volume side_leg unit_volume) <= MAX_POSITION).
  { intros instrument Hallowed Hwithin.
    destruct Hsides as [[_ ->]|[_ ->]];
      [by apply sell_within_cap|by apply buy_within_cap]. }
  assert (Hbasket :
            Z.abs (pos_get (get_positions (exchange w)) ETF_US_ID) <= MAX_POSITION ->
            Z.abs (pos_get (get_positions (exchange w)) ETF_US_ID +
                   signed_volume side_etf (unit_volume * 3)) <= MAX_POSITION + 20).
  { intros Hwithin.
    destruct Hsides as [[-> _]|[-> _]].
    - pose proof (buy_within_cap (exchange w) ETF_US_ID unit_volume Hpos Hetf Hwithin)
        as Hunit.
      revert Hunit. unfold signed_volume.
      destruct (decide (SIDE_BID = SIDE_BID)); [|congruence]. lia.
    - pose proof (sell_within_cap (exchange w) ETF_US_ID unit_volume Hpos Hetf Hwithin)
        as Hunit.
      revert Hunit. unfold signed_volume.
      destruct (decide (SIDE_ASK = SIDE_BID)); [discriminate|].
      destruct (decide (SIDE_ASK = SIDE_ASK)); [|congruence]. lia. }
  repeat (apply elem_of_cons in Hin as [->|Hin]);
    [| | | |by apply elem_of_nil in Hin];
    cbn [order_instrument order_side order_volume] in *.
  - split; [congruence|by apply Hbasket].
  - split; [intros _; by apply Hleg|]. pose proof (Hleg ASML_ID Hasml Hcap). lia.
  - split; [intros _; by apply Hleg|]. pose proof (Hleg AMD_ID Hamd Hcap). lia.
  - split; [intros _; by apply Hleg|]. pose proof (Hleg NVDA_ID Hnvda Hcap). lia.
Qed.
End SizingProperties.

Lemma arbitrage_legs_within_cap_witness :
  Z.abs (pos_get (get_positions (exchange arbitrage_world)) ETF_US_ID +
         signed_volume SIDE_ASK 50) <= MAX_POSITION.
Proof.
  apply (arbitrage_legs_within_cap 0.05 arbitrage_world
           (mkOrder ETF_US_ID 100.10 50 SIDE_ASK ORDER_TYPE_IOC)).
  - left. apply (list_elem_of_lookup_2 _ 0%nat). reflexivity.
  - vm_compute. discriminate.
Defined.

Lemma hedge_legs_sizing_witness :
  (ASML_ID <> ETF_US_ID ->
   Z.abs (pos_get (get_positions (exchange nearly_capped_world)) ASML_ID +
          signed_volume SIDE_ASK 5) <= MAX_POSITION) /\
  Z.abs (pos_get (get_positions (exchange nearly_capped_world)) ASML_ID +
         signed_volume SIDE_ASK 5) <= MAX_POSITION + 20.
Proof.
  apply (hedge_legs_sizing nearly_capped_world
           (mkOrder ASML_ID 100 5 SIDE_ASK ORDER_TYPE_IOC)).
  - apply (list_elem_of_lookup_2 _ 1%nat). reflexivity.
  - vm_compute. discriminate.
Defined.

(** [0.8 * 300], the level above which the grid threshold is halved, is the
    float 240. *)
Lemma pressure_level_is_240 : PrimFloat.eqb (0.8 * 300)%float 240%float = true.
Proof. reflexivity. Qed.

(** ** The shape of the ledger *)

Lemma pq_get_Forall (Q : Queues -> Prop) instrument qs (pq : PositionQueues) :
  Forall (fun item : string * Queues => Q item.2) pq ->
  pq_get instrument pq = Some qs -> Q qs.
Proof.
  induction pq as [|[k q] rest IH]; simpl; [discriminate|].
  intros Hall. apply Forall_cons in Hall as [Hhead Hrest].
  destruct (decide (k = instrument)); [by intros [= <-]|auto].
Qed.

Lemma pq_set_Forall (Q : Queues -> Prop) instrument qs' (pq : PositionQueues) :
  Forall (fun item : string * Queues => Q item.2) pq -> Q qs' ->
  Forall (fun item : string * Queues => Q item.2) (pq_set instrument qs' pq).
Proof.
  intros Hall Hnew. induction pq as [|[k q] rest IH]; simpl; [constructor|].
  apply Forall_cons in Hall as [Hhead Hrest].
  destruct (decide (k = instrument)); constructor; auto.
Qed.

Lemma ledger_keys_pq_set instrument qs' (pq : PositionQueues) :
  ledger_keys (pq_set instrument qs' pq) = ledger_keys pq.
Proof.
  induction pq as [|[k q] rest IH]; simpl; [reflexivity|].
  destruct (decide (k = instrument)); simpl; [reflexivity|by rewrite IH].
Qed.

Lemma pq_get_is_Some_keys instrument (pq : PositionQueues) :
  is_Some (pq_get instrument pq) <-> instrument ∈ ledger_keys pq.
Proof.
  induction pq as [|[k q] rest IH]; simpl.
  - split; [by intros [? ?]|by intros ?%elem_of_nil].
  - rewrite elem_of_cons. destruct (decide (k = instrument)) as [->|Hne].
    + split; [by left|by eauto].
    + rewrite IH. split; [by right|]. intros [?|?]; [congruence|done].
Qed.

(** A positive leftover means that the loop ran out of lots. *)
Lemma offset_lots_exhausts (lots : list Lot) :
  forall volume lots' volume',
    offset_lots lots volume = (lots', volume') -> 0 < volume' -> lots' = [].
Proof.
  induction lots as [|[entry_price entry_vol] rest IH]; intros volume lots' volume'.
  - simpl. destruct (0 <? volume); by intros [= <- <-].
  - simpl. destruct (0 <? volume) eqn:Hlt.
    + destruct (entry_vol <=? volume); [apply IH|intros [= <- <-]; lia].
    + intros [= <- <-]. apply Z.ltb_ge in Hlt. lia.
Qed.

Lemma offset_lots_nil volume : offset_lots [] volume = ([], volume).
Proof. simpl. by destruct (0 <? volume). Qed.

(** Whatever its arguments, a call of [record_trade] that returns keeps the
    keys of the ledger and keeps it tidy. *)
Lemma record_trade_keeps_shape instrument side price volume pq pq' :
  record_trade instrument side price volume pq = inr pq' ->
  ledger_keys pq' = ledger_keys pq /\ (ledger_tidy pq -> ledger_tidy pq').
Proof.
  assert (Hside : forall qs lots' volume' (flip : bool),
             tidy qs ->
             offset_lots (if flip then long qs else short qs) volume = (lots', volume') ->
             0 < volume ->
             tidy (if flip
                   then mkQueues lots' (if 0 <? volume'
                                        then short qs ++ [(price, volume')] else short qs)
                   else mkQueues (if 0 <? volume'
                                  then long qs ++ [(price, volume')] else long qs) lots')).
  { intros qs lots' volume' flip (Hone & Hlong & Hshort) Hoff Hvol.
    assert (Hopp : lots_positive (if flip then long qs else short qs))
      by (by destruct flip).
    destruct (offset_lots_fifo _ _ _ _ Hopp (Z.lt_le_incl _ _ Hvol) Hoff) as [_ Hpos'].
    pose proof (offset_lots_exhausts _ _ _ _ Hoff) as Hexh.
    destruct (0 <? volume') eqn:Hleft.
    - apply Z.ltb_lt in Hleft. rewrite (Hexh Hleft) in *.
      destruct flip; (split; [|split]); simpl;
        try (by left); try (by right); try done;
        (apply Forall_app; split; [done|by repeat constructor]).
    - apply Z.ltb_ge in Hleft.
      assert (Hnonempty : (if flip then long qs else short qs) <> []).
      { intros Hnil. rewrite Hnil, offset_lots_nil in Hoff.
        injection Hoff as <- <-. lia. }
      destruct flip; (split; [|split]); simpl; try done.
      + right. by destruct Hone.
      + left. by destruct Hone. }
  unfold record_trade.
  destruct (decide (side = SIDE_BID));
    [|destruct (decide (side = SIDE_ASK)); [|by intros [= <-]]].
  - destruct (0 <? volume) eqn:Hvol; [|by intros [= <-]].
    apply Z.ltb_lt in Hvol.
    destruct (pq_get instrument pq) as [qs|] eqn:Hqs; [|discriminate].
    destruct (offset_lots (short qs) volume) as [short' volume'] eqn:Hoff.
    intros [= <-]. split; [apply ledger_keys_pq_set|].
    intros Htidy. apply pq_set_Forall; [exact Htidy|].
    apply (Hside qs short' volume' false); [|exact Hoff|exact Hvol].
    by apply (pq_get_Forall tidy instrument qs pq).
  - destruct (0 <? volume) eqn:Hvol; [|by intros [= <-]].
    apply Z.ltb_lt in Hvol.
    destruct (pq_get instrument pq) as [qs|] eqn:Hqs; [|discriminate].
    destruct (offset_lots (long qs) volume) as [long' volume'] eqn:Hoff.
    intros [= <-]. split; [apply ledger_keys_pq_set|].
    intros Htidy. apply pq_set_Forall; [exact Htidy|].
    apply (Hside qs long' volume' true); [|exact Hoff|exact Hvol].
    by apply (pq_get_Forall tidy instrument qs pq).
Qed.

(** A tidy pair of queues is determined, up to prices, by its net volume. *)
Lemma tidy_shape (qs : Queues) :
  tidy qs ->
  (net_lots qs = 0 -> qs = mkQueues [] []) /\
  (0 < net_lots qs -> short qs = [] /\ total_volume (long qs) = net_lots qs) /\
  (net_lots qs < 0 -> long qs = [] /\ total_volume (short qs) = - net_lots qs).
Proof.
  assert (Hpos : forall lots, lots_positive lots -> lots <> [] -> 0 < total_volume lots).
  { intros lots Hall Hne. destruct lots as [|[p v] rest]; [done|].
    apply Forall_cons in Hall as [Hv Hrest]. simpl in *.
    assert (0 <= total_volume rest); [|lia].
    clear -Hrest. induction rest as [|[p' v'] rest IH]; simpl; [lia|].
    apply Forall_cons in Hrest as [Hv' Hrest]. simpl in Hv'.
    specialize (IH Hrest). lia. }
  destruct qs as [lo sh]. unfold tidy, one_sided, net_lots. simpl.
  intros ([->| ->] & Hlong & Hshort); simpl.
  - destruct sh as [|lot sh']; [repeat split; intros; try lia; done|].
    pose proof (Hpos _ Hshort ltac:(done)). repeat split; intros; lia.
  - destruct lo as [|lot lo']; [repeat split; intros; try lia; done|].
    pose proof (Hpos _ Hlong ltac:(done)). repeat split; intros; lia.
Qed.

(** After any sequence of trades of positive volume on instruments of a tidy
    ledger, the ledger is tidy again and the queues of every instrument are
    fixed by its net volume [n] (its initial net volume plus the signed sum of
    its trades): no lot at all when [n = 0], only long lots of total [n] when
    [n > 0], only short lots of total [-n] when [n < 0]. *)
Theorem ledger_shape_follows_net (trades : list Trade) (pq : PositionQueues) :
  ledger_tidy pq ->
  Forall (fun t => 0 < t_volume t /\ is_Some (pq_get (t_instrument t) pq)) trades ->
  exists pq',
    record_trades trades pq = inr pq' /\ ledger_tidy pq' /\
    forall instrument qs,
      pq_get instrument pq' = Some qs ->
      (ledger_net instrument pq + signed_sum instrument trades = 0 ->
       qs = mkQueues [] []) /\
      (0 < ledger_net instrument pq + signed_sum instrument trades ->
       short qs = [] /\
       total_volume (long qs) = ledger_net instrument pq + signed_sum instrument trades) /\
      (ledger_net instrument pq + signed_sum instrument trades < 0 ->
       long qs = [] /\
       total_volume (short qs) = - (ledger_net instrument pq + signed_sum instrument trades)).
Proof.
  intros Htidy Hall.
  assert (Hrun : exists pq',
             record_trades trades pq = inr pq' /\ ledger_tidy pq' /\
             forall instrument,
               ledger_net instrument pq' =
               ledger_net instrument pq + signed_sum instrument trades).
  { revert pq Htidy Hall. induction trades as [|t rest IH]; intros pq Htidy Hall.
    - exists pq. simpl. repeat split; [done|]. intros; lia.
    - apply Forall_cons in Hall as [[Hpos Hkey] Hrest].
      destruct (record_trade_net (t_instrument t) (t_side t) (t_price t)
                  (t_volume t) pq Hpos Hkey) as (pq1 & Hrec & Hkeys & Hnet).
      destruct (record_trade_keeps_shape _ _ _ _ _ _ Hrec) as [_ Htidy1].
      destruct (IH pq1 (Htidy1 Htidy)) as (pq' & Hrun & Htidy' & Hfinal).
      { eapply Forall_impl; [exact Hrest|]. intros t' [Hp Hk]. split; auto. }
      exists pq'. simpl. rewrite Hrec. repeat split; [done|done|].
      intros instrument. rewrite Hfinal, Hnet.
      destruct (decide (t_instrument t = instrument)); lia. }
  destruct Hrun as (pq' & Hrun & Htidy' & Hnet).
  exists pq'. split; [done|]. split; [done|].
  intros instrument qs Hqs.
  pose proof (tidy_shape qs (pq_get_Forall tidy _ _ _ Htidy' Hqs)) as Hshape.
  specialize (Hnet instrument). unfold ledger_net at 1 in Hnet. rewrite Hqs in Hnet.
  rewrite <- Hnet. exact Hshape.
Qed.

Lemma ledger_shape_follows_net_witness :
  exists pq',
    record_trades sample_trades initial_position_queues = inr pq' /\ ledger_tidy pq' /\
    forall instrument qs,
      pq_get instrument pq' = Some qs ->
      (ledger_net instrument initial_position_queues +
         signed_sum instrument sample_trades = 0 ->
       qs = mkQueues [] []) /\
      (0 < ledger_net instrument initial_position_queues +
             signed_sum instrument sample_trades ->
       short qs = [] /\
       total_volume (long qs) =
         ledger_net instrument initial_position_queues +
           signed_sum instrument sample_trades) /\
      (ledger_net instrument initial_position_queues +
         signed_sum instrument sample_trades < 0 ->
       long qs = [] /\
       total_volume (short qs) =
         - (ledger_net instrument initial_position_queues +
              signed_sum instrument sample_trades)).
Proof.
  apply (ledger_shape_follows_net sample_trades initial_position_queues).
  - repeat (constructor; [split; [by left|split; constructor]|]). constructor.
  - repeat (constructor; [split; [simpl; lia | eexists; reflexivity] |]).
    constructor.
Defined.

(** ** What auto-calibration closes *)

Section ExitProperties.
Context {E : Type} `{Exchange E}.

Lemma exit_long_lots_closes_prefix instrument current_bid dyn_threshold (lots : list Lot) :
  forall w : World E,
  exists sold lots',
    lots = sold ++ lots' /\
    exit_long_lots instrument current_bid dyn_threshold lots w =
      (Returned lots', with_orders (exit_orders instrument current_bid SIDE_ASK sold) w) /\
    Forall (fun lot : Lot => fgt current_bid (lot.1 + dyn_threshold)%float = true) sold /\
    long_settled current_bid dyn_threshold lots'.
Proof.
  induction lots as [|[entry_price lot_volume] rest IH]; intros w.
  - exists [], []. by repeat split.
  - simpl. destruct (fgt current_bid (entry_price + dyn_threshold)) eqn:Hgt.
    + destruct (IH (with_order
                      (mkOrder instrument current_bid lot_volume SIDE_ASK ORDER_TYPE_IOC) w))
        as (sold & lots' & Hsplit & Hrun & Hsold & Hsettled).
      exists ((entry_price, lot_volume) :: sold), lots'.
      split; [by rewrite Hsplit|]. split; [|split; [by constructor|exact Hsettled]].
      unfold bind, send, modify. by rewrite Hrun.
    + exists [], ((entry_price, lot_volume) :: rest). by repeat split.
Qed.

Lemma exit_short_lots_closes_prefix instrument current_ask dyn_threshold (lots : list Lot) :
  forall w : World E,
  exists sold lots',
    lots = sold ++ lots' /\
    exit_short_lots instrument current_ask dyn_threshold lots w =
      (Returned lots', with_orders (exit_orders instrument current_ask SIDE_BID sold) w) /\
    Forall (fun lot : Lot => flt current_ask (lot.1 - dyn_threshold)%float = true) sold /\
    short_settled current_ask dyn_threshold lots'.
Proof.
  induction lots as [|[entry_price lot_volume] rest IH]; intros w.
  - exists [], []. by repeat split.
  - simpl. destruct (flt current_ask (entry_price - dyn_threshold)) eqn:Hlt.
    + destruct (IH (with_order
                      (mkOrder instrument current_ask lot_volume SIDE_BID ORDER_TYPE_IOC) w))
        as (sold & lots' & Hsplit & Hrun & Hsold & Hsettled).
      exists ((entry_price, lot_volume) :: sold), lots'.
      split; [by rewrite Hsplit|]. split; [|split; [by constructor|exact Hsettled]].
      unfold bind, send, modify. by rewrite Hrun.
    + exists [], ((entry_price, lot_volume) :: rest). by repeat split.
Qed.

End ExitProperties.


(** ** Reverse arbitrage and the hedge, case by case *)

Section CaseLemmas.
Context {E : Type} `{Exchange E}.

Lemma reverse_arbitrage_strategy_cases (threshold : float) (w : World E) :
  reverse_arbitrage_strategy threshold w = (Returned tt, w) \/
  exists us eu eu_bid eu_bids us_ask us_asks,
    get_last_price_book (exchange w) ETF_US_ID = Some us /\
    get_last_price_book (exchange w) ETF_EU_ID = Some eu /\
    is_up (Some us) = true /\ is_up (Some eu) = true /\
    bids eu = eu_bid :: eu_bids /\ asks us = us_ask :: us_asks /\
    fgt (price eu_bid) (price us_ask + threshold)%float = true /\
    0 < Z.min (Z.min (Z.min (volume eu_bid) (volume us_ask))
                     (risk_allowed (exchange w) ETF_EU_ID SIDE_ASK))
              (risk_allowed (exchange w) ETF_US_ID SIDE_BID) /\
    reverse_arbitrage_strategy threshold w =
    reverse_arbitrage_bookkeeping (price eu_bid) (price us_ask)
      (Z.min (Z.min (Z.min (volume eu_bid) (volume us_ask))
                    (risk_allowed (exchange w) ETF_EU_ID SIDE_ASK))
             (risk_allowed (exchange w) ETF_US_ID SIDE_BID))
      (with_orders
         [ mkOrder ETF_EU_ID (price eu_bid)
             (Z.min (Z.min (Z.min (volume eu_bid) (volume us_ask))
                           (risk_allowed (exchange w) ETF_EU_ID SIDE_ASK))
                    (risk_allowed (exchange w) ETF_US_ID SIDE_BID))
             SIDE_ASK ORDER_TYPE_IOC;
           mkOrder ETF_US_ID (price us_ask)
             (Z.min (Z.min (Z.min (volume eu_bid) (volume us_ask))
                           (risk_allowed (exchange w) ETF_EU_ID SIDE_ASK))
                    (risk_allowed (exchange w) ETF_US_ID SIDE_BID))
             SIDE_BID ORDER_TYPE_IOC ] w).
Proof.
  unfold reverse_arbitrage_strategy, reverse_arbitrage_bookkeeping, with_orders,
    send, bind, gets, modify.
  cbv beta iota zeta.
  destruct (get_last_price_book (exchange w) ETF_US_ID) as [us|] eqn:Hus;
    [|left; by destruct (is_up (get_last_price_book (exchange w) ETF_EU_ID))].
  destruct (get_last_price_book (exchange w) ETF_EU_ID) as [eu|] eqn:Heu;
    [|left; by destruct (is_up (Some us))].
  destruct (is_up (Some us)) eqn:Hupus; [|by left].
  destruct (is_up (Some eu)) eqn:Hupeu; [|by left].
  cbv beta iota delta [andb negb].
  destruct (bids eu) as [|eu_bid eu_bids] eqn:Hbids; [by left|].
  destruct (asks us) as [|us_ask us_asks] eqn:Hasks; [by left|].
  destruct (fgt (price eu_bid) (price us_ask + threshold)) eqn:Hgt; [|by left].
  destruct (0 <? Z.min (Z.min (Z.min (volume eu_bid) (volume us_ask))
                              (risk_allowed (exchange w) ETF_EU_ID SIDE_ASK))
                       (risk_allowed (exchange w) ETF_US_ID SIDE_BID)) eqn:Hpos;
    [|by left].
  right. exists us, eu, eu_bid, eu_bids, us_ask, us_asks.
  apply Z.ltb_lt in Hpos. by repeat split.
Qed.

(** When every book of the hedge has both sides, the refreshed last-known
    prices are the current touches, whatever was stored before. *)
Lemma updated_prices_of_touches (e : E) (u : UnderlyingPrices)
    etf_bid0 etf_ask0 asml_bid0 asml_ask0 amd_bid0 amd_ask0 nvda_bid0 nvda_ask0 :
  hedge_touches e =
    Some (etf_bid0, etf_ask0, (asml_bid0, asml_ask0), (amd_bid0, amd_ask0),
          (nvda_bid0, nvda_ask0)) ->
  updated_prices e u =
    mkUnderlyingPrices (price asml_bid0) (price amd_bid0) (price nvda_bid0)
                       (price asml_ask0) (price amd_ask0) (price nvda_ask0).
Proof.
  unfold hedge_touches, updated_prices, refreshed.
  destruct (get_last_price_book e ETF_US_ID) as [etf_us|]; [|done].
  destruct (get_last_price_book e ASML_ID) as [asml|]; [|done].
  destruct (get_last_price_book e AMD_ID) as [amd|]; [|done].
  destruct (get_last_price_book e NVDA_ID) as [nvda|]; [|done].
  destruct (bids etf_us); [done|]. destruct (asks etf_us); [done|].
  destruct (bids asml); [done|]. destruct (asks asml); [done|].
  destruct (bids amd); [done|]. destruct (asks amd); [done|].
  destruct (bids nvda); [done|]. destruct (asks nvda); [done|].
  by intros [= <- <- <- <- <- <- <- <-].
Qed.

(** The hedge either only refreshes the last-known prices, or sends its four
    orders, sized by a positive unit volume of at most 10 within the allowance
    of every leg, and records the four trades. *)
Lemma hedge_basket_strategy_cases (w : World E) :
  hedge_basket_strategy w =
    (Returned tt, with_underlying (updated_prices (exchange w) (underlying w)) w) \/
  exists unit_volume side_etf side_leg p_etf p_asml p_amd p_nvda,
    0 < unit_volume /\ unit_volume <= 10 /\
    unit_volume <= risk_allowed (exchange w) ETF_US_ID side_etf /\
    unit_volume <= risk_allowed (exchange w) ASML_ID side_leg /\
    unit_volume <= risk_allowed (exchange w) AMD_ID side_leg /\
    unit_volume <= risk_allowed (exchange w) NVDA_ID side_leg /\
    ((side_etf = SIDE_BID /\ side_leg = SIDE_ASK) \/
     (side_etf = SIDE_ASK /\ side_leg = SIDE_BID)) /\
    hedge_basket_strategy w =
    hedge_bookkeeping side_etf side_leg p_etf p_asml p_amd p_nvda unit_volume
      (with_orders
         (hedge_orders side_etf side_leg p_etf p_asml p_amd p_nvda unit_volume)
         (with_underlying (updated_prices (exchange w) (underlying w)) w)).
Proof.
  destruct (hedge_basket_strategy w) as [out w'] eqn:Hrun. revert Hrun.
  unfold hedge_basket_strategy, update_underlying_prices.
  unfold bind at 1, modify at 1. cbv beta iota.
  unfold bind at 1, gets at 1. cbv beta iota.
  cbn [exchange with_underlying].
  destruct (hedge_touches (exchange w))
    as [[[[[etf_bid0 etf_ask0] [asml_bid0 asml_ask0]] [amd_bid0 amd_ask0]]
         [nvda_bid0 nvda_ask0]]|]; [|intros <-; by left].
  unfold bind at 1, gets at 1. cbv beta iota zeta.
  cbn [underlying with_underlying].
  set (u := updated_prices (exchange w) (underlying w)).
  destruct (flt (price etf_ask0)
                ((last_asml_bid u + last_amd_bid u + last_nvda_bid u) / 3 -
                 BASKET_THRESHOLD)).
  - set (unit_volume :=
           Z.min (Z.min (Z.min (Z.min
             (Z.min (Z.min (Z.min (Z.min (volume etf_ask0 / 3) (volume asml_bid0))
                                  (volume amd_bid0)) (volume nvda_bid0)) 10)
             (risk_allowed (exchange w) ETF_US_ID SIDE_BID))
             (risk_allowed (exchange w) ASML_ID SIDE_ASK))
             (risk_allowed (exchange w) AMD_ID SIDE_ASK))
             (risk_allowed (exchange w) NVDA_ID SIDE_ASK)).
    destruct (0 <? unit_volume) eqn:Hpos; [|intros <-; by left].
    apply Z.ltb_lt in Hpos. intros <-. right.
    exists unit_volume, SIDE_BID, SIDE_ASK, (price etf_ask0), (price asml_bid0),
           (price amd_bid0), (price nvda_bid0).
    repeat (split; [unfold unit_volume; lia|]). split; [by left|].
    by rewrite !bind_send.
  - destruct (fgt (price etf_bid0)
                  ((last_asml_ask u + last_amd_ask u + last_nvda_ask u) / 3 +
                   BASKET_THRESHOLD)); [|intros <-; by left].
    set (unit_volume :=
           Z.min (Z.min (Z.min (Z.min
             (Z.min (Z.min (Z.min (Z.min (volume etf_bid0 / 3) (volume asml_ask0))
                                  (volume amd_ask0)) (volume nvda_ask0)) 10)
             (risk_allowed (exchange w) ETF_US_ID SIDE_ASK))
             (risk_allowed (exchange w) ASML_ID SIDE_BID))
             (risk_allowed (exchange w) AMD_ID SIDE_BID))
             (risk_allowed (exchange w) NVDA_ID SIDE_BID)).
    destruct (0 <? unit_volume) eqn:Hpos; [|intros <-; by left].
    apply Z.ltb_lt in Hpos. intros <-. right.
    exists unit_volume, SIDE_ASK, SIDE_BID, (price etf_bid0), (price asml_ask0),
           (price amd_ask0), (price nvda_ask0).
    repeat (split; [unfold unit_volume; lia|]). split; [by right|].
    by rewrite !bind_send.
Qed.
End CaseLemmas.

(** ** Orders, exposure and the ledger *)

Section OrderAccounting.
Context {E : Type} `{Exchange E}.

Lemma reverse_arbitrage_bookkeeping_keeps_sent bid_price_eu ask_price_us trade_volume :
  preserves (E:=E) sent
    (reverse_arbitrage_bookkeeping bid_price_eu ask_price_us trade_volume).
Proof.
  apply preserves_bind; [by apply preserves_modify|].
  intros _. apply preserves_bind; [apply record_trade_global_keeps_sent|].
  intros _. apply record_trade_global_keeps_sent.
Qed.

Lemma hedge_bookkeeping_keeps_sent side_etf side_leg p_etf p_asml p_amd p_nvda unit_volume :
  preserves (E:=E) sent
    (hedge_bookkeeping side_etf side_leg p_etf p_asml p_amd p_nvda unit_volume).
Proof.
  repeat (apply preserves_bind; [apply record_trade_global_keeps_sent|intros _]).
  apply record_trade_global_keeps_sent.
Qed.

(** The orders a strategy issued, read off its case lemma. *)
Lemma issued_after_orders (m : M E unit) (os : list Order) (w w0 : World E) :
  preserves sent m -> sent w0 = sent w ->
  issued w (m (with_orders os w0)).2 = os.
Proof.
  intros Hm Hsent. apply issued_app. by rewrite Hm, sent_with_orders, Hsent.
Qed.

Lemma arbitrage_issued (threshold : float) (w : World E) :
  arbitrage_strategy threshold w = (Returned tt, w) \/
  exists bid_price_us ask_price_eu trade_volume,
    0 < trade_volume /\
    arbitrage_strategy threshold w =
      arbitrage_bookkeeping bid_price_us ask_price_eu trade_volume
        (with_orders
           [ mkOrder ETF_US_ID bid_price_us trade_volume SIDE_ASK ORDER_TYPE_IOC;
             mkOrder ETF_EU_ID ask_price_eu trade_volume SIDE_BID ORDER_TYPE_IOC ] w) /\
    issued w (arbitrage_strategy threshold w).2 =
      [ mkOrder ETF_US_ID bid_price_us trade_volume SIDE_ASK ORDER_TYPE_IOC;
        mkOrder ETF_EU_ID ask_price_eu trade_volume SIDE_BID ORDER_TYPE_IOC ].
Proof.
  destruct (arbitrage_strategy_cases threshold w)
    as [Hidle|(us & eu & us_bid & us_bids & eu_ask & eu_asks & _ & _ & _ & _ &
               _ & _ & _ & Hpos & Hrun)].
  - by left.
  - right. eexists _, _, _. split; [exact Hpos|]. split; [exact Hrun|].
    rewrite Hrun.
    apply (issued_after_orders _ [_; _] w w);
      [apply arbitrage_bookkeeping_keeps_sent|done].
Qed.

Lemma reverse_arbitrage_issued (threshold : float) (w : World E) :
  reverse_arbitrage_strategy threshold w = (Returned tt, w) \/
  exists bid_price_eu ask_price_us trade_volume,
    0 < trade_volume /\
    reverse_arbitrage_strategy threshold w =
      reverse_arbitrage_bookkeeping bid_price_eu ask_price_us trade_volume
        (with_orders
           [ mkOrder ETF_EU_ID bid_price_eu trade_volume SIDE_ASK ORDER_TYPE_IOC;
             mkOrder ETF_US_ID ask_price_us trade_volume SIDE_BID ORDER_TYPE_IOC ] w) /\
    issued w (reverse_arbitrage_strategy threshold w).2 =
      [ mkOrder ETF_EU_ID bid_price_eu trade_volume SIDE_ASK ORDER_TYPE_IOC;
        mkOrder ETF_US_ID ask_price_us trade_volume SIDE_BID ORDER_TYPE_IOC ].
Proof.
  destruct (reverse_arbitrage_strategy_cases threshold w)
    as [Hidle|(us & eu & eu_bid & eu_bids & us_ask & us_asks & _ & _ & _ & _ &
               _ & _ & _ & Hpos & Hrun)].
  - by left.
  - right. eexists _, _, _. split; [exact Hpos|]. split; [exact Hrun|].
    rewrite Hrun.
    apply (issued_after_orders _ [_; _] w w);
      [apply reverse_arbitrage_bookkeeping_keeps_sent|done].
Qed.

Lemma hedge_issued (w : World E) :
  (issued w (hedge_basket_strategy w).2 = [] /\
   position_queues (hedge_basket_strategy w).2 = position_queues w) \/
  exists unit_volume side_etf side_leg p_etf p_asml p_amd p_nvda,
    0 < unit_volume /\
    ((side_etf = SIDE_BID /\ side_leg = SIDE_ASK) \/
     (side_etf = SIDE_ASK /\ side_leg = SIDE_BID)) /\
    hedge_basket_strategy w =
      hedge_bookkeeping side_etf side_leg p_etf p_asml p_amd p_nvda unit_volume
        (with_orders
           (hedge_orders side_etf side_leg p_etf p_asml p_amd p_nvda unit_volume)
           (with_underlying (updated_prices (exchange w) (underlying w)) w)) /\
    issued w (hedge_basket_strategy w).2 =
      hedge_orders side_etf side_leg p_etf p_asml p_amd p_nvda unit_volume.
Proof.
  destruct (hedge_basket_strategy_cases w)
    as [Hidle|(unit_volume & side_etf & side_leg & p_etf & p_asml & p_amd & p_nvda &
               Hpos & _ & _ & _ & _ & _ & Hsides & Hrun)].
  - left. rewrite Hidle. split; [by apply issued_nothing|done].
  - right. exists unit_volume, side_etf, side_leg, p_etf, p_asml, p_amd, p_nvda.
    split; [exact Hpos|]. split; [exact Hsides|]. split; [exact Hrun|].
    rewrite Hrun. apply issued_after_orders;
      [apply hedge_bookkeeping_keeps_sent|done].
Qed.

(** Forward arbitrage, reverse arbitrage and the hedge are exposure-neutral:
    the signed volumes of the orders one invocation issues sum to zero, so an
    immediate fill of all of them leaves the summed exposure of the five
    instruments where it was. *)
Theorem paired_strategies_are_exposure_neutral (threshold : float) (w : World E) :
  signed_total (issued w (arbitrage_strategy threshold w).2) = 0 /\
  signed_total (issued w (reverse_arbitrage_strategy threshold w).2) = 0 /\
  signed_total (issued w (hedge_basket_strategy w).2) = 0.
Proof.
  assert (Hask : forall v, signed_volume SIDE_ASK v = - v).
  { intros v. unfold signed_volume.
    destruct (decide (SIDE_ASK = SIDE_BID)); [discriminate|].
    destruct (decide (SIDE_ASK = SIDE_ASK)); [done|congruence]. }
  assert (Hbid : forall v, signed_volume SIDE_BID v = v).
  { intros v. unfold signed_volume.
    destruct (decide (SIDE_BID = SIDE_BID)); [done|congruence]. }
  split; [|split].
  - destruct (arbitrage_issued threshold w) as [->|(p1 & p2 & v & _ & _ & ->)];
      [simpl; by rewrite issued_nothing|]. simpl. rewrite Hask, Hbid. lia.
  - destruct (reverse_arbitrage_issued threshold w) as [->|(p1 & p2 & v & _ & _ & ->)];
      [simpl; by rewrite issued_nothing|]. simpl. rewrite Hask, Hbid. lia.
  - destruct (hedge_issued w)
      as [[-> _]|(u & s1 & s2 & p0 & p1 & p2 & p3 & _ & Hsides & _ & ->)]; [done|].
    simpl. destruct Hsides as [[-> ->]|[-> ->]]; rewrite !Hask, !Hbid; lia.
Qed.
End OrderAccounting.

Section LedgerTracking.
Context {E : Type} `{Exchange E}.

Lemma orders_net_cons instrument (o : Order) (os : list Order) :
  orders_net instrument (o :: os) =
  (if decide (order_instrument o = instrument)
   then signed_volume (order_side o) (order_volume o) else 0) +
  orders_net instrument os.
Proof. simpl. destruct (decide (order_instrument o = instrument)); lia. Qed.

Lemma orders_net_app instrument (os1 os2 : list Order) :
  orders_net instrument (os1 ++ os2) =
  orders_net instrument os1 + orders_net instrument os2.
Proof.
  induction os1 as [|o os1 IH]; [done|].
  rewrite <- app_comm_cons, !orders_net_cons, IH. lia.
Qed.

Lemma orders_net_elsewhere instrument (os : list Order) :
  Forall (fun o => order_instrument o <> instrument) os -> orders_net instrument os = 0.
Proof.
  induction os as [|o os IH]; intros Hall; [done|].
  apply Forall_cons in Hall as [Hne Hrest]. rewrite orders_net_cons, (IH Hrest).
  by destruct (decide (order_instrument o = instrument)).
Qed.

Lemma orders_net_here instrument (os : list Order) :
  Forall (fun o => order_instrument o = instrument) os ->
  orders_net instrument os = signed_total os.
Proof.
  induction os as [|o os IH]; intros Hall; [done|].
  apply Forall_cons in Hall as [Heq Hrest]. rewrite orders_net_cons, (IH Hrest).
  simpl. by destruct (decide (order_instrument o = instrument)).
Qed.

Lemma signed_total_app (os1 os2 : list Order) :
  signed_total (os1 ++ os2) = signed_total os1 + signed_total os2.
Proof. induction os1 as [|o os1 IH]; simpl; [done|]. rewrite IH. lia. Qed.

(** One recorded trade of positive volume on a known instrument, as a step
    of the engine: it returns, keeps the known instruments known, and moves
    the ledger's net volumes as the matching order moves the positions. *)
Lemma record_trade_global_tracks instrument side price volume (w : World E) :
  0 < volume -> is_Some (pq_get instrument (position_queues w)) ->
  exists pq',
    record_trade_global instrument side price volume w =
      (Returned tt, with_position_queues pq' w) /\
    (forall other, is_Some (pq_get other (position_queues w)) ->
                   is_Some (pq_get other pq')) /\
    (forall other,
        ledger_net other pq' =
        ledger_net other (position_queues w) +
        orders_net other [mkOrder instrument price volume side ORDER_TYPE_IOC]).
Proof.
  intros Hpos Hkey.
  destruct (record_trade_net instrument side price volume (position_queues w) Hpos Hkey)
    as (pq' & Hrec & Hkeys & Hnet).
  exists pq'. split; [by apply record_trade_global_ok|]. split; [exact Hkeys|].
  intros other. rewrite Hnet, orders_net_cons. simpl.
  destruct (decide (instrument = other)); simpl; lia.
Qed.

Lemma sold_long_total instrument touch (sold : list Lot) :
  signed_total (exit_orders instrument touch SIDE_ASK sold) = - total_volume sold.
Proof.
  induction sold as [|[p v] sold IH]; simpl; [done|]. rewrite IH.
  unfold signed_volume. simpl.
  destruct (decide (SIDE_ASK = SIDE_BID)); [discriminate|].
  destruct (decide (SIDE_ASK = SIDE_ASK)); [lia|congruence].
Qed.

Lemma sold_short_total instrument touch (sold : list Lot) :
  signed_total (exit_orders instrument touch SIDE_BID sold) = total_volume sold.
Proof.
  induction sold as [|[p v] sold IH]; simpl; [done|]. rewrite IH.
  unfold signed_volume. simpl.
  destruct (decide (SIDE_BID = SIDE_BID)); [lia|congruence].
Qed.

Lemma exit_orders_instrument instrument touch side (sold : list Lot) :
  Forall (fun o => order_instrument o = instrument)
         (exit_orders instrument touch side sold).
Proof. induction sold as [|lot sold IH]; by constructor. Qed.

Lemma suffix_keeps_tidy (sold_long sold_short long' short' : list Lot) :
  tidy (mkQueues (sold_long ++ long') (sold_short ++ short')) ->
  tidy (mkQueues long' short').
Proof.
  intros (Hone & Hlong & Hshort). simpl in *.
  apply Forall_app in Hlong as [_ Hlong]. apply Forall_app in Hshort as [_ Hshort].
  split; [|by split]. destruct Hone as [Hnil|Hnil]; simpl in Hnil;
    apply app_eq_nil in Hnil as [_ ->]; [by left|by right].
Qed.

(** One pass of auto-calibration over an instrument, as accounting: the net
    volume of its queues moves by the signed volume of the orders it sent,
    all of which are on that instrument, and tidy queues stay tidy. *)
Lemma calibrate_instrument_conserves instrument (queues : Queues) (w : World E) :
  exists queues' os,
    calibrate_instrument instrument queues w = (Returned queues', with_orders os w) /\
    Forall (fun o => order_instrument o = instrument) os /\
    net_lots queues' = net_lots queues + signed_total os /\
    (tidy queues -> tidy queues').
Proof.
  unfold calibrate_instrument, bind at 1, gets at 1. cbv beta iota.
  destruct (get_last_price_book (exchange w) instrument) as [pb|];
    [|exists queues, []; split; [done|]; split; [constructor|];
      split; [simpl; lia|done]].
  unfold bind at 1, gets at 1. cbv beta iota.
  set (dyn := get_dynamic_grid_threshold (exchange w)).
  assert (Hlong : exists sold long' os1,
             (match bids pb with
              | top :: _ => exit_long_lots instrument (price top) dyn (long queues)
              | [] => ret (long queues)
              end) w = (Returned long', with_orders os1 w) /\
             long queues = sold ++ long' /\
             Forall (fun o => order_instrument o = instrument) os1 /\
             signed_total os1 = - total_volume sold).
  { destruct (bids pb) as [|top tops].
    - exists [], (long queues), []. split; [done|]. split; [done|].
      split; [constructor|done].
    - destruct (exit_long_lots_closes_prefix instrument (price top) dyn (long queues) w)
        as (sold & lots' & Hsplit & Hrun & _).
      exists sold, lots', (exit_orders instrument (price top) SIDE_ASK sold).
      split; [done|]. split; [done|].
      split; [apply exit_orders_instrument|apply sold_long_total]. }
  destruct Hlong as (sold_long & long' & os1 & Hrun1 & Hsplit1 & Hon1 & Htotal1).
  assert (Hshort : exists sold short' os2,
             (match asks pb with
              | top :: _ => exit_short_lots instrument (price top) dyn (short queues)
              | [] => ret (short queues)
              end) (with_orders os1 w) =
               (Returned short', with_orders os2 (with_orders os1 w)) /\
             short queues = sold ++ short' /\
             Forall (fun o => order_instrument o = instrument) os2 /\
             signed_total os2 = total_volume sold).
  { destruct (asks pb) as [|top tops].
    - exists [], (short queues), []. split; [done|]. split; [done|].
      split; [constructor|done].
    - destruct (exit_short_lots_closes_prefix instrument (price top) dyn (short queues)
                  (with_orders os1 w)) as (sold & lots' & Hsplit & Hrun & _).
      exists sold, lots', (exit_orders instrument (price top) SIDE_BID sold).
      split; [done|]. split; [done|].
      split; [apply exit_orders_instrument|apply sold_short_total]. }
  destruct Hshort as (sold_short & short' & os2 & Hrun2 & Hsplit2 & Hon2 & Htotal2).
  exists (mkQueues long' short'), (os1 ++ os2).
  split; [|split; [|split]].
  - unfold bind. rewrite Hrun1, Hrun2. by rewrite with_orders_app.
  - by apply Forall_app.
  - rewrite signed_total_app, Htotal1, Htotal2. unfold net_lots. simpl.
    rewrite Hsplit1, Hsplit2, !total_volume_app. lia.
  - destruct queues as [lo sh]. simpl in *. subst lo sh. apply suffix_keeps_tidy.
Qed.

(** The whole loop of auto-calibration, as accounting. *)
Lemma calibrate_items_conserves (items : PositionQueues) :
  forall w : World E,
  exists items' os,
    calibrate_items items w = (Returned items', with_orders os w) /\
    ledger_keys items' = ledger_keys items /\
    Forall (fun o => order_instrument o ∈ ledger_keys items) os /\
    (ledger_tidy items -> ledger_tidy items') /\
    (NoDup (ledger_keys items) ->
     forall instrument,
       ledger_net instrument items' =
       ledger_net instrument items + orders_net instrument os).
Proof.
  induction items as [|[k queues] rest IH]; intros w.
  - exists [], []. split; [done|]. split; [done|]. split; [constructor|].
    split; [done|]. intros _ instrument. simpl. lia.
  - destruct (calibrate_instrument_conserves k queues w)
      as (queues' & os1 & Hrun1 & Hon1 & Hnet1 & Htidy1).
    destruct (IH (with_orders os1 w)) as (rest' & os2 & Hrun2 & Hkeys & Hin2 & Htidy2 & Hnet2).
    exists ((k, queues') :: rest'), (os1 ++ os2).
    split; [|split; [|split; [|split]]].
    + simpl. unfold bind. rewrite Hrun1, Hrun2. by rewrite with_orders_app.
    + simpl. by rewrite Hkeys.
    + apply Forall_app. split.
      * eapply Forall_impl; [exact Hon1|]. intros o ->. simpl. apply elem_of_cons. by left.
      * eapply Forall_impl; [exact Hin2|]. intros o Ho. simpl. apply elem_of_cons. by right.
    + intros Hall. apply Forall_cons in Hall as [Hhead Hrest].
      constructor; [by apply Htidy1|by apply Htidy2].
    + intros Hdup instrument. simpl in Hdup. apply NoDup_cons in Hdup as [Hfresh Hdup].
      rewrite orders_net_app. unfold ledger_net. simpl.
      destruct (decide (k = instrument)) as [->|Hne].
      * rewrite (orders_net_here _ _ Hon1), (orders_net_elsewhere _ os2); [lia|].
        eapply Forall_impl; [exact Hin2|]. intros o Ho Heq. simpl in Ho.
        rewrite Heq in Ho. exact (Hfresh Ho).
      * rewrite (orders_net_elsewhere _ os1);
          [|eapply Forall_impl; [exact Hon1|]; by intros o ->].
        specialize (Hnet2 Hdup instrument). unfold ledger_net in Hnet2. lia.
Qed.

Lemma tracks_issued (w w' : World E) (os : list Order) :
  tracks w w' os -> issued w w' = os.
Proof. intros [Hsent _]. by apply issued_app. Qed.

Lemma tracks_trans (w w1 w2 : World E) (os1 os2 : list Order) :
  tracks w w1 os1 -> tracks w1 w2 os2 -> tracks w w2 (os1 ++ os2).
Proof.
  intros [Hsent1 Hnet1] [Hsent2 Hnet2]. split.
  - by rewrite Hsent2, Hsent1, app_assoc.
  - intros instrument. rewrite Hnet2, Hnet1, orders_net_app. lia.
Qed.

Lemma arbitrage_tracks (threshold : float) (w : World E) :
  well_keyed (position_queues w) ->
  exists os, tracks w (arbitrage_strategy threshold w).2 os.
Proof.
  intros Hkeyed.
  assert (Hus : is_Some (pq_get ETF_US_ID (position_queues w)))
    by (apply Hkeyed; repeat constructor).
  assert (Heu : is_Some (pq_get ETF_EU_ID (position_queues w)))
    by (apply Hkeyed; repeat constructor).
  destruct (arbitrage_issued threshold w) as [->|(p1 & p2 & v & Hpos & Hrun & _)].
  - exists []. split; [simpl; by rewrite app_nil_r|]. intros instrument. simpl. lia.
  - exists [ mkOrder ETF_US_ID p1 v SIDE_ASK ORDER_TYPE_IOC;
             mkOrder ETF_EU_ID p2 v SIDE_BID ORDER_TYPE_IOC ].
    rewrite Hrun. split.
    + by rewrite arbitrage_bookkeeping_keeps_sent, sent_with_orders.
    + intros instrument. unfold arbitrage_bookkeeping, bind, modify.
      destruct (record_trade_global_tracks ETF_US_ID SIDE_ASK p1 v
                  (with_arbitrage_counter
                     (arbitrage_counter
                        (with_orders
                           [ mkOrder ETF_US_ID p1 v SIDE_ASK ORDER_TYPE_IOC;
                             mkOrder ETF_EU_ID p2 v SIDE_BID ORDER_TYPE_IOC ] w) + 1)
                     (with_orders
                        [ mkOrder ETF_US_ID p1 v SIDE_ASK ORDER_TYPE_IOC;
                          mkOrder ETF_EU_ID p2 v SIDE_BID ORDER_TYPE_IOC ] w))
                  Hpos Hus) as (pq1 & -> & Hkeys1 & Hnet1).
      destruct (record_trade_global_tracks ETF_EU_ID SIDE_BID p2 v
                  (with_position_queues pq1
                     (with_arbitrage_counter
                        (arbitrage_counter
                           (with_orders
                              [ mkOrder ETF_US_ID p1 v SIDE_ASK ORDER_TYPE_IOC;
                                mkOrder ETF_EU_ID p2 v SIDE_BID ORDER_TYPE_IOC ] w) + 1)
                        (with_orders
                           [ mkOrder ETF_US_ID p1 v SIDE_ASK ORDER_TYPE_IOC;
                             mkOrder ETF_EU_ID p2 v SIDE_BID ORDER_TYPE_IOC ] w)))
                  Hpos (Hkeys1 _ Heu)) as (pq2 & -> & _ & Hnet2).
      cbn [snd position_queues with_position_queues].
      rewrite Hnet2. cbn [position_queues with_position_queues]. rewrite Hnet1.
      cbn [position_queues with_arbitrage_counter with_orders foldl with_order].
      rewrite !orders_net_cons. simpl. lia.
Qed.

Lemma reverse_arbitrage_tracks (threshold : float) (w : World E) :
  well_keyed (position_queues w) ->
  exists os, tracks w (reverse_arbitrage_strategy threshold w).2 os.
Proof.
  intros Hkeyed.
  assert (Hus : is_Some (pq_get ETF_US_ID (position_queues w)))
    by (apply Hkeyed; repeat constructor).
  assert (Heu : is_Some (pq_get ETF_EU_ID (position_queues w)))
    by (apply Hkeyed; repeat constructor).
  destruct (reverse_arbitrage_issued threshold w)
    as [->|(p1 & p2 & v & Hpos & Hrun & _)].
  - exists []. split; [simpl; by rewrite app_nil_r|]. intros instrument. simpl. lia.
  - exists [ mkOrder ETF_EU_ID p1 v SIDE_ASK ORDER_TYPE_IOC;
             mkOrder ETF_US_ID p2 v SIDE_BID ORDER_TYPE_IOC ].
    rewrite Hrun. split.
    + by rewrite reverse_arbitrage_bookkeeping_keeps_sent, sent_with_orders.
    + intros instrument. unfold reverse_arbitrage_bookkeeping, bind, modify.
      destruct (record_trade_global_tracks ETF_EU_ID SIDE_ASK p1 v
                  (with_reverse_arbitrage_counter
                     (reverse_arbitrage_counter
                        (with_orders
                           [ mkOrder ETF_EU_ID p1 v SIDE_ASK ORDER_TYPE_IOC;
                             mkOrder ETF_US_ID p2 v SIDE_BID ORDER_TYPE_IOC ] w) + 1)
                     (with_orders
                        [ mkOrder ETF_EU_ID p1 v SIDE_ASK ORDER_TYPE_IOC;
                          mkOrder ETF_US_ID p2 v SIDE_BID ORDER_TYPE_IOC ] w))
                  Hpos Heu) as (pq1 & -> & Hkeys1 & Hnet1).
      destruct (record_trade_global_tracks ETF_US_ID SIDE_BID p2 v
                  (with_position_queues pq1
                     (with_reverse_arbitrage_counter
                        (reverse_arbitrage_counter
                           (with_orders
                              [ mkOrder ETF_EU_ID p1 v SIDE_ASK ORDER_TYPE_IOC;
                                mkOrder ETF_US_ID p2 v SIDE_BID ORDER_TYPE_IOC ] w) + 1)
                        (with_orders
                           [ mkOrder ETF_EU_ID p1 v SIDE_ASK ORDER_TYPE_IOC;
                             mkOrder ETF_US_ID p2 v SIDE_BID ORDER_TYPE_IOC ] w)))
                  Hpos (Hkeys1 _ Hus)) as (pq2 & -> & _ & Hnet2).
      cbn [snd position_queues with_position_queues].
      rewrite Hnet2. cbn [position_queues with_position_queues]. rewrite Hnet1.
      cbn [position_queues with_reverse_arbitrage_counter with_orders foldl with_order].
      rewrite !orders_net_cons. simpl. lia.
Qed.

Lemma hedge_tracks (w : World E) :
  well_keyed (position_queues w) ->
  exists os, tracks w (hedge_basket_strategy w).2 os.
Proof.
  intros Hkeyed.
  assert (Hus : is_Some (pq_get ETF_US_ID (position_queues w)))
    by (apply Hkeyed; repeat constructor).
  assert (Hasml : is_Some (pq_get ASML_ID (position_queues w)))
    by (apply Hkeyed; repeat constructor).
  assert (Hamd : is_Some (pq_get AMD_ID (position_queues w)))
    by (apply Hkeyed; repeat constructor).
  assert (Hnvda : is_Some (pq_get NVDA_ID (position_queues w)))
    by (apply Hkeyed; repeat constructor).
  destruct (hedge_basket_strategy_cases w)
    as [->|(u & s1 & s2 & p0 & p1 & p2 & p3 & Hpos & _ & _ & _ & _ & _ & _ & Hrun)].
  - exists []. split; [simpl; by rewrite app_nil_r|]. intros instrument. simpl. lia.
  - exists (hedge_orders s1 s2 p0 p1 p2 p3 u). rewrite Hrun. split.
    + by rewrite hedge_bookkeeping_keeps_sent, sent_with_orders.
    + intros instrument. unfold hedge_bookkeeping, bind.
      set (w0 := with_orders (hedge_orders s1 s2 p0 p1 p2 p3 u)
                   (with_underlying (updated_prices (exchange w) (underlying w)) w)).
      assert (Hpq0 : position_queues w0 = position_queues w)
        by (unfold w0; by rewrite position_queues_with_orders).
      destruct (record_trade_global_tracks ETF_US_ID s1 p0 (u * 3) w0 ltac:(lia)
                  ltac:(by rewrite Hpq0)) as (pq1 & -> & Hkeys1 & Hnet1).
      destruct (record_trade_global_tracks ASML_ID s2 p1 u (with_position_queues pq1 w0)
                  Hpos ltac:(apply Hkeys1; by rewrite Hpq0)) as (pq2 & -> & Hkeys2 & Hnet2).
      destruct (record_trade_global_tracks AMD_ID s2 p2 u
                  (with_position_queues pq2 (with_position_queues pq1 w0))
                  Hpos ltac:(apply Hkeys2, Hkeys1; by rewrite Hpq0))
        as (pq3 & -> & Hkeys3 & Hnet3).
      destruct (record_trade_global_tracks NVDA_ID s2 p3 u
                  (with_position_queues pq3
                     (with_position_queues pq2 (with_position_queues pq1 w0)))
                  Hpos ltac:(apply Hkeys3, Hkeys2, Hkeys1; by rewrite Hpq0))
        as (pq4 & -> & _ & Hnet4).
      cbn [snd position_queues with_position_queues] in *.
      rewrite Hnet4, Hnet3, Hnet2, Hnet1, Hpq0. unfold hedge_orders.
      rewrite !orders_net_cons. simpl. lia.
Qed.

Lemma auto_calibrate_tracks (w : World E) :
  NoDup (ledger_keys (position_queues w)) ->
  exists os, tracks w (auto_calibrate_positions w).2 os.
Proof.
  intros Hdup. unfold auto_calibrate_positions, bind, gets, modify.
  destruct (calibrate_items_conserves (position_queues w) w)
    as (items' & os & -> & _ & _ & _ & Hnet).
  exists os. cbn [snd]. split; [apply sent_with_orders|].
  intros instrument. cbn [position_queues with_position_queues]. by apply Hnet.
Qed.

(** The ledger tracks the orders of the four strategies.  On a ledger that
    holds the five instruments under distinct keys, an invocation of forward
    arbitrage, of reverse arbitrage, of the hedge or of auto-calibration moves
    the ledger's net volume of every instrument by exactly the signed volume
    of the orders it issued on that instrument. *)
Theorem ledger_tracks_strategy_orders (threshold : float) (w : World E)
    (instrument : string) :
  well_keyed (position_queues w) -> NoDup (ledger_keys (position_queues w)) ->
  ledger_net instrument (position_queues (arbitrage_strategy threshold w).2) =
    ledger_net instrument (position_queues w) +
    orders_net instrument (issued w (arbitrage_strategy threshold w).2) /\
  ledger_net instrument (position_queues (reverse_arbitrage_strategy threshold w).2) =
    ledger_net instrument (position_queues w) +
    orders_net instrument (issued w (reverse_arbitrage_strategy threshold w).2) /\
  ledger_net instrument (position_queues (hedge_basket_strategy w).2) =
    ledger_net instrument (position_queues w) +
    orders_net instrument (issued w (hedge_basket_strategy w).2) /\
  ledger_net instrument (position_queues (auto_calibrate_positions w).2) =
    ledger_net instrument (position_queues w) +
    orders_net instrument (issued w (auto_calibrate_positions w).2).
Proof.
  intros Hkeyed Hdup.
  destruct (arbitrage_tracks threshold w Hkeyed) as (os1 & Harb).
  destruct (reverse_arbitrage_tracks threshold w Hkeyed) as (os2 & Hrev).
  destruct (hedge_tracks w Hkeyed) as (os3 & Hhedge).
  destruct (auto_calibrate_tracks w Hdup) as (os4 & Hcal).
  rewrite (tracks_issued _ _ _ Harb), (tracks_issued _ _ _ Hrev),
    (tracks_issued _ _ _ Hhedge), (tracks_issued _ _ _ Hcal).
  split; [apply Harb|]. split; [apply Hrev|]. split; [apply Hhedge|apply Hcal].
Qed.
End LedgerTracking.

Lemma initial_ledger_well_keyed : well_keyed initial_position_queues.
Proof.
  intros instrument Hin.
  repeat (apply elem_of_cons in Hin as [->|Hin]; [eexists; reflexivity|]).
  by apply elem_of_nil in Hin.
Defined.

Lemma initial_ledger_keys_distinct : NoDup (ledger_keys initial_position_queues).
Proof. apply (bool_decide_unpack _). vm_compute. exact I. Defined.

Lemma initial_ledger_tidy : ledger_tidy initial_position_queues.
Proof.
  repeat (constructor; [split; [by left|split; constructor]|]). constructor.
Defined.

Lemma ledger_tracks_strategy_orders_witness :
  ledger_net ETF_US_ID (position_queues (arbitrage_strategy 0.05 arbitrage_world).2) =
    ledger_net ETF_US_ID (position_queues arbitrage_world) +
    orders_net ETF_US_ID (issued arbitrage_world (arbitrage_strategy 0.05 arbitrage_world).2).
Proof.
  exact (proj1 (ledger_tracks_strategy_orders 0.05 arbitrage_world ETF_US_ID
                  initial_ledger_well_keyed initial_ledger_keys_distinct)).
Defined.

(** ** The engine never raises on a sound ledger *)

Section SoundnessProperties.
Context {E : Type} `{Exchange E}.

Lemma safe_ret {A : Type} (P : World E -> Prop) (a : A) : safe P (ret a : M E A).
Proof. intros w HP. by exists a, w. Qed.

Lemma safe_gets {A : Type} (P : World E -> Prop) (f : World E -> A) : safe P (gets f).
Proof. intros w HP. by exists (f w), w. Qed.

Lemma safe_modify (P : World E -> Prop) (g : World E -> World E) :
  (forall w, P w -> P (g w)) -> safe P (modify g).
Proof. intros Hg w HP. exists tt, (g w). split; [done|by apply Hg]. Qed.

Lemma safe_bind {A B : Type} (P : World E -> Prop) (m : M E A) (k : A -> M E B) :
  safe P m -> (forall a, safe P (k a)) -> safe P (bind m k).
Proof.
  intros Hm Hk w HP. destruct (Hm w HP) as (a & w1 & Hrun & HP1).
  destruct (Hk a w1 HP1) as (b & w2 & Hrun2 & HP2).
  exists b, w2. unfold bind. by rewrite Hrun, Hrun2.
Qed.

Lemma safe_for_each {A : Type} (P : World E -> Prop) (xs : list A)
    (body : A -> M E unit) :
  (forall x, safe P (body x)) -> safe P (for_each xs body).
Proof.
  intros Hbody. induction xs as [|x rest IH]; simpl.
  - apply safe_ret.
  - apply safe_bind; auto.
Qed.

Lemma record_trade_returns instrument side price volume (pq : PositionQueues) :
  is_Some (pq_get instrument pq) ->
  exists pq', record_trade instrument side price volume pq = inr pq'.
Proof.
  intros [qs Hqs]. unfold record_trade. rewrite Hqs.
  destruct (decide (side = SIDE_BID)); [|destruct (decide (side = SIDE_ASK))].
  - destruct (0 <? volume); [|by eexists].
    destruct (offset_lots (short qs) volume). by eexists.
  - destruct (0 <? volume); [|by eexists].
    destruct (offset_lots (long qs) volume). by eexists.
  - by eexists.
Qed.

Lemma safe_record_trade_global (keys : list string) instrument side price volume :
  instrument ∈ keys ->
  safe (sound_ledger keys) (record_trade_global (E:=E) instrument side price volume).
Proof.
  intros Hin w [Hkeys Htidy].
  destruct (record_trade_returns instrument side price volume (position_queues w))
    as [pq' Hrec]; [apply pq_get_is_Some_keys; by rewrite Hkeys|].
  destruct (record_trade_keeps_shape _ _ _ _ _ _ Hrec) as [Hkeys' Htidy'].
  exists tt, (with_position_queues pq' w).
  split; [by apply record_trade_global_ok|].
  split; simpl; [by rewrite Hkeys'|by apply Htidy'].
Qed.

Lemma safe_auto_calibrate_positions (keys : list string) :
  safe (sound_ledger keys) (auto_calibrate_positions (E:=E)).
Proof.
  intros w [Hkeys Htidy]. unfold auto_calibrate_positions, bind, gets, modify.
  destruct (calibrate_items_conserves (position_queues w) w)
    as (items' & os & -> & Hkeys' & _ & Htidy' & _).
  eexists tt, _. split; [reflexivity|].
  split; simpl; [by rewrite Hkeys'|by apply Htidy'].
Qed.

(** One step of a proof that a computation is safe for [sound_ledger]. *)
Ltac safe_step :=
  first
    [ apply safe_ret
    | apply safe_gets
    | apply safe_modify; intros ? ?; assumption
    | apply safe_record_trade_global; assumption
    | apply safe_for_each; intros ?
    | apply safe_bind; [|intros ?]
    | match goal with
      | |- safe _ (match ?x with _ => _ end) => destruct x
      end ].

(** Each of the five calls of a cycle is safe on a ledger that holds the
    five instruments. *)
Lemma strategies_safe (keys : list string) :
  (forall instrument, instrument ∈ INSTRUMENT_IDS -> instrument ∈ keys) ->
  safe (sound_ledger keys) (hedge_basket_strategy (E:=E)) /\
  (forall threshold, safe (sound_ledger keys) (arbitrage_strategy (E:=E) threshold)) /\
  (forall threshold,
      safe (sound_ledger keys) (reverse_arbitrage_strategy (E:=E) threshold)) /\
  safe (sound_ledger keys) (auto_calibrate_positions (E:=E)) /\
  (forall now, safe (sound_ledger keys) (check_and_correct_basket_limit (E:=E) now)).
Proof.
  intros Hin.
  assert (Hus : ETF_US_ID ∈ keys) by (apply Hin; repeat constructor).
  assert (Heu : ETF_EU_ID ∈ keys) by (apply Hin; repeat constructor).
  assert (Hasml : ASML_ID ∈ keys) by (apply Hin; repeat constructor).
  assert (Hamd : AMD_ID ∈ keys) by (apply Hin; repeat constructor).
  assert (Hnvda : NVDA_ID ∈ keys) by (apply Hin; repeat constructor).
  clear Hin.
  split; [|split; [|split; [|split]]].
  - unfold hedge_basket_strategy, update_underlying_prices, send.
    repeat safe_step.
  - intros threshold. unfold arbitrage_strategy, send. repeat safe_step.
  - intros threshold. unfold reverse_arbitrage_strategy, send. repeat safe_step.
  - apply safe_auto_calibrate_positions.
  - intros now. unfold check_and_correct_basket_limit, forced_sell, forced_buy, send.
    repeat safe_step.
Qed.

Lemma well_keyed_in_keys (pq : PositionQueues) :
  well_keyed pq ->
  forall instrument, instrument ∈ INSTRUMENT_IDS -> instrument ∈ ledger_keys pq.
Proof. intros Hkeyed instrument Hin. by apply pq_get_is_Some_keys, Hkeyed. Qed.

Lemma well_keyed_same_keys (pq pq' : PositionQueues) :
  ledger_keys pq' = ledger_keys pq -> well_keyed pq -> well_keyed pq'.
Proof.
  intros Hkeys Hkeyed instrument Hin. apply pq_get_is_Some_keys. rewrite Hkeys.
  by apply well_keyed_in_keys.
Qed.

(** An engine invariant.  If the ledger holds the five instruments and is
    tidy (one-sided queues of positive lots), a whole trade cycle returns
    without raising, and leaves a ledger with the same keys, in the same
    order, that is tidy again. *)
Theorem trade_cycle_keeps_ledger_sound (now : float) (w : World E) :
  well_keyed (position_queues w) -> ledger_tidy (position_queues w) ->
  exists w',
    trade_cycle now w = (Returned tt, w') /\
    ledger_keys (position_queues w') = ledger_keys (position_queues w) /\
    well_keyed (position_queues w') /\ ledger_tidy (position_queues w').
Proof.
  intros Hkeyed Htidy.
  set (keys := ledger_keys (position_queues w)).
  destruct (strategies_safe keys (well_keyed_in_keys _ Hkeyed))
    as (Hhedge & Harb & Hrev & Hcal & Hcheck).
  assert (Hcycle : safe (sound_ledger keys) (trade_cycle (E:=E) now)).
  { unfold trade_cycle.
    apply safe_bind; [exact Hhedge|intros _].
    apply safe_bind; [exact (Harb THRESHOLD)|intros _].
    apply safe_bind; [exact (Hrev THRESHOLD)|intros _].
    apply safe_bind; [exact Hcal|intros _].
    exact (Hcheck now). }
  destruct (Hcycle w (conj eq_refl Htidy)) as ([] & w' & Hrun & Hkeys' & Htidy').
  exists w'. split; [exact Hrun|]. split; [exact Hkeys'|]. split; [|exact Htidy'].
  by apply (well_keyed_same_keys (position_queues w)).
Qed.
End SoundnessProperties.

Lemma trade_cycle_keeps_ledger_sound_witness :
  exists w',
    trade_cycle 0 arbitrage_world = (Returned tt, w') /\
    ledger_keys (position_queues w') = ledger_keys (position_queues arbitrage_world) /\
    well_keyed (position_queues w') /\ ledger_tidy (position_queues w').
Proof.
  exact (trade_cycle_keeps_ledger_sound 0 arbitrage_world
           initial_ledger_well_keyed initial_ledger_tidy).
Defined.

(** ** Reverse arbitrage and the two counters *)

Section ReverseArbitrageProperties.
Context {E : Type} `{Exchange E}.

(** Reverse arbitrage logs orders only when both books are up and the EU best
    bid is strictly above the US best ask plus the threshold; it then logs
    exactly a sell of the EU listing at that bid and a buy of the US listing at
    that ask, both of one positive volume that exceeds neither touch volume
    nor either leg's [risk_allowed] volume. *)
Theorem reverse_arbitrage_fires_on_strict_dislocation (threshold : float) (w : World E) :
  sent (reverse_arbitrage_strategy threshold w).2 <> sent w ->
  exists us eu eu_bid eu_bids us_ask us_asks trade_volume,
    get_last_price_book (exchange w) ETF_US_ID = Some us /\
    get_last_price_book (exchange w) ETF_EU_ID = Some eu /\
    is_up (Some us) = true /\ is_up (Some eu) = true /\
    bids eu = eu_bid :: eu_bids /\ asks us = us_ask :: us_asks /\
    fgt (price eu_bid) (price us_ask + threshold)%float = true /\
    0 < trade_volume /\
    trade_volume <= volume eu_bid /\ trade_volume <= volume us_ask /\
    trade_volume <= risk_allowed (exchange w) ETF_EU_ID SIDE_ASK /\
    trade_volume <= risk_allowed (exchange w) ETF_US_ID SIDE_BID /\
    sent (reverse_arbitrage_strategy threshold w).2 =
      sent w ++
      [ mkOrder ETF_EU_ID (price eu_bid) trade_volume SIDE_ASK ORDER_TYPE_IOC;
        mkOrder ETF_US_ID (price us_ask) trade_volume SIDE_BID ORDER_TYPE_IOC ].
Proof.
  intros Hsent.
  destruct (reverse_arbitrage_strategy_cases threshold w)
    as [Hidle|(us & eu & eu_bid & eu_bids & us_ask & us_asks & Hus & Heu &
               Hupus & Hupeu & Hbids & Hasks & Hgt & Hpos & Hrun)];
    [by rewrite Hidle in Hsent|].
  exists us, eu, eu_bid, eu_bids, us_ask, us_asks.
  eexists. repeat split; try eassumption; try lia.
  by rewrite Hrun, reverse_arbitrage_bookkeeping_keeps_sent, sent_with_orders.
Qed.

Lemma arbitrage_bookkeeping_counters p1 p2 trade_volume (w : World E) :
  arbitrage_counter (arbitrage_bookkeeping p1 p2 trade_volume w).2 =
    arbitrage_counter w + 1 /\
  reverse_arbitrage_counter (arbitrage_bookkeeping p1 p2 trade_volume w).2 =
    reverse_arbitrage_counter w.
Proof.
  assert (Hrecords : forall (f : World E -> Z) i1 s1 q1 v1 i2 s2 q2 v2,
             (forall pq w0, f (with_position_queues pq w0) = f w0) ->
             preserves f (record_trade_global i1 s1 q1 v1 ;;
                          record_trade_global i2 s2 q2 v2)%engine).
  { intros f i1 s1 q1 v1 i2 s2 q2 v2 Hf.
    apply preserves_bind; intros; by apply preserves_record_trade_global. }
  unfold arbitrage_bookkeeping. split.
  - unfold bind at 1, modify at 1. cbv beta iota. by rewrite Hrecords.
  - apply (preserves_bind reverse_arbitrage_counter); [by apply preserves_modify|].
    intros _. by apply Hrecords.
Qed.

Lemma reverse_arbitrage_bookkeeping_counters p1 p2 trade_volume (w : World E) :
  reverse_arbitrage_counter (reverse_arbitrage_bookkeeping p1 p2 trade_volume w).2 =
    reverse_arbitrage_counter w + 1 /\
  arbitrage_counter (reverse_arbitrage_bookkeeping p1 p2 trade_volume w).2 =
    arbitrage_counter w.
Proof.
  assert (Hrecords : forall (f : World E -> Z) i1 s1 q1 v1 i2 s2 q2 v2,
             (forall pq w0, f (with_position_queues pq w0) = f w0) ->
             preserves f (record_trade_global i1 s1 q1 v1 ;;
                          record_trade_global i2 s2 q2 v2)%engine).
  { intros f i1 s1 q1 v1 i2 s2 q2 v2 Hf.
    apply preserves_bind; intros; by apply preserves_record_trade_global. }
  unfold reverse_arbitrage_bookkeeping. split.
  - unfold bind at 1, modify at 1. cbv beta iota. by rewrite Hrecords.
  - apply (preserves_bind arbitrage_counter); [by apply preserves_modify|].
    intros _. by apply Hrecords.
Qed.

(** The two counters count firings.  An invocation of forward arbitrage adds
    one to [arbitrage_counter] when it issues its two orders and nothing when
    it issues none, and never touches [reverse_arbitrage_counter]; reverse
    arbitrage does the same with the roles of the two counters exchanged. *)
Theorem arbitrage_counters_count_firings (threshold : float) (w : World E) :
  arbitrage_counter (arbitrage_strategy threshold w).2 =
    arbitrage_counter w +
    (if decide (issued w (arbitrage_strategy threshold w).2 = []) then 0 else 1) /\
  reverse_arbitrage_counter (arbitrage_strategy threshold w).2 =
    reverse_arbitrage_counter w /\
  reverse_arbitrage_counter (reverse_arbitrage_strategy threshold w).2 =
    reverse_arbitrage_counter w +
    (if decide (issued w (reverse_arbitrage_strategy threshold w).2 = []) then 0 else 1) /\
  arbitrage_counter (reverse_arbitrage_strategy threshold w).2 = arbitrage_counter w.
Proof.
  split; [|split; [|split]].
  - destruct (arbitrage_issued threshold w) as [->|(p1 & p2 & v & _ & Hrun & ->)].
    + simpl. rewrite issued_nothing by done. simpl. lia.
    + rewrite Hrun. by destruct (arbitrage_bookkeeping_counters p1 p2 v
        (with_orders
           [ mkOrder ETF_US_ID p1 v SIDE_ASK ORDER_TYPE_IOC;
             mkOrder ETF_EU_ID p2 v SIDE_BID ORDER_TYPE_IOC ] w)) as [-> _].
  - destruct (arbitrage_issued threshold w) as [->|(p1 & p2 & v & _ & Hrun & _)];
      [done|].
    rewrite Hrun. by destruct (arbitrage_bookkeeping_counters p1 p2 v
        (with_orders
           [ mkOrder ETF_US_ID p1 v SIDE_ASK ORDER_TYPE_IOC;
             mkOrder ETF_EU_ID p2 v SIDE_BID ORDER_TYPE_IOC ] w)) as [_ ->].
  - destruct (reverse_arbitrage_issued threshold w)
      as [->|(p1 & p2 & v & _ & Hrun & ->)].
    + simpl. rewrite issued_nothing by done. simpl. lia.
    + rewrite Hrun. by destruct (reverse_arbitrage_bookkeeping_counters p1 p2 v
        (with_orders
           [ mkOrder ETF_EU_ID p1 v SIDE_ASK ORDER_TYPE_IOC;
             mkOrder ETF_US_ID p2 v SIDE_BID ORDER_TYPE_IOC ] w)) as [-> _].
  - destruct (reverse_arbitrage_issued threshold w)
      as [->|(p1 & p2 & v & _ & Hrun & _)]; [done|].
    rewrite Hrun. by destruct (reverse_arbitrage_bookkeeping_counters p1 p2 v
        (with_orders
           [ mkOrder ETF_EU_ID p1 v SIDE_ASK ORDER_TYPE_IOC;
             mkOrder ETF_US_ID p2 v SIDE_BID ORDER_TYPE_IOC ] w)) as [_ ->].
Qed.
End ReverseArbitrageProperties.

Lemma reverse_arbitrage_fires_on_strict_dislocation_witness :
  exists us eu eu_bid eu_bids us_ask us_asks trade_volume,
    get_last_price_book (exchange reverse_arbitrage_world) ETF_US_ID = Some us /\
    get_last_price_book (exchange reverse_arbitrage_world) ETF_EU_ID = Some eu /\
    is_up (Some us) = true /\ is_up (Some eu) = true /\
    bids eu = eu_bid :: eu_bids /\ asks us = us_ask :: us_asks /\
    fgt (price eu_bid) (price us_ask + 0.05)%float = true /\
    0 < trade_volume /\
    trade_volume <= volume eu_bid /\ trade_volume <= volume us_ask /\
    trade_volume <= risk_allowed (exchange reverse_arbitrage_world) ETF_EU_ID SIDE_ASK /\
    trade_volume <= risk_allowed (exchange reverse_arbitrage_world) ETF_US_ID SIDE_BID /\
    sent (reverse_arbitrage_strategy 0.05 reverse_arbitrage_world).2 =
      sent reverse_arbitrage_world ++
      [ mkOrder ETF_EU_ID (price eu_bid) trade_volume SIDE_ASK ORDER_TYPE_IOC;
        mkOrder ETF_US_ID (price us_ask) trade_volume SIDE_BID ORDER_TYPE_IOC ].
Proof.
  apply (reverse_arbitrage_fires_on_strict_dislocation 0.05 reverse_arbitrage_world).
  vm_compute. discriminate.
Defined.

Example reverse_arbitrage_sizes_by_the_smaller_touch :
  sent (reverse_arbitrage_strategy 0.05 reverse_arbitrage_world).2 =
    [ mkOrder ETF_EU_ID 100.10 30 SIDE_ASK ORDER_TYPE_IOC;
      mkOrder ETF_US_ID 100.00 30 SIDE_BID ORDER_TYPE_IOC ].
Proof. reflexivity. Qed.

(** ** What a basket correction sends *)

Section CorrectionProperties.
Context {E : Type} `{Exchange E}.

Lemma forced_sell_orders pos trade_volume instrument (w : World E) :
  exists os,
    forced_sell pos trade_volume instrument w = (Returned tt, with_orders os w) /\
    (os = [] \/
     exists touch,
       0 < pos_get pos instrument /\
       os = [mkOrder instrument touch (Z.min (pos_get pos instrument) trade_volume)
               SIDE_ASK ORDER_TYPE_IOC]).
Proof.
  unfold forced_sell. destruct (0 <? pos_get pos instrument) eqn:Hpos;
    [|exists []; split; [done|by left]].
  apply Z.ltb_lt in Hpos. unfold bind, gets. cbv beta iota.
  destruct (get_last_price_book (exchange w) instrument) as [pb|];
    [|exists []; split; [done|by left]].
  destruct (bids pb) as [|top tops]; [exists []; split; [done|by left]|].
  eexists [_]. split; [reflexivity|]. right. by exists (price top).
Qed.

Lemma forced_buy_orders pos trade_volume instrument (w : World E) :
  exists os,
    forced_buy pos trade_volume instrument w = (Returned tt, with_orders os w) /\
    (os = [] \/
     exists touch,
       pos_get pos instrument < 0 /\
       os = [mkOrder instrument touch
               (Z.min (Z.abs (pos_get pos instrument)) trade_volume)
               SIDE_BID ORDER_TYPE_IOC]).
Proof.
  unfold forced_buy. destruct (pos_get pos instrument <? 0) eqn:Hpos;
    [|exists []; split; [done|by left]].
  apply Z.ltb_lt in Hpos. unfold bind, gets. cbv beta iota.
  destruct (get_last_price_book (exchange w) instrument) as [pb|];
    [|exists []; split; [done|by left]].
  destruct (asks pb) as [|top tops]; [exists []; split; [done|by left]|].
  eexists [_]. split; [reflexivity|]. right. by exists (price top).
Qed.

(** A loop whose body sends at most one order, on the instrument it is
    given, satisfying [good]: the orders of the loop are on distinct
    instruments of the list, in its order, and all satisfy [good]. *)
Lemma for_each_at_most_one_order (good : Order -> Prop)
    (body : string -> M E unit) (ids : list string) :
  (forall id w, id ∈ ids -> exists os,
      body id w = (Returned tt, with_orders os w) /\
      (os = [] \/ exists o, os = [o] /\ order_instrument o = id /\ good o)) ->
  forall w, exists os,
    for_each ids body w = (Returned tt, with_orders os w) /\
    map order_instrument os `sublist_of` ids /\ Forall good os.
Proof.
  induction ids as [|id rest IH]; intros Hbody w.
  - exists []. split; [done|]. split; [constructor|constructor].
  - destruct (Hbody id w ltac:(by left)) as (os1 & Hrun1 & Hshape).
    destruct (IH (fun id' w' Hin => Hbody id' w' ltac:(by right)) (with_orders os1 w))
      as (os2 & Hrun2 & Hsub & Hgood).
    exists (os1 ++ os2). split; [|split].
    + simpl. unfold bind. rewrite Hrun1, Hrun2. by rewrite with_orders_app.
    + destruct Hshape as [->|(o & -> & <- & _)]; simpl;
        [by apply sublist_cons|by apply sublist_skip].
    + destruct Hshape as [->|(o & -> & _ & Ho)]; simpl; [done|by constructor].
Qed.

(** What one check leaves behind: the world it met, with the orders it sent
    and a new timer value.  With the exposure above 300 the orders are sells,
    below -300 buys, each sized by the branch's per-instrument volume. *)
Lemma check_and_correct_run (now : float) (w : World E) :
  exists timer' os,
    check_and_correct_basket_limit now w =
      (Returned tt, with_basket_violation_start_time timer' (with_orders os w)) /\
    map order_instrument os `sublist_of` INSTRUMENT_IDS /\
    (-300 <= basket_of (get_positions (exchange w)) <= 300 -> os = []) /\
    (300 < basket_of (get_positions (exchange w)) ->
     Forall (fun o =>
               order_side o = SIDE_ASK /\
               0 < pos_get (get_positions (exchange w)) (order_instrument o) /\
               order_volume o =
                 Z.min (pos_get (get_positions (exchange w)) (order_instrument o))
                       ((basket_of (get_positions (exchange w)) - 250) / 5 + 1)) os) /\
    (basket_of (get_positions (exchange w)) < -300 ->
     Forall (fun o =>
               order_side o = SIDE_BID /\
               pos_get (get_positions (exchange w)) (order_instrument o) < 0 /\
               order_volume o =
                 Z.min (Z.abs (pos_get (get_positions (exchange w)) (order_instrument o)))
                       ((-250 - basket_of (get_positions (exchange w))) / 5 + 1)) os).
Proof.
  assert (Hnone : forall timer',
             exists os : list Order,
               (Returned tt, with_basket_violation_start_time timer' w) =
               (Returned tt, with_basket_violation_start_time timer' (with_orders os w)) /\
               map order_instrument os `sublist_of` INSTRUMENT_IDS /\
               (-300 <= basket_of (get_positions (exchange w)) <= 300 -> os = []) /\
               (300 < basket_of (get_positions (exchange w)) ->
                Forall (fun o =>
                          order_side o = SIDE_ASK /\
                          0 < pos_get (get_positions (exchange w)) (order_instrument o) /\
                          order_volume o =
                            Z.min (pos_get (get_positions (exchange w)) (order_instrument o))
                                  ((basket_of (get_positions (exchange w)) - 250) / 5 + 1))
                       os) /\
               (basket_of (get_positions (exchange w)) < -300 ->
                Forall (fun o =>
                          order_side o = SIDE_BID /\
                          pos_get (get_positions (exchange w)) (order_instrument o) < 0 /\
                          order_volume o =
                            Z.min (Z.abs (pos_get (get_positions (exchange w))
                                                  (order_instrument o)))
                                  ((-250 - basket_of (get_positions (exchange w))) / 5 + 1))
                       os)).
  { intros timer'. exists []. split; [done|]. split; [apply sublist_nil_l|].
    split; [done|]. split; intros _; constructor. }
  unfold check_and_correct_basket_limit, bind at 1, gets at 1. cbv beta iota zeta.
  set (pos := get_positions (exchange w)) in *.
  destruct ((-250 <=? basket_of pos) && (basket_of pos <=? 250)) eqn:Hband.
  { exists None. apply Hnone. }
  unfold bind at 1, gets at 1. cbv beta iota.
  destruct (basket_violation_start_time w) as [t0|] eqn:Htimer.
  2: { exists (Some now). apply Hnone. }
  destruct (fgt (now - t0) 2.5).
  2: { exists (Some t0).
       assert (Heta : (Returned tt, w) =
                      (Returned tt, with_basket_violation_start_time (Some t0) w))
         by (destruct w; simpl in *; by subst).
       unfold ret. rewrite Heta. apply Hnone. }
  exists None. unfold bind, modify.
  destruct (300 <? basket_of pos) eqn:Hhigh.
  - apply Z.ltb_lt in Hhigh.
    destruct (for_each_at_most_one_order
                (fun o =>
                   order_side o = SIDE_ASK /\
                   0 < pos_get pos (order_instrument o) /\
                   order_volume o =
                     Z.min (pos_get pos (order_instrument o))
                           ((basket_of pos - 250) / 5 + 1))
                (forced_sell pos ((basket_of pos - 250) / 5 + 1)) INSTRUMENT_IDS)
      with (w := w) as (os & -> & Hsub & Hgood).
    { intros id w0 _.
      destruct (forced_sell_orders pos ((basket_of pos - 250) / 5 + 1) id w0)
        as (os & Hrun & [->|(touch & Hpos & ->)]).
      - exists []. split; [done|by left].
      - eexists. split; [exact Hrun|]. right. eexists. by repeat split. }
    exists os. split; [done|]. split; [exact Hsub|].
    split; [lia|]. split; [done|lia].
  - apply Z.ltb_ge in Hhigh. destruct (basket_of pos <? -300) eqn:Hlow.
    + apply Z.ltb_lt in Hlow.
      destruct (for_each_at_most_one_order
                  (fun o =>
                     order_side o = SIDE_BID /\
                     pos_get pos (order_instrument o) < 0 /\
                     order_volume o =
                       Z.min (Z.abs (pos_get pos (order_instrument o)))
                             ((-250 - basket_of pos) / 5 + 1))
                  (forced_buy pos ((-250 - basket_of pos) / 5 + 1)) INSTRUMENT_IDS)
        with (w := w) as (os & -> & Hsub & Hgood).
      { intros id w0 _.
        destruct (forced_buy_orders pos ((-250 - basket_of pos) / 5 + 1) id w0)
          as (os & Hrun & [->|(touch & Hpos & ->)]).
        - exists []. split; [done|by left].
        - eexists. split; [exact Hrun|]. right. eexists. by repeat split. }
      exists os. split; [done|]. split; [exact Hsub|].
      split; [lia|]. split; [lia|done].
    + apply Hnone.
Qed.

Lemma instrument_ids_distinct : NoDup INSTRUMENT_IDS.
Proof. apply (bool_decide_unpack _). vm_compute. exact I. Qed.

Lemma sells_total_bounds (cap : Z) (os : list Order) :
  Forall (fun o => order_side o = SIDE_ASK /\ 0 < order_volume o <= cap) os ->
  - (Z.of_nat (length os) * cap) <= signed_total os <= 0.
Proof.
  induction os as [|o os IH]; intros Hall; simpl; [lia|].
  apply Forall_cons in Hall as [(Hside & Hvol) Hrest]. specialize (IH Hrest).
  rewrite Hside. unfold signed_volume.
  destruct (decide (SIDE_ASK = SIDE_BID)); [discriminate|].
  destruct (decide (SIDE_ASK = SIDE_ASK)); [lia|congruence].
Qed.

Lemma buys_total_bounds (cap : Z) (os : list Order) :
  Forall (fun o => order_side o = SIDE_BID /\ 0 < order_volume o <= cap) os ->
  0 <= signed_total os <= Z.of_nat (length os) * cap.
Proof.
  induction os as [|o os IH]; intros Hall; simpl; [lia|].
  apply Forall_cons in Hall as [(Hside & Hvol) Hrest]. specialize (IH Hrest).
  rewrite Hside. unfold signed_volume.
  destruct (decide (SIDE_BID = SIDE_BID)); [lia|congruence].
Qed.

(** A basket correction never overshoots.  With the exposure within
    [[-300, 300]] a check issues no order, whatever the timer.  With the
    exposure above 300 it issues only sells, at most one per instrument, each
    on a long position and of a positive volume no larger than that position;
    an immediate fill of all of them leaves the exposure between 245 and its
    value before.  Below -300 it issues only buys, at most one per instrument,
    each on a short position and no larger than it, and the exposure after an
    immediate fill is between its value before and -245. *)
Theorem basket_correction_is_bounded (now : float) (w : World E) :
  (-300 <= basket_of (get_positions (exchange w)) <= 300 ->
   issued w (check_and_correct_basket_limit now w).2 = []) /\
  (300 < basket_of (get_positions (exchange w)) ->
   Forall (fun o =>
             order_side o = SIDE_ASK /\
             0 < order_volume o <=
               pos_get (get_positions (exchange w)) (order_instrument o))
          (issued w (check_and_correct_basket_limit now w).2) /\
   NoDup (map order_instrument (issued w (check_and_correct_basket_limit now w).2)) /\
   245 <= basket_of (get_positions (exchange w)) +
          signed_total (issued w (check_and_correct_basket_limit now w).2)
       <= basket_of (get_positions (exchange w))) /\
  (basket_of (get_positions (exchange w)) < -300 ->
   Forall (fun o =>
             order_side o = SIDE_BID /\
             0 < order_volume o <=
               - pos_get (get_positions (exchange w)) (order_instrument o))
          (issued w (check_and_correct_basket_limit now w).2) /\
   NoDup (map order_instrument (issued w (check_and_correct_basket_limit now w).2)) /\
   basket_of (get_positions (exchange w)) <=
     basket_of (get_positions (exchange w)) +
     signed_total (issued w (check_and_correct_basket_limit now w).2) <= -245).
Proof.
  destruct (check_and_correct_run now w)
    as (timer' & os & -> & Hsub & Hband & Hhigh & Hlow).
  assert (Hissued : issued w (with_basket_violation_start_time timer' (with_orders os w)) = os)
    by (apply issued_app; simpl; apply sent_with_orders).
  cbn [snd]. rewrite Hissued.
  assert (Hdistinct : NoDup (map order_instrument os))
    by (eapply sublist_NoDup; [apply instrument_ids_distinct|exact Hsub]).
  assert (Hlen : (length os <= 5)%nat).
  { apply sublist_length in Hsub. by rewrite length_map in Hsub. }
  set (basket := basket_of (get_positions (exchange w))) in *.
  split; [exact Hband|]. split.
  - intros Hover. specialize (Hhigh Hover).
    pose proof (Z.div_mod (basket - 250) 5 ltac:(lia)) as Hdm.
    pose proof (Z.mod_pos_bound (basket - 250) 5 ltac:(lia)) as Hmod.
    assert (Hsized : Forall (fun o => order_side o = SIDE_ASK /\
                                      0 < order_volume o <= (basket - 250) / 5 + 1) os).
    { eapply Forall_impl; [exact Hhigh|]. intros o (Hside & Hpos & ->).
      split; [exact Hside|]. lia. }
    pose proof (sells_total_bounds _ _ Hsized) as Htotal.
    split; [|split; [exact Hdistinct|nia]].
    eapply Forall_impl; [exact Hhigh|]. intros o (Hside & Hpos & ->).
    split; [exact Hside|]. lia.
  - intros Hunder. specialize (Hlow Hunder).
    pose proof (Z.div_mod (-250 - basket) 5 ltac:(lia)) as Hdm.
    pose proof (Z.mod_pos_bound (-250 - basket) 5 ltac:(lia)) as Hmod.
    assert (Hsized : Forall (fun o => order_side o = SIDE_BID /\
                                      0 < order_volume o <= (-250 - basket) / 5 + 1) os).
    { eapply Forall_impl; [exact Hlow|]. intros o (Hside & Hneg & ->).
      split; [exact Hside|]. lia. }
    pose proof (buys_total_bounds _ _ Hsized) as Htotal.
    split; [|split; [exact Hdistinct|nia]].
    eapply Forall_impl; [exact Hlow|]. intros o (Hside & Hneg & ->).
    split; [exact Hside|]. lia.
Qed.

(** The basket check always returns, and it bypasses the ledger: the world
    it leaves is the world it met with a new timer value and the orders it
    sent, so that the ledger, the two counters and the last-known prices are
    untouched even when corrective orders were issued. *)
Theorem basket_check_bypasses_ledger (now : float) (w : World E) :
  exists timer' os,
    check_and_correct_basket_limit now w =
      (Returned tt, with_basket_violation_start_time timer' (with_orders os w)) /\
    position_queues (check_and_correct_basket_limit now w).2 = position_queues w /\
    (forall instrument,
        ledger_net instrument (position_queues (check_and_correct_basket_limit now w).2) =
        ledger_net instrument (position_queues w)).
Proof.
  destruct (check_and_correct_run now w) as (timer' & os & Hrun & _).
  exists timer', os. split; [exact Hrun|]. rewrite Hrun. cbn [snd].
  assert (Hpq : position_queues
                  (with_basket_violation_start_time timer' (with_orders os w)) =
                position_queues w)
    by (simpl; apply position_queues_with_orders).
  split; [exact Hpq|]. intros instrument. by rewrite Hpq.
Qed.
End CorrectionProperties.

Lemma basket_correction_is_bounded_witness :
  Forall (fun o =>
            order_side o = SIDE_ASK /\
            0 < order_volume o <=
              pos_get (get_positions (exchange over_long_world)) (order_instrument o))
         (issued over_long_world (check_and_correct_basket_limit 3 over_long_world).2) /\
  NoDup (map order_instrument
           (issued over_long_world (check_and_correct_basket_limit 3 over_long_world).2)) /\
  245 <= basket_of (get_positions (exchange over_long_world)) +
         signed_total
           (issued over_long_world (check_and_correct_basket_limit 3 over_long_world).2)
      <= basket_of (get_positions (exchange over_long_world)).
Proof.
  apply (proj1 (proj2 (basket_correction_is_bounded 3 over_long_world))).
  vm_compute. reflexivity.
Defined.


(** ** The ledger over a whole cycle *)

Section CycleAccounting.
Context {E : Type} `{Exchange E}.

Lemma bind_returned {A B : Type} (m : M E A) (k : A -> M E B) (w w1 : World E) (a : A) :
  m w = (Returned a, w1) -> bind m k w = k a w1.
Proof. intros Hrun. unfold bind. by rewrite Hrun. Qed.

(** What the ledger knows after a cycle.  On a tidy ledger that holds the
    five instruments under distinct keys a cycle returns; the orders it logged
    are those of the four strategies followed by those of the basket check;
    and the ledger's net volume of every instrument has moved by the signed
    volume of the strategies' orders alone.  So after a cycle the ledger is
    behind the order log by exactly the corrective orders of the basket
    check. *)
Theorem trade_cycle_ledger_tracks_strategies (now : float) (w : World E) :
  well_keyed (position_queues w) -> NoDup (ledger_keys (position_queues w)) ->
  ledger_tidy (position_queues w) ->
  exists w4 w',
    strategy_pass w = (Returned tt, w4) /\
    check_and_correct_basket_limit now w4 = (Returned tt, w') /\
    trade_cycle now w = (Returned tt, w') /\
    issued w w' = issued w w4 ++ issued w4 w' /\
    forall instrument,
      ledger_net instrument (position_queues w') =
      ledger_net instrument (position_queues w) +
      orders_net instrument (issued w w4).
Proof.
  intros Hkeyed Hdup Htidy.
  set (keys := ledger_keys (position_queues w)).
  destruct (strategies_safe keys (well_keyed_in_keys _ Hkeyed))
    as (Hhedge & Harb & Hrev & Hcal & _).
  destruct (Hhedge w (conj eq_refl Htidy)) as ([] & w1 & Hrun1 & Hsound1).
  destruct (Harb THRESHOLD w1 Hsound1) as ([] & w2 & Hrun2 & Hsound2).
  destruct (Hrev THRESHOLD w2 Hsound2) as ([] & w3 & Hrun3 & Hsound3).
  destruct (Hcal w3 Hsound3) as ([] & w4 & Hrun4 & Hsound4).
  assert (Hkeyed1 : well_keyed (position_queues w1))
    by (apply (well_keyed_same_keys (position_queues w)); [apply Hsound1|done]).
  assert (Hkeyed2 : well_keyed (position_queues w2))
    by (apply (well_keyed_same_keys (position_queues w)); [apply Hsound2|done]).
  assert (Hdup3 : NoDup (ledger_keys (position_queues w3)))
    by (destruct Hsound3 as [-> _]; exact Hdup).
  destruct (hedge_tracks w Hkeyed) as (os1 & Ht1). rewrite Hrun1 in Ht1.
  destruct (arbitrage_tracks THRESHOLD w1 Hkeyed1) as (os2 & Ht2). rewrite Hrun2 in Ht2.
  destruct (reverse_arbitrage_tracks THRESHOLD w2 Hkeyed2) as (os3 & Ht3).
  rewrite Hrun3 in Ht3.
  destruct (auto_calibrate_tracks w3 Hdup3) as (os4 & Ht4). rewrite Hrun4 in Ht4.
  cbn [snd] in Ht1, Ht2, Ht3, Ht4.
  pose proof (tracks_trans _ _ _ _ _ Ht1
                (tracks_trans _ _ _ _ _ Ht2 (tracks_trans _ _ _ _ _ Ht3 Ht4)))
    as [Hsent4 Hnet4].
  destruct (check_and_correct_run now w4) as (timer' & os5 & Hrun5 & _).
  set (w' := with_basket_violation_start_time timer' (with_orders os5 w4)) in *.
  assert (Hsent5 : sent w' = sent w4 ++ os5) by (unfold w'; simpl; apply sent_with_orders).
  assert (Hpq5 : position_queues w' = position_queues w4)
    by (unfold w'; simpl; apply position_queues_with_orders).
  assert (Hpass : strategy_pass w = (Returned tt, w4)).
  { unfold strategy_pass.
    rewrite (bind_returned _ _ _ _ _ Hrun1), (bind_returned _ _ _ _ _ Hrun2),
      (bind_returned _ _ _ _ _ Hrun3). exact Hrun4. }
  exists w4, w'. split; [exact Hpass|]. split; [exact Hrun5|]. split; [|split].
  - unfold trade_cycle.
    rewrite (bind_returned _ _ _ _ _ Hrun1), (bind_returned _ _ _ _ _ Hrun2),
      (bind_returned _ _ _ _ _ Hrun3), (bind_returned _ _ _ _ _ Hrun4). exact Hrun5.
  - rewrite (issued_app w w4 _ Hsent4), (issued_app w4 w' _ Hsent5).
    apply issued_app. by rewrite Hsent5, Hsent4, <- app_assoc.
  - intros instrument. rewrite Hpq5, (issued_app w w4 _ Hsent4). apply Hnet4.
Qed.
End CycleAccounting.

Lemma trade_cycle_ledger_tracks_strategies_witness :
  exists w4 w',
    strategy_pass arbitrage_world = (Returned tt, w4) /\
    check_and_correct_basket_limit 0 w4 = (Returned tt, w') /\
    trade_cycle 0 arbitrage_world = (Returned tt, w') /\
    issued arbitrage_world w' = issued arbitrage_world w4 ++ issued w4 w' /\
    forall instrument,
      ledger_net instrument (position_queues w') =
      ledger_net instrument (position_queues arbitrage_world) +
      orders_net instrument (issued arbitrage_world w4).
Proof.
  exact (trade_cycle_ledger_tracks_strategies 0 arbitrage_world
           initial_ledger_well_keyed initial_ledger_keys_distinct initial_ledger_tidy).
Defined.

(** ** A tick without market data, and the last-known prices *)

Section TickProperties.
Context {E : Type} `{Exchange E}.

Lemma updated_prices_without_books (e : E) (u : UnderlyingPrices) :
  (forall instrument, get_last_price_book e instrument = None) ->
  updated_prices e u = u.
Proof. intros Hnone. unfold updated_prices. rewrite !Hnone. by destruct u. Qed.

Lemma check_without_books (now : float) (w : World E) :
  (forall instrument, get_last_price_book (exchange w) instrument = None) ->
  exists timer',
    check_and_correct_basket_limit now w =
    (Returned tt, with_basket_violation_start_time timer' w).
Proof.
  intros Hnone.
  assert (Hsell : forall pos tv ids,
             for_each ids (forced_sell pos tv) w = (Returned tt, w)).
  { intros pos tv ids. induction ids as [|id rest IH]; [done|].
    simpl. unfold bind. unfold forced_sell at 1.
    destruct (0 <? pos_get pos id); [|exact IH].
    unfold bind, gets. by rewrite Hnone. }
  assert (Hbuy : forall pos tv ids,
             for_each ids (forced_buy pos tv) w = (Returned tt, w)).
  { intros pos tv ids. induction ids as [|id rest IH]; [done|].
    simpl. unfold bind. unfold forced_buy at 1.
    destruct (pos_get pos id <? 0); [|exact IH].
    unfold bind, gets. by rewrite Hnone. }
  unfold check_and_correct_basket_limit, bind at 1, gets at 1. cbv beta iota zeta.
  destruct ((-250 <=? basket_of (get_positions (exchange w))) &&
            (basket_of (get_positions (exchange w)) <=? 250)); [by eexists|].
  unfold bind at 1, gets at 1. cbv beta iota.
  destruct (basket_violation_start_time w) as [t0|] eqn:Htimer; [|by eexists].
  destruct (fgt (now - t0) 2.5).
  - exists None. unfold bind, modify.
    destruct (300 <? basket_of (get_positions (exchange w))); [by rewrite Hsell|].
    destruct (basket_of (get_positions (exchange w)) <? -300); [by rewrite Hbuy|done].
  - exists (Some t0). unfold ret. destruct w; simpl in *; by subst.
Qed.

(** A tick without market data.  When the exchange reports no book for any
    instrument, a whole trade cycle returns and changes nothing but the breach
    timer: no order, the same ledger, counters and last-known prices. *)
Theorem trade_cycle_without_books (now : float) (w : World E) :
  (forall instrument, get_last_price_book (exchange w) instrument = None) ->
  exists timer',
    trade_cycle now w = (Returned tt, with_basket_violation_start_time timer' w).
Proof.
  intros Hnone.
  assert (Hhedge : hedge_basket_strategy w = (Returned tt, w)).
  { unfold hedge_basket_strategy, update_underlying_prices.
    unfold bind at 1, modify at 1. cbv beta iota.
    unfold bind at 1, gets at 1. cbv beta iota. cbn [exchange with_underlying].
    rewrite (hedge_touches_needs_all_books (exchange w)) by (by rewrite Hnone).
    rewrite updated_prices_without_books by done. unfold ret. by destruct w. }
  assert (Harb : arbitrage_strategy THRESHOLD w = (Returned tt, w)).
  { unfold arbitrage_strategy, bind, gets. cbv beta iota zeta. by rewrite !Hnone. }
  assert (Hrev : reverse_arbitrage_strategy THRESHOLD w = (Returned tt, w)).
  { unfold reverse_arbitrage_strategy, bind, gets. cbv beta iota zeta.
    by rewrite !Hnone. }
  assert (Hcal : auto_calibrate_positions w = (Returned tt, w)).
  { unfold auto_calibrate_positions, bind, gets, modify.
    rewrite calibrate_items_idle; [by destruct w|].
    apply Forall_forall. intros item _. by rewrite Hnone. }
  destruct (check_without_books now w Hnone) as [timer' Hcheck].
  exists timer'. unfold trade_cycle, bind.
  by rewrite Hhedge, Harb, Hrev, Hcal, Hcheck.
Qed.

(** The last-known prices never decide a hedge.  Whatever values the six
    [last_*] globals hold when the hedge is invoked, it returns the same
    outcome, sends the same orders and leaves the same ledger, counters and
    timer; and when all four books have both sides, so that the hedge gets
    past its guards, it even leaves the same last-known prices, because every
    one of them has just been overwritten from the current books. *)
Theorem hedge_ignores_stored_prices (stored : UnderlyingPrices) (w : World E) :
  (hedge_basket_strategy (with_underlying stored w)).1 = (hedge_basket_strategy w).1 /\
  with_underlying stored (hedge_basket_strategy (with_underlying stored w)).2 =
    with_underlying stored (hedge_basket_strategy w).2 /\
  (hedge_touches (exchange w) <> None ->
   hedge_basket_strategy (with_underlying stored w) = hedge_basket_strategy w).
Proof.
  assert (Hstep : forall w0 : World E,
             hedge_touches (exchange w0) = None ->
             hedge_basket_strategy w0 =
             (Returned tt, with_underlying (updated_prices (exchange w0) (underlying w0)) w0)).
  { intros w0 Hnone. unfold hedge_basket_strategy, update_underlying_prices.
    unfold bind at 1, modify at 1. cbv beta iota.
    unfold bind at 1, gets at 1. cbv beta iota. cbn [exchange with_underlying].
    by rewrite Hnone. }
  assert (Hsame : hedge_touches (exchange w) <> None ->
                  hedge_basket_strategy (with_underlying stored w) =
                  hedge_basket_strategy w).
  { intros Hsome.
    destruct (hedge_touches (exchange w))
      as [[[[[etf_bid0 etf_ask0] [asml_bid0 asml_ask0]] [amd_bid0 amd_ask0]]
           [nvda_bid0 nvda_ask0]]|] eqn:Htouches; [|done].
    assert (Hbind : forall (g : World E -> World E) (k : unit -> M E unit) w0,
               bind (modify g) k w0 = k tt (g w0)) by done.
    unfold hedge_basket_strategy, update_underlying_prices.
    rewrite !Hbind. cbn [exchange underlying with_underlying].
    by rewrite !(updated_prices_of_touches _ _ _ _ _ _ _ _ _ _ Htouches). }
  destruct (hedge_touches (exchange w)) eqn:Htouches.
  - rewrite Hsame by done. by repeat split.
  - rewrite (Hstep w Htouches), (Hstep (with_underlying stored w) Htouches).
    by repeat split.
Qed.
End TickProperties.

Lemma trade_cycle_without_books_witness :
  exists timer',
    trade_cycle 0 bookless_world =
    (Returned tt, with_basket_violation_start_time timer' bookless_world).
Proof.
  apply (trade_cycle_without_books 0 bookless_world).
  intros instrument. reflexivity.
Defined.

Lemma hedge_ignores_stored_prices_witness :
  hedge_basket_strategy (with_underlying stale_prices nearly_capped_world) =
  hedge_basket_strategy nearly_capped_world.
Proof.
  apply (proj2 (proj2 (hedge_ignores_stored_prices stale_prices nearly_capped_world))).
  vm_compute. discriminate.
Defined.

(** ** [helper.py]: clearing positions *)

Section ClearingProperties.
Context {E : Type} `{Exchange E}.

Lemma clear_all_stock_body_is positions id :
  clear_all_stock_body (E:=E) positions id =
  clear_body_with (fun position => position =? 0) positions id.
Proof. reflexivity. Qed.

Lemma clear_excess_stock_body_is positions id :
  clear_excess_stock_body (E:=E) positions id =
  clear_body_with (fun position => (position =? 0) || (Z.abs position <? 500))
                  positions id.
Proof. reflexivity. Qed.

(** One order that closes a non-zero position entirely. *)
Lemma flatten_position_order id (pb : option PriceBook) position (w : World E) :
  is_up pb = true -> position <> 0 ->
  exists touch side,
    flatten_position id pb position w =
      (Returned tt,
       with_orders [mkOrder id touch (Z.abs position) side ORDER_TYPE_LIMIT] w) /\
    signed_volume side (Z.abs position) = - position.
Proof.
  intros Hup Hnz. unfold flatten_position, is_up in *.
  destruct pb as [pb|]; [|discriminate].
  destruct (asks pb) as [|ask0 asks0]; [discriminate|].
  destruct (bids pb) as [|bid0 bids0]; [discriminate|].
  destruct (position <? 0) eqn:Hneg.
  - apply Z.ltb_lt in Hneg. exists (price ask0), SIDE_BID. split; [done|].
    unfold signed_volume. destruct (decide (SIDE_BID = SIDE_BID)); [lia|congruence].
  - apply Z.ltb_ge in Hneg. exists (price bid0), SIDE_ASK.
    split; [by rewrite Z.abs_eq by lia|].
    unfold signed_volume. destruct (decide (SIDE_ASK = SIDE_BID)); [discriminate|].
    destruct (decide (SIDE_ASK = SIDE_ASK)); [lia|congruence].
Qed.

(** The four ways through a loop body. *)
Lemma clear_body_with_cases (skip : Z -> bool) positions id (w : World E) :
  (forall position, skip position = false -> position <> 0) ->
  (is_up (get_last_price_book (exchange w) id) = false /\
   clear_body_with skip positions id w = (Returned tt, w)) \/
  (is_up (get_last_price_book (exchange w) id) = true /\ positions !! id = None /\
   clear_body_with skip positions id w = (Raised (KeyError id), w)) \/
  (exists position,
      is_up (get_last_price_book (exchange w) id) = true /\
      positions !! id = Some position /\ skip position = true /\
      clear_body_with skip positions id w = (Returned tt, w)) \/
  (exists position touch side,
      is_up (get_last_price_book (exchange w) id) = true /\
      positions !! id = Some position /\ skip position = false /\
      signed_volume side (Z.abs position) = - position /\
      clear_body_with skip positions id w =
        (Returned tt,
         with_orders [mkOrder id touch (Z.abs position) side ORDER_TYPE_LIMIT] w)).
Proof.
  intros Hskip. unfold clear_body_with, bind, gets. cbv beta iota.
  destruct (is_up (get_last_price_book (exchange w) id)) eqn:Hup; [|by left].
  right. cbv beta iota delta [negb].
  destruct (positions !! id) as [position|] eqn:Hpos; [|by left].
  right. destruct (skip position) eqn:Hsk; [left; by exists position|].
  right. destruct (flatten_position_order id _ position w Hup (Hskip _ Hsk))
    as (touch & side & Hrun & Hsigned).
  by exists position, touch, side.
Qed.

(** A clearing loop on an exchange that reports a position for every
    instrument of the list: it returns, and its orders are limit orders on
    distinct instruments of the list, each of the absolute value of a position
    that is not skipped, on the side that closes it. *)
Lemma clear_loop_orders (skip : Z -> bool) positions (ids : list string) :
  (forall position, skip position = false -> position <> 0) ->
  (forall id, id ∈ ids -> is_Some (positions !! id)) ->
  forall w : World E, exists os,
    for_each ids (clear_body_with skip positions) w = (Returned tt, with_orders os w) /\
    map order_instrument os `sublist_of` ids /\
    Forall (fun o =>
              order_type o = ORDER_TYPE_LIMIT /\
              skip (pos_get positions (order_instrument o)) = false /\
              order_volume o = Z.abs (pos_get positions (order_instrument o)) /\
              pos_get positions (order_instrument o) +
                signed_volume (order_side o) (order_volume o) = 0) os.
Proof.
  intros Hskip Hpresent. apply for_each_at_most_one_order.
  intros id w Hin.
  destruct (clear_body_with_cases skip positions id w Hskip)
    as [[_ Hrun]|[(_ & Hnone & _)|[(position & _ & _ & _ & Hrun)
                                  |(position & touch & side & _ & Hpos & Hsk & Hsigned & Hrun)]]].
  - exists []. split; [exact Hrun|by left].
  - destruct (Hpresent id Hin) as [? ?]. congruence.
  - exists []. split; [exact Hrun|by left].
  - eexists. split; [exact Hrun|]. right. eexists. split; [reflexivity|].
    unfold pos_get. simpl. rewrite Hpos. simpl. repeat split; [done|lia].
Qed.

(** [clear_all_stock] on an exchange that reports a position for each of the
    five instruments: it returns, and every order it sends is a limit order
    that closes the whole position of its instrument, a buy of the absolute
    value of a short position at the best ask or a sell of a long one at the
    best bid, at most one order per instrument. *)
Theorem clear_all_stock_orders_flatten (w : World E) :
  (forall id, id ∈ INSTRUMENT_IDS -> is_Some (get_positions (exchange w) !! id)) ->
  exists os,
    clear_all_stock w = (Returned tt, with_orders os w) /\
    NoDup (map order_instrument os) /\
    Forall (fun o =>
              order_instrument o ∈ INSTRUMENT_IDS /\
              order_type o = ORDER_TYPE_LIMIT /\ 0 < order_volume o /\
              pos_get (get_positions (exchange w)) (order_instrument o) +
                signed_volume (order_side o) (order_volume o) = 0) os.
Proof.
  intros Hpresent. unfold clear_all_stock, bind at 1, gets at 1. cbv beta iota.
  destruct (clear_loop_orders (fun position => position =? 0)
              (get_positions (exchange w)) INSTRUMENT_IDS
              ltac:(intros p Hp; by apply Z.eqb_neq) Hpresent w)
    as (os & Hrun & Hsub & Hgood).
  exists os. split; [exact Hrun|].
  split; [eapply sublist_NoDup; [apply instrument_ids_distinct|exact Hsub]|].
  apply Forall_forall. intros o Ho.
  rewrite Forall_forall in Hgood. destruct (Hgood o Ho) as (Htype & Hsk & Hvol & Hflat).
  split; [|split; [exact Htype|split; [|exact Hflat]]].
  - eapply elem_of_sublist; [|exact Hsub].
    by apply (list_elem_of_fmap_2 order_instrument).
  - apply Z.eqb_neq in Hsk. lia.
Qed.

(** [clear_excess_stock] on such an exchange: it returns, and it only touches
    positions of at least 500 in absolute value, each of which it closes
    entirely with one limit order. *)
Theorem clear_excess_stock_orders_flatten (w : World E) :
  (forall id, id ∈ INSTRUMENT_IDS -> is_Some (get_positions (exchange w) !! id)) ->
  exists os,
    clear_excess_stock w = (Returned tt, with_orders os w) /\
    NoDup (map order_instrument os) /\
    Forall (fun o =>
              order_instrument o ∈ INSTRUMENT_IDS /\
              order_type o = ORDER_TYPE_LIMIT /\
              500 <= Z.abs (pos_get (get_positions (exchange w)) (order_instrument o)) /\
              pos_get (get_positions (exchange w)) (order_instrument o) +
                signed_volume (order_side o) (order_volume o) = 0) os.
Proof.
  intros Hpresent. unfold clear_excess_stock, bind at 1, gets at 1. cbv beta iota.
  destruct (clear_loop_orders
              (fun position => (position =? 0) || (Z.abs position <? 500))
              (get_positions (exchange w)) INSTRUMENT_IDS
              ltac:(intros p Hp; apply orb_false_iff in Hp as [Hp _];
                    by apply Z.eqb_neq) Hpresent w)
    as (os & Hrun & Hsub & Hgood).
  exists os. split; [exact Hrun|].
  split; [eapply sublist_NoDup; [apply instrument_ids_distinct|exact Hsub]|].
  apply Forall_forall. intros o Ho.
  rewrite Forall_forall in Hgood. destruct (Hgood o Ho) as (Htype & Hsk & Hvol & Hflat).
  split; [|split; [exact Htype|split; [|exact Hflat]]].
  - eapply elem_of_sublist; [|exact Hsub].
    by apply (list_elem_of_fmap_2 order_instrument).
  - apply orb_false_iff in Hsk as [_ Hsk]. apply Z.ltb_ge in Hsk. exact Hsk.
Qed.

Section SteadyBooks.
(** Orders do not move the books the exchange reports. *)
Hypothesis books_stay :
  forall (e : E) (o : Order) (instrument : string),
    get_last_price_book (insert_order e o) instrument = get_last_price_book e instrument.

Lemma books_with_orders (os : list Order) (w : World E) (instrument : string) :
  get_last_price_book (exchange (with_orders os w)) instrument =
  get_last_price_book (exchange w) instrument.
Proof.
  revert w. induction os as [|o os IH]; intros w; [done|].
  change (with_orders (o :: os) w) with (with_orders os (with_order o w)).
  rewrite IH. simpl. apply books_stay.
Qed.

(** With every book of the list up, a clearing loop leaves, after an
    immediate fill of its orders, the skipped positions as they are and every
    other position at zero. *)
Lemma clear_loop_complete (skip : Z -> bool) positions (ids : list string) :
  (forall position, skip position = false -> position <> 0) ->
  NoDup ids ->
  (forall id, id ∈ ids -> is_Some (positions !! id)) ->
  forall w : World E,
    (forall id, id ∈ ids -> is_up (get_last_price_book (exchange w) id) = true) ->
    exists os,
      for_each ids (clear_body_with skip positions) w = (Returned tt, with_orders os w) /\
      Forall (fun o => order_instrument o ∈ ids) os /\
      forall id, id ∈ ids ->
        pos_get positions id + orders_net id os =
        if skip (pos_get positions id) then pos_get positions id else 0.
Proof.
  intros Hskip. induction ids as [|id0 rest IH]; intros Hdup Hpresent w Hup.
  - exists []. split; [done|]. split; [constructor|]. by intros id ?%elem_of_nil.
  - apply NoDup_cons in Hdup as [Hfresh Hdup].
    assert (Hhead : exists os1,
               clear_body_with skip positions id0 w = (Returned tt, with_orders os1 w) /\
               Forall (fun o => order_instrument o = id0) os1 /\
               pos_get positions id0 + signed_total os1 =
               if skip (pos_get positions id0) then pos_get positions id0 else 0).
    { destruct (clear_body_with_cases skip positions id0 w Hskip)
        as [[Hdown _]|[(_ & Hnone & _)|[(position & _ & Hpos & Hsk & Hrun)
                                       |(position & touch & side & _ & Hpos & Hsk & Hsigned & Hrun)]]].
      - rewrite Hup in Hdown by (by left). discriminate.
      - destruct (Hpresent id0 ltac:(by left)) as [? ?]. congruence.
      - exists []. split; [exact Hrun|]. split; [constructor|].
        unfold pos_get. rewrite Hpos. simpl. rewrite Hsk. lia.
      - eexists. split; [exact Hrun|]. split; [by repeat constructor|].
        unfold pos_get. rewrite Hpos. simpl. rewrite Hsk, Hsigned. lia. }
    destruct Hhead as (os1 & Hrun1 & Hon1 & Hnet1).
    destruct (IH Hdup (fun id Hin => Hpresent id ltac:(by right)) (with_orders os1 w))
      as (os2 & Hrun2 & Hin2 & Hnet2).
    { intros id Hin. rewrite books_with_orders. apply Hup. by right. }
    exists (os1 ++ os2). split; [|split].
    + simpl. unfold bind. rewrite Hrun1, Hrun2. by rewrite with_orders_app.
    + apply Forall_app. split.
      * eapply Forall_impl; [exact Hon1|]. intros o ->. by left.
      * eapply Forall_impl; [exact Hin2|]. intros o Ho. by right.
    + intros id Hin. rewrite orders_net_app.
      apply elem_of_cons in Hin as [->|Hin].
      * rewrite (orders_net_here _ _ Hon1), (orders_net_elsewhere _ os2); [lia|].
        eapply Forall_impl; [exact Hin2|]. intros o Ho Heq. simpl in Ho.
        rewrite Heq in Ho. exact (Hfresh Ho).
      * rewrite (orders_net_elsewhere _ os1); [rewrite <- (Hnet2 id Hin); lia|].
        eapply Forall_impl; [exact Hon1|]. intros o -> ->. exact (Hfresh Hin).
Qed.

(** An instrument whose book is up and for which the exchange reports no
    position makes a clearing loop raise [KeyError], for that instrument or
    for an earlier one with the same defect. *)
Lemma clear_loop_raises (skip : Z -> bool) positions (ids : list string) :
  (forall position, skip position = false -> position <> 0) ->
  forall (w : World E) (bad : string),
    bad ∈ ids -> is_up (get_last_price_book (exchange w) bad) = true ->
    positions !! bad = None ->
    exists id os,
      for_each ids (clear_body_with skip positions) w =
        (Raised (KeyError id), with_orders os w) /\
      id ∈ ids /\ positions !! id = None.
Proof.
  intros Hskip. induction ids as [|id0 rest IH]; intros w bad Hin Hup Hnone;
    [by apply elem_of_nil in Hin|].
  assert (Hnext : forall os1,
             clear_body_with skip positions id0 w = (Returned tt, with_orders os1 w) ->
             bad <> id0 ->
             exists id os,
               for_each (id0 :: rest) (clear_body_with skip positions) w =
                 (Raised (KeyError id), with_orders os w) /\
               id ∈ id0 :: rest /\ positions !! id = None).
  { intros os1 Hrun Hne.
    destruct (IH (with_orders os1 w) bad) as (id & os & Hloop & Hid & Hmissing).
    - apply elem_of_cons in Hin as [?|?]; [done|done].
    - by rewrite books_with_orders.
    - exact Hnone.
    - exists id, (os1 ++ os). split; [|split; [by right|exact Hmissing]].
      simpl. unfold bind. rewrite Hrun, Hloop. by rewrite with_orders_app. }
  destruct (clear_body_with_cases skip positions id0 w Hskip)
    as [[Hdown Hrun]|[(_ & Hmissing & Hrun)|[(position & _ & Hpos & _ & Hrun)
                                            |(position & touch & side & _ & Hpos & _ & _ & Hrun)]]].
  - apply (Hnext []); [exact Hrun|]. intros ->. congruence.
  - exists id0, []. split; [|split; [by left|exact Hmissing]].
    simpl. unfold bind. by rewrite Hrun.
  - apply (Hnext []); [exact Hrun|]. intros ->. congruence.
  - eapply Hnext; [exact Hrun|]. intros ->. congruence.
Qed.

(** Clearing works when the market is there.  On an exchange whose books are
    not moved by orders, with all five books up and a position reported for
    every instrument, [clear_all_stock] returns and an immediate fill of its
    orders leaves every position at zero; [clear_excess_stock] returns and an
    immediate fill of its orders leaves every position below 500 in absolute
    value. *)
Theorem clearing_flattens_positions (w : World E) :
  (forall id, id ∈ INSTRUMENT_IDS ->
              is_up (get_last_price_book (exchange w) id) = true) ->
  (forall id, id ∈ INSTRUMENT_IDS -> is_Some (get_positions (exchange w) !! id)) ->
  (exists os,
      clear_all_stock w = (Returned tt, with_orders os w) /\
      forall id, id ∈ INSTRUMENT_IDS ->
        pos_get (get_positions (exchange w)) id + orders_net id os = 0) /\
  (exists os,
      clear_excess_stock w = (Returned tt, with_orders os w) /\
      forall id, id ∈ INSTRUMENT_IDS ->
        Z.abs (pos_get (get_positions (exchange w)) id + orders_net id os) < 500).
Proof.
  intros Hup Hpresent. split.
  - destruct (clear_loop_complete (fun position => position =? 0)
                (get_positions (exchange w)) INSTRUMENT_IDS
                ltac:(intros p Hp; by apply Z.eqb_neq)
                instrument_ids_distinct Hpresent w Hup) as (os & Hrun & _ & Hnet).
    exists os. split; [exact Hrun|]. intros id Hin. rewrite (Hnet id Hin).
    destruct (pos_get (get_positions (exchange w)) id =? 0) eqn:Hz; [|done].
    by apply Z.eqb_eq.
  - destruct (clear_loop_complete
                (fun position => (position =? 0) || (Z.abs position <? 500))
                (get_positions (exchange w)) INSTRUMENT_IDS
                ltac:(intros p Hp; apply orb_false_iff in Hp as [Hp _];
                      by apply Z.eqb_neq)
                instrument_ids_distinct Hpresent w Hup) as (os & Hrun & _ & Hnet).
    exists os. split; [exact Hrun|]. intros id Hin. rewrite (Hnet id Hin).
    destruct ((pos_get (get_positions (exchange w)) id =? 0)
              || (Z.abs (pos_get (get_positions (exchange w)) id) <? 500)) eqn:Hsk;
      [|lia].
    apply orb_true_iff in Hsk as [Hz|Hsmall];
      [apply Z.eqb_eq in Hz; lia|by apply Z.ltb_lt].
Qed.

(** [helper.py] subscripts the positions where [main.py] uses [.get(id, 0)]:
    on an exchange whose books are not moved by orders, an instrument whose
    book is up and that has no entry in the reported positions makes both
    [clear_all_stock] and [clear_excess_stock] raise [KeyError] on an
    instrument without entry, the orders sent before it staying sent. *)
Theorem clearing_needs_position_entries (w : World E) (bad : string) :
  bad ∈ INSTRUMENT_IDS ->
  is_up (get_last_price_book (exchange w) bad) = true ->
  get_positions (exchange w) !! bad = None ->
  (exists id os,
      clear_all_stock w = (Raised (KeyError id), with_orders os w) /\
      id ∈ INSTRUMENT_IDS /\ get_positions (exchange w) !! id = None) /\
  (exists id os,
      clear_excess_stock w = (Raised (KeyError id), with_orders os w) /\
      id ∈ INSTRUMENT_IDS /\ get_positions (exchange w) !! id = None).
Proof.
  intros Hin Hup Hnone. split.
  - apply (clear_loop_raises (fun position => position =? 0)
             (get_positions (exchange w)) INSTRUMENT_IDS
             ltac:(intros p Hp; by apply Z.eqb_neq) w bad Hin Hup Hnone).
  - apply (clear_loop_raises
             (fun position => (position =? 0) || (Z.abs position <? 500))
             (get_positions (exchange w)) INSTRUMENT_IDS
             ltac:(intros p Hp; apply orb_false_iff in Hp as [Hp _];
                   by apply Z.eqb_neq) w bad Hin Hup Hnone).
Qed.
End SteadyBooks.
End ClearingProperties.

Lemma stocked_world_reports_all_positions (id : string) :
  id ∈ INSTRUMENT_IDS -> is_Some (get_positions (exchange stocked_world) !! id).
Proof.
  intros Hin.
  repeat (apply elem_of_cons in Hin as [->|Hin]; [eexists; reflexivity|]).
  by apply elem_of_nil in Hin.
Defined.

Lemma stocked_world_books_up (id : string) :
  id ∈ INSTRUMENT_IDS ->
  is_up (get_last_price_book (exchange stocked_world) id) = true.
Proof.
  intros Hin.
  repeat (apply elem_of_cons in Hin as [->|Hin]; [reflexivity|]).
  by apply elem_of_nil in Hin.
Defined.

Lemma clear_all_stock_orders_flatten_witness :
  exists os,
    clear_all_stock stocked_world = (Returned tt, with_orders os stocked_world) /\
    NoDup (map order_instrument os) /\
    Forall (fun o =>
              order_instrument o ∈ INSTRUMENT_IDS /\
              order_type o = ORDER_TYPE_LIMIT /\ 0 < order_volume o /\
              pos_get (get_positions (exchange stocked_world)) (order_instrument o) +
                signed_volume (order_side o) (order_volume o) = 0) os.
Proof.
  exact (clear_all_stock_orders_flatten stocked_world stocked_world_reports_all_positions).
Defined.

Lemma clear_excess_stock_orders_flatten_witness :
  exists os,
    clear_excess_stock stocked_world = (Returned tt, with_orders os stocked_world) /\
    NoDup (map order_instrument os) /\
    Forall (fun o =>
              order_instrument o ∈ INSTRUMENT_IDS /\
              order_type o = ORDER_TYPE_LIMIT /\
              500 <= Z.abs (pos_get (get_positions (exchange stocked_world))
                                    (order_instrument o)) /\
              pos_get (get_positions (exchange stocked_world)) (order_instrument o) +
                signed_volume (order_side o) (order_volume o) = 0) os.
Proof.
  exact (clear_excess_stock_orders_flatten stocked_world
           stocked_world_reports_all_positions).
Defined.

Lemma clearing_flattens_positions_witness :
  (exists os,
      clear_all_stock stocked_world = (Returned tt, with_orders os stocked_world) /\
      forall id, id ∈ INSTRUMENT_IDS ->
        pos_get (get_positions (exchange stocked_world)) id + orders_net id os = 0) /\
  (exists os,
      clear_excess_stock stocked_world = (Returned tt, with_orders os stocked_world) /\
      forall id, id ∈ INSTRUMENT_IDS ->
        Z.abs (pos_get (get_positions (exchange stocked_world)) id + orders_net id os)
        < 500).
Proof.
  apply (@clearing_flattens_positions QuietExchange quiet_exchange).
  - intros e o instrument. reflexivity.
  - exact stocked_world_books_up.
  - exact stocked_world_reports_all_positions.
Defined.

Lemma clearing_needs_position_entries_witness :
  (exists id os,
      clear_all_stock unlisted_world = (Raised (KeyError id), with_orders os unlisted_world) /\
      id ∈ INSTRUMENT_IDS /\ get_positions (exchange unlisted_world) !! id = None) /\
  (exists id os,
      clear_excess_stock unlisted_world =
        (Raised (KeyError id), with_orders os unlisted_world) /\
      id ∈ INSTRUMENT_IDS /\ get_positions (exchange unlisted_world) !! id = None).
Proof.
  apply (@clearing_needs_position_entries QuietExchange quiet_exchange)
    with (bad := ASML_ID).
  - intros e o instrument. reflexivity.
  - repeat constructor.
  - reflexivity.
  - reflexivity.
Defined.

Example clear_all_stock_on_mixed_positions :
  sent (clear_all_stock stocked_world).2 =
    [ mkOrder ETF_US_ID 100 620 SIDE_ASK ORDER_TYPE_LIMIT;
      mkOrder ETF_EU_ID 100.5 510 SIDE_BID ORDER_TYPE_LIMIT;
      mkOrder NVDA_ID 100 30 SIDE_ASK ORDER_TYPE_LIMIT;
      mkOrder ASML_ID 100.5 499 SIDE_BID ORDER_TYPE_LIMIT ] /\
  sent (clear_excess_stock stocked_world).2 =
    [ mkOrder ETF_US_ID 100 620 SIDE_ASK ORDER_TYPE_LIMIT;
      mkOrder ETF_EU_ID 100.5 510 SIDE_BID ORDER_TYPE_LIMIT ] /\
  clear_all_stock unlisted_world =
    (Raised (KeyError ASML_ID),
     with_orders [ mkOrder ETF_US_ID 100 620 SIDE_ASK ORDER_TYPE_LIMIT;
                   mkOrder ETF_EU_ID 100.5 510 SIDE_BID ORDER_TYPE_LIMIT;
                   mkOrder NVDA_ID 100 30 SIDE_ASK ORDER_TYPE_LIMIT ] unlisted_world).
Proof. vm_compute. by repeat split. Qed.
